(** * Terminal.js: the append-only text buffer, the screen tilemap and the view

    A shallow embedding of [Terminal.Buffer], [Terminal.Screen] and
    [Terminal.View] as the TypeScript source defines them (the variant
    with a style channel and a column cap; the earlier [Buffer] of
    [src/terminal.ts] is in [Legacy], the cursor, scrolling and text
    writing of its [Screen] in [LegacyScreen]), of the console [Terminal.Con], the
    selection buffer, the color palette, the sprite sheet and the number
    formatters, followed by the properties of the specification that
    concern them and by further properties of the code.

    Conventions of the embedding.
    - A JavaScript number that only ever holds an integer ([i], [h],
      [version], cursor coordinates, character codes) is a [Z].  The
      53-bit precision limit of doubles is not modelled, and neither is a
      failed allocation.
    - A number that can be [NaN] is an [option]: [None] is [NaN].  The same
      encoding is used for [undefined], the result of reading a typed array
      outside its bounds.
    - A typed array is a length, an element width and a finite map from
      index to stored value; an index that is absent from the map holds 0,
      which is how [new Uint8Array(n)] initialises its cells.  Stores wrap
      to the element width and are ignored outside the bounds.
    - Methods take the object last and return the object after the call.
    - A string is the list of its code units.
    - WebGL, canvas and DOM state is not modelled: it does not influence the
      fields the properties talk about. *)

From Stdlib Require Import ZArith List Lia Bool QArith Qminmax Qround.
From stdpp Require Import base option list gmap.

Local Open Scope Z_scope.

(** ** JavaScript arithmetic used by the source *)

(** An integer-valued number that may be [NaN]. *)
Definition num := option Z.

(** [x | 0] on an integer: wrap to a signed 32-bit value. *)
Definition toInt32 (z : Z) : Z := (z + 2 ^ 31) mod 2 ^ 32 - 2 ^ 31.

(** [Math.max(a, b)]: [NaN] if either argument is [NaN]. *)
Definition Math_max (a b : num) : num :=
  match a, b with
  | Some x, Some y => Some (Z.max x y)
  | _, _ => None
  end.

(** [Math.min(a, b)]. *)
Definition Math_min (a b : num) : num :=
  match a, b with
  | Some x, Some y => Some (Z.min x y)
  | _, _ => None
  end.

(** [a - b]. *)
Definition num_sub (a b : num) : num :=
  match a, b with
  | Some x, Some y => Some (x - y)
  | _, _ => None
  end.

(** [a >= c]: false when [a] is [NaN]. *)
Definition num_ge (a : num) (c : Z) : bool :=
  match a with
  | Some x => c <=? x
  | None => false
  end.

(** [(c % d) | 0]: the remainder has the sign of the dividend; a [NaN]
    dividend or a zero divisor gives [NaN], which [| 0] turns into 0. *)
Definition rem_int32 (c : num) (d : Z) : Z :=
  match c with
  | Some c => if d =? 0 then 0 else toInt32 (Z.rem c d)
  | None => 0
  end.

(** [(c / d) | 0]: the quotient truncated towards zero; [NaN] and the
    infinities of a division by zero become 0. *)
Definition quot_int32 (c : num) (d : Z) : Z :=
  match c with
  | Some c => if d =? 0 then 0 else toInt32 (Z.quot c d)
  | None => 0
  end.

(** [function clamp(value, min, max)] on integers. *)
Definition clamp (value min max : Z) : Z := Z.max min (Z.min max value).

(** [clamp] where [value] or [max] may be [NaN]. *)
Definition clamp_num (value : num) (min : Z) (max : num) : num :=
  Math_max (Some min) (Math_min max value).

(** [clamp] on the fractional numbers of [View] (scroll offsets and wheel
    deltas); [None] is [NaN]. *)
Definition clampQ (value : option Q) (min : Q) (max : option Q) : option Q :=
  match value, max with
  | Some v, Some m => Some (Qmax min (Qmin m v))
  | _, _ => None
  end.

(** [const enum CharacterCode { NewLine = 10 }] *)
Definition CharacterCode_NewLine : Z := 10.

(** [const enum FontStyle] *)
Inductive FontStyle := Normal | Bold | Italic | BoldItalic.

Definition FontStyle_code (s : FontStyle) : Z :=
  match s with
  | Normal => 0
  | Bold => 1
  | Italic => 2
  | BoldItalic => 3
  end.

(** ** Typed arrays *)

Module TypedArray.

Record t := make {
  bits : Z;             (* element width: 8, 16 or 32 *)
  length : Z;
  cells : gmap Z Z      (* absent index: 0 *)
}.

(** [new UintNArray(n)] *)
Definition alloc (width n : Z) : t := make width n ∅.

Definition in_range (a : t) (k : Z) : bool := (0 <=? k) && (k <? length a).

(** [a[k]] as an expression: [undefined] outside the bounds. *)
Definition get (a : t) (k : Z) : option Z :=
  if in_range a k then Some (default 0 (cells a !! k)) else None.

(** [a[k] = v]: the value wraps to the element width; a store outside the
    bounds is ignored. *)
Definition store (a : t) (k v : Z) : t :=
  if in_range a k
  then make (bits a) (length a) (<[k := v mod 2 ^ bits a]> (cells a))
  else a.

(** [a[k] = v] where [v] may be [undefined] or [NaN]: both store 0. *)
Definition store_num (a : t) (k : Z) (v : option Z) : t :=
  store a k (default 0 v).

(** [dst.set(src, 0)] between two arrays of the same element type: the
    cells of [src] overwrite the first [src.length] cells of [dst].  (It
    throws when [src] is longer than [dst]; the source only calls it with
    a [dst] twice as long.) *)
Definition set_all (dst src : t) : t :=
  make (bits dst) (length dst)
    (filter (λ kv, in_range src kv.1 = true) (cells src)
     ∪ filter (λ kv, in_range src kv.1 = false) (cells dst)).

(** The reallocation idiom of the source:
    [var n = new UintNArray(a.length * 2); n.set(a, 0); a = n]. *)
Definition grow (a : t) : t := set_all (alloc (bits a) (length a * 2)) a.

End TypedArray.

Definition Uint8Array (n : Z) : TypedArray.t := TypedArray.alloc 8 n.
Definition Uint16Array (n : Z) : TypedArray.t := TypedArray.alloc 16 n.
Definition Uint32Array (n : Z) : TypedArray.t := TypedArray.alloc 32 n.

(** ** [class Buffer] *)

Module Buffer.

Record t := make {
  starts : TypedArray.t;          (* start position of each line *)
  buffer : TypedArray.t;
  styles : TypedArray.t;
  colors : TypedArray.t;
  h : Z;                          (* number of rows *)
  columns : Z;                    (* maximum number of columns *)
  i : Z;                          (* buffer index *)
  color : Z;                      (* active 16 bit color *)
  style : FontStyle;              (* active style *)
  previousMaxLineWidth : num;     (* maximum width so far *)
  version : Z
}.

(** [this.i - this.starts[this.h - 1]], the length of the row being
    written; [NaN] when [starts[h - 1]] is [undefined]. *)
Definition rowLength (b : t) : num :=
  num_sub (Some (i b)) (TypedArray.get (starts b) (h b - 1)).

(** [get w()] *)
Definition w (b : t) : num :=
  Math_max (previousMaxLineWidth b) (rowLength b).

(** Cell [k] of the three parallel arrays: character, color, style. *)
Definition cell (b : t) (k : Z) : option Z * option Z * option Z :=
  (TypedArray.get (buffer b) k, TypedArray.get (colors b) k,
   TypedArray.get (styles b) k).

(** [clear()] *)
Definition clear (b : t) : t :=
  {| starts := starts b; buffer := buffer b; styles := styles b;
     colors := colors b; columns := columns b;
     color := color b; style := style b;
     h := 1;
     i := 0;
     version := 0;
     previousMaxLineWidth := Some 0 |}.

(** [constructor(columns = 1024 * 1024)].  The fields that [clear()]
    assigns are written out; the arrays are allocated after it. *)
Definition new (columns : Z) : t :=
  {| color := 0xFFFF;
     style := Normal;
     h := 1; i := 0; version := 0; previousMaxLineWidth := Some 0;
     starts := Uint32Array 32;
     buffer := Uint8Array (1024 * 1024);
     styles := Uint8Array (1024 * 1024);
     colors := Uint16Array (1024 * 1024);
     columns := toInt32 columns |}.

(** The constructor called without an argument. *)
Definition new_default : t := new (1024 * 1024).

(** [newLine()] *)
Definition newLine (b : t) : t :=
  let starts1 :=
    if TypedArray.length (starts b) =? h b
    then TypedArray.grow (starts b) else starts b in
  let width :=
    Math_max (previousMaxLineWidth b)
             (num_sub (Some (i b)) (TypedArray.get starts1 (h b - 1))) in
  {| starts := TypedArray.store starts1 (h b) (i b);
     h := h b + 1;
     previousMaxLineWidth := width;
     version := version b + 1;
     buffer := buffer b; styles := styles b; colors := colors b;
     columns := columns b; i := i b; color := color b; style := style b |}.

(** [writeCharCode(x)], statement by statement. *)

(** [if (this.i - this.starts[this.h - 1] >= this.columns) this.newLine();] *)
Definition wrapRow (b : t) : t :=
  if num_ge (rowLength b) (columns b) then newLine b else b.

(** [if (this.buffer.length === this.i) { ... }]: the three parallel
    arrays are reallocated to twice their length. *)
Definition ensureCapacity (b : t) : t :=
  if TypedArray.length (buffer b) =? i b
  then
    {| buffer := TypedArray.grow (buffer b);
       styles := TypedArray.grow (styles b);
       colors := TypedArray.grow (colors b);
       starts := starts b; h := h b; columns := columns b; i := i b;
       color := color b; style := style b;
       previousMaxLineWidth := previousMaxLineWidth b;
       version := version b |}
  else b.

(** [this.styles[this.i] = this.style; this.colors[this.i] = this.color;
     this.buffer[this.i] = x; this.i ++; this.version ++;] *)
Definition append (x : Z) (b : t) : t :=
  {| styles := TypedArray.store (styles b) (i b) (FontStyle_code (style b));
     colors := TypedArray.store (colors b) (i b) (color b);
     buffer := TypedArray.store (buffer b) (i b) x;
     i := i b + 1;
     version := version b + 1;
     starts := starts b; h := h b; columns := columns b;
     color := color b; style := style b;
     previousMaxLineWidth := previousMaxLineWidth b |}.

Definition writeCharCode (x : Z) (b : t) : t :=
  append x (ensureCapacity (wrapRow b)).

(** [writeString(s)]; the string is the list of its character codes
    ([s.charCodeAt(i)] for each [i]). *)
Fixpoint writeString (s : list Z) (b : t) : t :=
  match s with
  | [] => b
  | c :: s' =>
      if c =? CharacterCode_NewLine
      then writeString s' (newLine b)
      else writeString s' (writeCharCode c b)
  end.

(** Assignments to the public fields [color] and [style]. *)
Definition setColor (c : Z) (b : t) : t :=
  {| color := c;
     starts := starts b; buffer := buffer b; styles := styles b;
     colors := colors b; h := h b; columns := columns b; i := i b;
     style := style b; previousMaxLineWidth := previousMaxLineWidth b;
     version := version b |}.

Definition setStyle (s : FontStyle) (b : t) : t :=
  {| style := s;
     starts := starts b; buffer := buffer b; styles := styles b;
     colors := colors b; h := h b; columns := columns b; i := i b;
     color := color b; previousMaxLineWidth := previousMaxLineWidth b;
     version := version b |}.

(** The calls a client can make on a buffer, and their effect. *)
Inductive op :=
| WriteCharCode (x : Z)
| WriteString (s : list Z)
| NewLine
| Clear
| SetColor (c : Z)
| SetStyle (s : FontStyle).

Definition step (b : t) (o : op) : t :=
  match o with
  | WriteCharCode x => writeCharCode x b
  | WriteString s => writeString s b
  | NewLine => newLine b
  | Clear => clear b
  | SetColor c => setColor c b
  | SetStyle s => setStyle s b
  end.

(** Run a sequence of calls, first call first. *)
Definition run (ops : list op) (b : t) : t := fold_left step ops b.

(** Calls that append: everything except [clear()]. *)
Definition appends (o : op) : bool :=
  match o with
  | Clear => false
  | _ => true
  end.

(** [writeCharCode]/[writeString] calls that carry no newline code. *)
Definition plain (o : op) : bool :=
  match o with
  | WriteCharCode x => negb (x =? CharacterCode_NewLine)
  | WriteString s => forallb (λ c, negb (c =? CharacterCode_NewLine)) s
  | _ => false
  end.

(** Calls of a write sequence: [writeCharCode], [writeString], [newLine]. *)
Definition writes (o : op) : bool :=
  match o with
  | WriteCharCode _ | WriteString _ | NewLine => true
  | _ => false
  end.

(** Number of characters a call appends to [buffer]. *)
Definition chars (o : op) : Z :=
  match o with
  | WriteCharCode _ => 1
  | WriteString s =>
      Z.of_nat (List.length (List.filter (λ c, negb (c =? CharacterCode_NewLine)) s))
  | _ => 0
  end.

Definition total_chars (ops : list op) : Z :=
  fold_right (λ o n, chars o + n) 0 ops.

End Buffer.

(** ** [class Screen] *)

Module Screen.

(** The fields the cursor and tilemap operations read and write.
    [screenBuffer] is the tilemap: four bytes per cell, row-major. *)
Record t := make {
  w : Z;                          (* number of columns *)
  h : Z;                          (* number of rows *)
  x : Z;                          (* current cursor x position *)
  y : Z;                          (* current cursor y position *)
  color : Z;                      (* current color *)
  style : FontStyle;              (* current font style *)
  tileColumns : Z;
  screenBuffer : TypedArray.t;    (* raw screen buffer *)
  dirty : bool
}.

(** [private static glyphCount = 256] *)
Definition glyphCount : Z := 256.

(** The state [resize()] leaves behind for a canvas of [columns] by
    [rows] tiles and a sprite sheet of [tiles] tiles per row: a zeroed
    tilemap, the cursor at the origin; [color], [style] and [dirty] as
    the constructor set them. *)
Definition sized (columns rows tiles : Z) : t :=
  {| w := columns; h := rows; x := 0; y := 0;
     color := 0xFFFF; style := Normal;
     tileColumns := tiles;
     screenBuffer := Uint8Array (columns * rows * 4);
     dirty := true |}.

(** [moveTo(x, y)] *)
Definition moveTo (x0 y0 : Z) (s : t) : t :=
  {| x := clamp (toInt32 x0) 0 (w s);
     y := clamp (toInt32 y0) 0 (h s);
     w := w s; h := h s; color := color s; style := style s;
     tileColumns := tileColumns s; screenBuffer := screenBuffer s;
     dirty := dirty s |}.

(** [invalidate()] *)
Definition invalidate (s : t) : t :=
  {| dirty := true;
     w := w s; h := h s; x := x s; y := y s; color := color s;
     style := style s; tileColumns := tileColumns s;
     screenBuffer := screenBuffer s |}.

(** The four stores [buffer[i++] = ...] of [writeCharCode] and
    [putChar]: tile column, tile row, low and high byte of the color. *)
Definition storeCell (buffer : TypedArray.t) (i : Z) (c : num)
    (tiles : Z) (color : option Z) : TypedArray.t :=
  let buffer := TypedArray.store buffer i (rem_int32 c tiles) in
  let buffer := TypedArray.store buffer (i + 1) (quot_int32 c tiles) in
  let buffer := TypedArray.store_num buffer (i + 2) color in
  TypedArray.store_num buffer (i + 3)
    (option_map (λ v, Z.shiftr (toInt32 v) 8) color).

(** [writeCharCode(c)] *)
Definition writeCharCode (c : Z) (s : t) : t :=
  if (w s <=? x s) || (x s <? 0) || (h s <=? y s) || (y s <? 0)
  then s
  else
    let i := (w s * y s + x s) * 4 in
    let c := c + glyphCount * FontStyle_code (style s) in
    {| dirty := true;
       screenBuffer :=
         storeCell (screenBuffer s) i (Some c) (tileColumns s)
                   (Some (color s));
       x := if x s <? w s then x s + 1 else x s;
       y := y s;
       w := w s; h := h s; color := color s; style := style s;
       tileColumns := tileColumns s |}.

(** [writeString(s)] *)
Fixpoint writeString (str : list Z) (s : t) : t :=
  match str with
  | [] => s
  | c :: str' => writeString str' (writeCharCode c s)
  end.

(** [putChar(c, x, y, color, style)]; [c], [color] and [style] come from
    typed-array reads and may be [undefined]. *)
Definition putChar (c : option Z) (x0 y0 : Z) (color0 style0 : option Z)
    (s : t) : t :=
  let x1 := clamp (toInt32 x0) 0 (w s) in
  let y1 := clamp (toInt32 y0) 0 (h s) in
  let i := (y1 * w s + x1) * 4 in
  let c1 :=
    match c, style0 with
    | Some c, Some st => Some (c + glyphCount * st)
    | _, _ => None
    end in
  {| screenBuffer := storeCell (screenBuffer s) i c1 (tileColumns s) color0;
     w := w s; h := h s; x := x s; y := y s; color := color s;
     style := style s; tileColumns := tileColumns s; dirty := dirty s |}.

(** The inner loop of [writeBuffer]:
    [for (var x = 0; x < l; x++) { p = s + sx + x; if (p > buffer.i) break; ... }]
    with [n] iterations left. *)
Fixpoint copyRow (n : nat) (x0 : Z) (b : Buffer.t) (s0 sx dx dyy : Z)
    (s : t) : t :=
  match n with
  | O => s
  | S n' =>
      let p := s0 + sx + x0 in
      if Buffer.i b <? p then s
      else
        copyRow n' (x0 + 1) b s0 sx dx dyy
          (putChar (TypedArray.get (Buffer.buffer b) p) (dx + x0) dyy
                   (TypedArray.get (Buffer.colors b) p)
                   (TypedArray.get (Buffer.styles b) p) s)
  end.

(** The outer loop [for (var y = 0; y < h; y++)], [n] iterations left.
    A row length [l] that is [NaN] runs the inner loop zero times. *)
Fixpoint copyRows (n : nat) (y0 : Z) (b : Buffer.t) (sx : num) (sy : Z)
    (w0 : num) (dx dy : Z) (s : t) : t :=
  match n with
  | O => s
  | S n' =>
      let s0 := TypedArray.get (Buffer.starts b) (sy + y0) in
      let e :=
        if sy + y0 + 1 =? Buffer.h b then Some (Buffer.i b)
        else TypedArray.get (Buffer.starts b) (sy + y0 + 1) in
      let l := Math_min (num_sub (num_sub e s0) sx) w0 in
      let s' :=
        match l, s0, sx with
        | Some l, Some s0, Some sx =>
            copyRow (Z.to_nat l) 0 b s0 sx dx (dy + y0) s
        | _, _, _ => s
        end in
      copyRows n' (y0 + 1) b sx sy w0 dx dy s'
  end.

(** [writeBuffer(buffer, sx, sy, sw, sh)].  (A caller that omits [sw] or
    [sh] gets 1024.) *)
Definition writeBuffer (b : Buffer.t) (sx sy sw sh : Z) (s : t) : t :=
  let dx := x s in
  let dy := y s in
  let sx := clamp_num (Some (toInt32 sx)) 0 (num_sub (Buffer.w b) (Some 1)) in
  let sy := clamp (toInt32 sy) 0 (Buffer.h b - 1) in
  let sw := clamp_num (Some (toInt32 sw)) 0 (num_sub (Buffer.w b) sx) in
  let sh := clamp (toInt32 sh) 0 (Buffer.h b - sy) in
  let w0 := Math_min sw (Some (w s - dx)) in
  let h0 := Z.min sh (h s - dy) in
  invalidate (copyRows (Z.to_nat h0) 0 b sx sy w0 dx dy s).

End Screen.

(** ** [class View] *)

Module View.

(** [x] and [y] are the scroll offsets; wheel deltas are fractional, so
    offsets and deltas are rationals, and [None] is [NaN]. *)
Record t := make {
  screen : Screen.t;
  buffer : Buffer.t;
  version : Z;
  x : option Q;
  y : option Q
}.

(** [a + d], which is [NaN] when either number is. *)
Definition add (a d : option Q) : option Q :=
  match a, d with
  | Some v, Some e => Some (v + e)%Q
  | _, _ => None
  end.

Definition ofNum (n : num) : option Q := option_map inject_Z n.

(** [scroll(x, y)]; a delta can be [NaN] ([onMouseWheel] passes
    [clamp(event.deltaY, -1, 1)] on, which is [NaN] for an event without
    [deltaY]). *)
Definition scroll (dx dy : option Q) (v : t) : t :=
  {| y := clampQ (add (y v) dy) 0
            (Some (inject_Z (Buffer.h (buffer v) - Screen.h (screen v))));
     x := clampQ (add (x v) dx) 0
            (ofNum (num_sub (Buffer.w (buffer v))
                            (Some (Screen.w (screen v)))));
     version := 0;
     screen := screen v; buffer := buffer v |}.

End View.

(** ** The earlier [class Buffer] of [src/terminal.ts]

    The variant without a style channel and without a column cap.  It
    counts completed rows: [h] starts at 0 and [writeLine()] stores the
    start of row [h + 1]. *)

Module Legacy.

Record t := make {
  starts : TypedArray.t;
  buffer : TypedArray.t;
  colors : TypedArray.t;
  h : Z;                          (* number of rows *)
  i : Z;                          (* buffer index *)
  color : Z;                      (* active 16 bit color *)
  previousMaxLineWidth : num;     (* maximum h width so far *)
  version : Z
}.

(** [get w()] *)
Definition w (b : t) : num :=
  Math_max (previousMaxLineWidth b)
           (num_sub (Some (i b)) (TypedArray.get (starts b) (h b))).

(** [clear()] *)
Definition clear (b : t) : t :=
  {| starts := starts b; buffer := buffer b; colors := colors b;
     color := color b;
     h := 0; i := 0; version := 0; previousMaxLineWidth := Some 0 |}.

(** [constructor()] *)
Definition new : t :=
  {| color := 0xFFFF;
     h := 0; i := 0; version := 0; previousMaxLineWidth := Some 0;
     starts := Uint32Array 32;
     buffer := Uint8Array (1024 * 1024);
     colors := Uint16Array (1024 * 1024) |}.

(** [writeCharCode(x)] *)
Definition writeCharCode (x : Z) (b : t) : t :=
  let grown := TypedArray.length (buffer b) =? i b in
  let buffer1 := if grown then TypedArray.grow (buffer b) else buffer b in
  let colors1 := if grown then TypedArray.grow (colors b) else colors b in
  {| colors := TypedArray.store colors1 (i b) (color b);
     buffer := TypedArray.store buffer1 (i b) x;
     i := i b + 1;
     version := version b + 1;
     starts := starts b; h := h b; color := color b;
     previousMaxLineWidth := previousMaxLineWidth b |}.

(** [writeLine()] *)
Definition writeLine (b : t) : t :=
  let starts1 :=
    if TypedArray.length (starts b) =? h b + 1
    then TypedArray.grow (starts b) else starts b in
  {| previousMaxLineWidth :=
       Math_max (previousMaxLineWidth b)
                (num_sub (Some (i b)) (TypedArray.get starts1 (h b)));
     starts := TypedArray.store starts1 (h b + 1) (i b);
     h := h b + 1;
     version := version b + 1;
     buffer := buffer b; colors := colors b; i := i b; color := color b |}.

(** [writeString(s)] *)
Fixpoint writeString (s : list Z) (b : t) : t :=
  match s with
  | [] => b
  | c :: s' =>
      if c =? CharacterCode_NewLine
      then writeString s' (writeLine b)
      else writeString s' (writeCharCode c b)
  end.

Inductive op :=
| WriteCharCode (x : Z)
| WriteString (s : list Z)
| WriteLine
| Clear.

Definition step (b : t) (o : op) : t :=
  match o with
  | WriteCharCode x => writeCharCode x b
  | WriteString s => writeString s b
  | WriteLine => writeLine b
  | Clear => clear b
  end.

Definition run (ops : list op) (b : t) : t := fold_left step ops b.

(** Rows [0 .. h] have recorded starts in non-decreasing order and the
    last one is not beyond the write index. *)
Definition rows_ordered (b : t) : Prop :=
  (∀ k, 0 <= k < h b →
     ∃ s e, TypedArray.get (starts b) k = Some s
          ∧ TypedArray.get (starts b) (k + 1) = Some e
          ∧ s <= e)
  ∧ ∃ s, TypedArray.get (starts b) (h b) = Some s ∧ s <= i b.

Record wf (b : t) : Prop := {
  legacy_bits : TypedArray.bits (starts b) = 32;
  legacy_h : 0 <= h b < TypedArray.length (starts b);
  legacy_i : 0 <= i b;
  legacy_first_row : TypedArray.get (starts b) 0 = Some 0;
  legacy_rows : i b < 2 ^ 32 → rows_ordered b
}.

End Legacy.

(** ** The representation invariant of [Buffer] *)

(** Rows [0 .. h - 1] have recorded starts, each no smaller than the one
    before, and the last one is not beyond the write index. *)
Definition rows_ordered (b : Buffer.t) : Prop :=
  (∀ k, 0 <= k < Buffer.h b - 1 →
     ∃ s e, TypedArray.get (Buffer.starts b) k = Some s
          ∧ TypedArray.get (Buffer.starts b) (k + 1) = Some e
          ∧ s <= e)
  ∧ ∃ s, TypedArray.get (Buffer.starts b) (Buffer.h b - 1) = Some s
       ∧ s <= Buffer.i b.

(** What every buffer built by the constructor and changed only through
    its methods satisfies.  Line starts live in a [Uint32Array], so their
    order is only promised while the write index fits in 32 bits. *)
Record Buffer_wf (b : Buffer.t) : Prop := {
  wf_bits :
    TypedArray.bits (Buffer.starts b) = 32
    ∧ TypedArray.bits (Buffer.buffer b) = 8
    ∧ TypedArray.bits (Buffer.styles b) = 8
    ∧ TypedArray.bits (Buffer.colors b) = 16;
  wf_h : 1 <= Buffer.h b <= TypedArray.length (Buffer.starts b);
  wf_i : 0 <= Buffer.i b <= TypedArray.length (Buffer.buffer b);
  wf_capacity :
    0 < TypedArray.length (Buffer.buffer b)
    ∧ TypedArray.length (Buffer.styles b) = TypedArray.length (Buffer.buffer b)
    ∧ TypedArray.length (Buffer.colors b) = TypedArray.length (Buffer.buffer b);
  wf_first_row : TypedArray.get (Buffer.starts b) 0 = Some 0;
  wf_width : ∃ m, Buffer.previousMaxLineWidth b = Some m;
  wf_rows : Buffer.i b < 2 ^ 32 → rows_ordered b
}.

(** Two buffers agree on what has been written: same write index, same
    characters below it, and the same colors and styles provided their
    active color (as a [Uint16Array] stores it) and active style agree. *)
Definition Buffer_agree (b1 b2 : Buffer.t) : Prop :=
  Buffer.i b1 = Buffer.i b2
  ∧ ∀ k, 0 <= k < Buffer.i b1 →
      TypedArray.get (Buffer.buffer b1) k = TypedArray.get (Buffer.buffer b2) k
      ∧ (Buffer.color b1 mod 2 ^ 16 = Buffer.color b2 mod 2 ^ 16 →
         TypedArray.get (Buffer.colors b1) k = TypedArray.get (Buffer.colors b2) k)
      ∧ (Buffer.style b1 = Buffer.style b2 →
         TypedArray.get (Buffer.styles b1) k = TypedArray.get (Buffer.styles b2) k).

(** Every written cell carries the buffer's active color and style. *)
Definition Buffer_uniform (b : Buffer.t) : Prop :=
  ∀ k, 0 <= k < Buffer.i b →
    TypedArray.get (Buffer.colors b) k = Some (Buffer.color b mod 2 ^ 16)
    ∧ TypedArray.get (Buffer.styles b) k
      = Some (FontStyle_code (Buffer.style b)).

(** The reading of "strictly increasing" for the recorded line starts. *)
Definition rows_strictly_increasing (b : Buffer.t) : Prop :=
  ∀ j k, 0 <= j → j < k → k < Buffer.h b →
    ∃ s e, TypedArray.get (Buffer.starts b) j = Some s
         ∧ TypedArray.get (Buffer.starts b) k = Some e
         ∧ s < e.

(** The same with "no smaller than" in place of "smaller than". *)
Definition rows_nondecreasing (b : Buffer.t) : Prop :=
  ∀ j k, 0 <= j → j <= k → k < Buffer.h b →
    ∃ s e, TypedArray.get (Buffer.starts b) j = Some s
         ∧ TypedArray.get (Buffer.starts b) k = Some e
         ∧ s <= e.

(** ** Rows of a buffer, as [Screen.writeBuffer] addresses them *)

(** The code units [Buffer.writeString] hands to [writeCharCode]: all but
    the newline codes. *)
Definition Buffer_stored (s : list Z) : list Z :=
  List.filter (λ c, negb (c =? CharacterCode_NewLine)) s.

(** End of row [k]:
    [k + 1 === buffer.h ? buffer.i : buffer.starts[k + 1]]. *)
Definition Buffer_rowEnd (b : Buffer.t) (k : Z) : option Z :=
  if k + 1 =? Buffer.h b then Some (Buffer.i b)
  else TypedArray.get (Buffer.starts b) (k + 1).

(** Width of row [k]: its end minus [buffer.starts[k]]. *)
Definition Buffer_rowWidth (b : Buffer.t) (k : Z) : num :=
  num_sub (Buffer_rowEnd b k) (TypedArray.get (Buffer.starts b) k).

(** What the running maximum [previousMaxLineWidth] and the current row
    satisfy: the maximum bounds every completed row and is the width of one
    of them (or 0), and neither exceeds the column cap, a cap below 1
    counting as 1. *)
Record Buffer_widths (b : Buffer.t) : Prop := {
  widths_rows :
    ∀ k, 0 <= k < Buffer.h b - 1 →
      ∃ wk m, Buffer_rowWidth b k = Some wk
            ∧ Buffer.previousMaxLineWidth b = Some m ∧ wk <= m;
  widths_attained :
    ∃ m, Buffer.previousMaxLineWidth b = Some m
       ∧ (m = 0 ∨ ∃ k, 0 <= k < Buffer.h b - 1
                     ∧ Buffer_rowWidth b k = Some m);
  widths_cap :
    ∃ r m, Buffer.rowLength b = Some r
         ∧ Buffer.previousMaxLineWidth b = Some m
         ∧ 0 <= r <= Z.max 1 (Buffer.columns b)
         ∧ 0 <= m <= Z.max 1 (Buffer.columns b)
}.

(** Only single-byte code units are written, and only through
    [writeString]; [newLine], [clear] and the [color] and [style] setters
    are free. *)
Definition Buffer_byte_text (o : Buffer.op) : bool :=
  match o with
  | Buffer.WriteCharCode _ => false
  | Buffer.WriteString s => forallb (λ c, (0 <=? c) && (c <? 256)) s
  | _ => true
  end.

(** ** Colors: [makeColor] and the color palette texture *)

(** [makeColor(r, g, b)] for integer arguments.  [r / 256 * 32] is exact
    in floating point (both factors are powers of two); [&] truncates it
    to an integer. *)
Definition makeColor (r g b : Z) : Z :=
  let r := clamp (toInt32 r) 0 255 in
  let g := clamp (toInt32 g) 0 255 in
  let b := clamp (toInt32 b) 0 255 in
  Z.lor
    (Z.lor (toInt32 (Z.shiftl (Z.land (Z.quot (r * 32) 256) 0x1F) 11))
           (toInt32 (Z.shiftl (Z.land (Z.quot (g * 64) 256) 0x3F) 5)))
    (toInt32 (Z.shiftl (Z.land (Z.quot (b * 32) 256) 0x1F) 0)).

(** The four bytes [initializeColorPaletteTexture] computes for the packed
    color [i]: [(r / 32) * 256], [(g / 64) * 256], [(b / 32) * 256] (exact
    products, integers) and 255. *)
Definition paletteRGBA (i : Z) : Z * Z * Z * Z :=
  let r := Z.land (Z.shiftr (toInt32 i) 11) 0x1F in
  let g := Z.land (Z.shiftr (toInt32 i) 5) 0x3F in
  let b := Z.land (Z.shiftr (toInt32 i) 0) 0x1F in
  (r * 256 / 32, g * 256 / 64, b * 256 / 32, 255).

(** One iteration of its loop: four stores [colorPalette[j++] = ...]. *)
Definition paletteEntry (i j : Z) (a : TypedArray.t) : TypedArray.t :=
  let '(r, g, b, alpha) := paletteRGBA i in
  let a := TypedArray.store a j r in
  let a := TypedArray.store a (j + 1) g in
  let a := TypedArray.store a (j + 2) b in
  TypedArray.store a (j + 3) alpha.

(** [for (var i = 0; i < 256 * 256; i++) { ... }] with [n] iterations
    left. *)
Fixpoint paletteLoop (n : nat) (i j : Z) (a : TypedArray.t) : TypedArray.t :=
  match n with
  | O => a
  | S n' => paletteLoop n' (i + 1) (j + 4) (paletteEntry i j a)
  end.

(** The array [initializeColorPaletteTexture] uploads. *)
Definition colorPalette : TypedArray.t :=
  paletteLoop (Z.to_nat (256 * 256)) 0 0 (Uint8Array (256 * 256 * 4)).

(** Byte [t] (0: red, 1: green, 2: blue, 3: alpha) of [paletteRGBA i]. *)
Definition paletteByte (i t : Z) : Z :=
  let '(r, g, b, alpha) := paletteRGBA i in
  if t =? 0 then r else if t =? 1 then g else if t =? 2 then b else alpha.

(** ** The glyph atlas and the cells of the tilemap *)

(** One [context.fillText] of [initializeSpriteSheet]: the glyph of
    character [glyphCode] in font variant [glyphVariant] (0: normal,
    1: bold, 2: italic, 3: italic bold) drawn in tile
    ([glyphTileX], [glyphTileY]) of the sprite sheet. *)
Record glyphDraw := {
  glyphVariant : Z;
  glyphCode : Z;
  glyphTileX : Z;
  glyphTileY : Z
}.

(** The inner loop [for (var i = 0; i < Screen.glyphCount; i++)] with [n]
    iterations left: [x = (j % tileColumns) | 0], [y = (j / tileColumns) | 0],
    draw, [j++]. *)
Fixpoint drawGlyphs (n : nat) (k i j tiles : Z) : list glyphDraw :=
  match n with
  | O => []
  | S n' =>
      {| glyphVariant := k; glyphCode := i;
         glyphTileX := rem_int32 (Some j) tiles;
         glyphTileY := quot_int32 (Some j) tiles |}
      :: drawGlyphs n' k (i + 1) (j + 1) tiles
  end.

(** The outer loop over the font variants, [n] of them left; the inner
    loop leaves [j] advanced by [glyphCount]. *)
Fixpoint drawVariants (n : nat) (k j tiles : Z) : list glyphDraw :=
  match n with
  | O => []
  | S n' =>
      drawGlyphs (Z.to_nat Screen.glyphCount) k 0 j tiles
      ++ drawVariants n' (k + 1) (j + Screen.glyphCount) tiles
  end.

(** The glyphs [initializeSpriteSheet] draws, in order, for a sheet of
    [tiles] tiles per row ([fontVariants] has four entries). *)
Definition spriteSheet (tiles : Z) : list glyphDraw :=
  drawVariants 4 0 0 tiles.

(** The byte index of cell ([cx], [cy]) in the tilemap:
    [(this.w * y + x) * 4]. *)
Definition Screen_cellIndex (s : Screen.t) (cx cy : Z) : Z :=
  (Screen.w s * cy + cx) * 4.

(** The four bytes of cell ([cx], [cy]). *)
Definition Screen_cell (s : Screen.t) (cx cy : Z) : list (option Z) :=
  map (λ t, TypedArray.get (Screen.screenBuffer s)
              (Screen_cellIndex s cx cy + t)) [0; 1; 2; 3].

(** A screen as [resize()] makes it: the tilemap is a byte array of four
    bytes per cell. *)
Record Screen_wf (s : Screen.t) : Prop := {
  screen_bits : TypedArray.bits (Screen.screenBuffer s) = 8;
  screen_length :
    TypedArray.length (Screen.screenBuffer s) = Screen.w s * Screen.h s * 4;
  screen_size : 0 <= Screen.w s ∧ 0 <= Screen.h s
}.

(** [view[i] = 0] through [screenBufferView], the [Uint32Array] over the
    bytes of [screenBuffer]: bytes [4 i .. 4 i + 3] become 0. *)
Definition viewStoreZero (buffer : TypedArray.t) (i : Z) : TypedArray.t :=
  let buffer := TypedArray.store buffer (4 * i) 0 in
  let buffer := TypedArray.store buffer (4 * i + 1) 0 in
  let buffer := TypedArray.store buffer (4 * i + 2) 0 in
  TypedArray.store buffer (4 * i + 3) 0.

(** [for (var i = 0; i < view.length; i++) view[i] = 0], [n] iterations
    left. *)
Fixpoint clearView (n : nat) (i : Z) (buffer : TypedArray.t) : TypedArray.t :=
  match n with
  | O => buffer
  | S n' => clearView n' (i + 1) (viewStoreZero buffer i)
  end.

(** [Screen.clear()]; [view.length] is the byte length over 4. *)
Definition Screen_clear (s : Screen.t) : Screen.t :=
  let n := Z.to_nat (TypedArray.length (Screen.screenBuffer s) / 4) in
  {| Screen.screenBuffer := clearView n 0 (Screen.screenBuffer s);
     Screen.dirty := true;
     Screen.w := Screen.w s; Screen.h := Screen.h s;
     Screen.x := Screen.x s; Screen.y := Screen.y s;
     Screen.color := Screen.color s; Screen.style := Screen.style s;
     Screen.tileColumns := Screen.tileColumns s |}.

(** Cell ([cx], [cy]) shows character [c] of font variant [v] in the
    16-bit [color]: its first two bytes are the tile in which the sprite
    sheet has that glyph, its last two the color, low byte first. *)
Definition Screen_shows (s : Screen.t) (cx cy v c color : Z) : Prop :=
  ∃ tx ty lo hi,
    Screen_cell s cx cy = [Some tx; Some ty; Some lo; Some hi]
    ∧ spriteSheet (Screen.tileColumns s) !! Z.to_nat (256 * v + c)
      = Some {| glyphVariant := v; glyphCode := c;
                glyphTileX := tx; glyphTileY := ty |}
    ∧ lo + 256 * hi = color.

(** ** The window [Screen.writeBuffer] copies *)

(** The clamped source column and row, and the width and height of the
    copy, as [writeBuffer] computes them before its loops. *)
Definition Screen_window (b : Buffer.t) (sx sy sw sh : Z) (s : Screen.t)
    : num * Z * num * Z :=
  let sx' := clamp_num (Some (toInt32 sx)) 0 (num_sub (Buffer.w b) (Some 1)) in
  let sy' := clamp (toInt32 sy) 0 (Buffer.h b - 1) in
  let sw' := clamp_num (Some (toInt32 sw)) 0 (num_sub (Buffer.w b) sx') in
  let sh' := clamp (toInt32 sh) 0 (Buffer.h b - sy') in
  (sx', sy', Math_min sw' (Some (Screen.w s - Screen.x s)),
   Z.min sh' (Screen.h s - Screen.y s)).

(** Byte [k] of the tilemap belongs to a cell of the rectangle of [wd] by
    [ht] cells whose top left cell is ([x0], [y0]). *)
Definition Screen_byteInRect (s : Screen.t) (k x0 y0 wd ht : Z) : Prop :=
  ∃ cx cy t,
    x0 <= cx < x0 + wd ∧ y0 <= cy < y0 + ht ∧ 0 <= t < 4
    ∧ k = Screen_cellIndex s cx cy + t.

(** Every written cell of the buffer holds a byte, a 16-bit color and a
    style code. *)
Definition Buffer_bounded (b : Buffer.t) : Prop :=
  ∀ k, 0 <= k < Buffer.i b →
    ∃ c col st,
      Buffer.cell b k = (Some c, Some col, Some st)
      ∧ 0 <= c < 256 ∧ 0 <= col < 65536 ∧ 0 <= st < 4.


(** What no copy into the tilemap changes: the size of the grid, the
    cursor, the current color and style, the sprite-sheet layout and the
    shape of the tilemap. *)
Definition Screen_static (s s' : Screen.t) : Prop :=
  Screen.w s' = Screen.w s ∧ Screen.h s' = Screen.h s
  ∧ Screen.x s' = Screen.x s ∧ Screen.y s' = Screen.y s
  ∧ Screen.color s' = Screen.color s ∧ Screen.style s' = Screen.style s
  ∧ Screen.tileColumns s' = Screen.tileColumns s
  ∧ (Screen_wf s → Screen_wf s').


(** One iteration of the outer loop of [writeBuffer], for source row
    [sy + y0]: [Math.min(e - s - sx, w)] cells of that row, from its column
    [sx] on, go to row [dy + y0] of the tilemap; nothing is copied when one
    of the numbers is [NaN]. *)
Definition Screen_copiedRow (b : Buffer.t) (sx : num) (sy : Z) (w0 : num)
    (dx dy y0 : Z) (s : Screen.t) : Screen.t :=
  match Buffer_rowWidth b (sy + y0),
        TypedArray.get (Buffer.starts b) (sy + y0), sx, w0 with
  | Some rw, Some s0, Some sxv, Some w0v =>
      Screen.copyRow (Z.to_nat (Z.min (rw - sxv) w0v)) 0 b s0 sxv dx
        (dy + y0) s
  | _, _, _, _ => s
  end.


(** ** Selections ([Screen.selectionBuffer]) *)

Module Selection.

(** [selectionBuffer: Int32Array] is the list of its cells, [list Z]:
    pairs of a packed position and a length.  A read out of range is
    [undefined]. *)

(** [buffer[i] = v]: the value is converted with ToInt32; a store out of
    range is ignored. *)
Definition store (buffer : list Z) (i : nat) (v : Z) : list Z :=
  <[i := toInt32 v]> buffer.

(** [new Int32Array(1024)], as [resize()] allocates it. *)
Definition new : list Z := replicate 1024%nat 0.

(** [((x + 1) << 16) | (y + 1)] *)
Definition pack (x y : Z) : Z :=
  Z.lor (toInt32 (Z.shiftl (toInt32 (x + 1)) 16)) (toInt32 (y + 1)).

(** The loop of [select], at index [i] with [n] iterations left:
    [for (...; i < buffer.length; i += 2) if (buffer[i] === 0) { ...; break; }] *)
Fixpoint selectLoop (n i : nat) (x y l : Z) (buffer : list Z) : list Z :=
  match n with
  | O => buffer
  | S n' =>
      match buffer !! i with
      | None => buffer
      | Some 0 => store (store buffer i (pack x y)) (S i) l
      | Some _ => selectLoop n' (S (S i)) x y l buffer
      end
  end.

(** [select(x, y, l)] *)
Definition select (x y l : Z) (buffer : list Z) : list Z :=
  selectLoop (length buffer) 0 x y l buffer.

(** The loop of [clearAllSelections]:
    [if (buffer[i]) buffer[i] = 0; else break;] *)
Fixpoint clearLoop (n i : nat) (buffer : list Z) : list Z :=
  match n with
  | O => buffer
  | S n' =>
      match buffer !! i with
      | None => buffer
      | Some 0 => buffer
      | Some _ => clearLoop n' (S (S i)) (store buffer i 0)
      end
  end.

(** [clearAllSelections()] *)
Definition clearAllSelections (buffer : list Z) : list Z :=
  clearLoop (length buffer) 0 buffer.

(** The arguments of one [cx.fillRect(x0, y0, dx, dy)]. *)
Record rect := {
  rectX : Z;
  rectY : Z;
  rectW : num;
  rectH : Z
}.

(** The rectangle [renderSelectionBuffer] computes from the packed
    position [v] and the length [l]. *)
Definition rectOf (tileW tileH : Z) (v : Z) (l : num) : rect :=
  let x := Z.shiftr v 16 - 1 in
  let y := Z.land v 0xFF - 1 in
  {| rectX := x * tileW;
     rectY := y * tileH;
     rectW := option_map (λ l, l * tileW) l;
     rectH := tileH |}.

(** The loop of [renderSelectionBuffer]:
    [for (...; i < buffer.length && buffer[i]; i += 2)], as the list of
    the rectangles it fills, in order. *)
Fixpoint renderLoop (n i : nat) (tileW tileH : Z) (buffer : list Z)
    : list rect :=
  match n with
  | O => []
  | S n' =>
      match buffer !! i with
      | None => []
      | Some 0 => []
      | Some v =>
          rectOf tileW tileH v (buffer !! S i)
          :: renderLoop n' (S (S i)) tileW tileH buffer
      end
  end.

(** [renderSelectionBuffer()] *)
Definition renderSelectionBuffer (tileW tileH : Z) (buffer : list Z)
    : list rect :=
  renderLoop (length buffer) 0 tileW tileH buffer.

(** The calls that change the selections. *)
Inductive op :=
  | Select (x y l : Z)
  | ClearAllSelections.

Definition step (buffer : list Z) (o : op) : list Z :=
  match o with
  | Select x y l => select x y l buffer
  | ClearAllSelections => clearAllSelections buffer
  end.

(** The selections after [resize()] and the calls [ops], in order. *)
Definition run (ops : list op) : list Z := fold_left step ops new.

End Selection.

(** The selections in use are the first [n] pairs of the array: their
    packed positions are not 0, those of all later pairs are. *)
Record Selection_prefix (buffer : list Z) (n : nat) : Prop := {
  prefix_length : length buffer = 1024%nat;
  prefix_count : (n <= 512)%nat;
  prefix_taken :
    ∀ j, (j < n)%nat → ∃ v, buffer !! (2 * j)%nat = Some v ∧ v ≠ 0;
  prefix_free :
    ∀ j, (n <= j < 512)%nat → buffer !! (2 * j)%nat = Some 0
}.


(** ** Formatting numbers ([numberWithCommas], [byteFormatter]) *)

(** The code unit of the decimal digit [d]. *)
Definition digit (d : Z) : Z := 48 + d.

(** The decimal digits of [n >= 0], most significant first, in front of
    [acc]; [fuel] bounds the number of digits. *)
Fixpoint decimal (fuel : nat) (n : Z) (acc : list Z) : list Z :=
  match fuel with
  | O => acc
  | S fuel' =>
      let acc' := digit (n mod 10) :: acc in
      if n <? 10 then acc' else decimal fuel' (n / 10) acc'
  end.

(** [x.toString()] for an integer [x] with [|x| < 2^53], where the
    result is the exact decimal numeral (a number has no more decimal
    digits than binary ones). *)
Definition Number_toString (x : Z) : list Z :=
  if x <? 0 then 45 :: decimal (S (Z.to_nat (Z.log2 (- x)))) (- x) []
  else decimal (S (Z.to_nat (Z.log2 x))) x [].

(** [\d] *)
Definition isDigit (c : Z) : bool := (48 <=? c) && (c <=? 57).

(** [\w]: a letter, a digit or the underscore. *)
Definition isWord (c : Z) : bool :=
  isDigit c || ((65 <=? c) && (c <=? 90)) || ((97 <=? c) && (c <=? 122))
  || (c =? 95).

(** [\B] between the code units [prev] and [next] ([None] at either end
    of the string): both are word characters or neither is. *)
Definition notWordBoundary (prev next : option Z) : bool :=
  Bool.eqb (from_option isWord false prev) (from_option isWord false next).

(** [(\d{3})+(?!\d)] matches at the front of [s]: three digits, and then
    either the same again or no digit. *)
Fixpoint digitGroups (s : list Z) : bool :=
  match s with
  | d1 :: d2 :: d3 :: rest =>
      isDigit d1 && isDigit d2 && isDigit d3
      && (digitGroups rest || negb (from_option isDigit false (head rest)))
  | _ => false
  end.

(** [s.replace(/\B(?=(\d{3})+(?!\d))/g, ",")]: the pattern matches the
    empty string only, so a comma goes in at each position where it
    matches; [prev] is the code unit before the position. *)
Fixpoint insertCommas (prev : option Z) (s : list Z) : list Z :=
  let rest :=
    match s with
    | [] => []
    | c :: s' => c :: insertCommas (Some c) s'
    end in
  if notWordBoundary prev (head s) && digitGroups s then 44 :: rest
  else rest.

(** [numberWithCommas(x)] for an integer [x]. *)
Definition numberWithCommas (x : Z) : list Z :=
  insertCommas None (Number_toString x).

(** [byteFormatter(x)] for an integer [x]: [Math.round(x / 1024)] is
    [x / 1024 + 1/2] rounded down, and ["KB"] is appended. *)
Definition byteFormatter (x : Z) : list Z :=
  numberWithCommas ((x + 512) / 1024) ++ [75; 66].


(** ** [View.render] and [View.scrollToBottom] *)

(** [a | 0] for a scroll offset: the fraction is dropped, and [NaN]
    becomes 0. *)
Definition toInt32Q (a : option Q) : Z :=
  match a with
  | None => 0
  | Some q => toInt32 (if Qle_bool 0 q then Qfloor q else Qceiling q)
  end.

(** ["Buffer: " + byteFormatter(this.buffer.i) + " Lines: "
     + numberWithCommas(this.buffer.h)], as code units. *)
Definition View_statusLine (b : Buffer.t) : list Z :=
  [66; 117; 102; 102; 101; 114; 58; 32] ++ byteFormatter (Buffer.i b)
  ++ [32; 76; 105; 110; 101; 115; 58; 32] ++ numberWithCommas (Buffer.h b).

(** [this.screen.color = c] *)
Definition Screen_setColor (c : Z) (s : Screen.t) : Screen.t :=
  {| Screen.color := c;
     Screen.w := Screen.w s; Screen.h := Screen.h s;
     Screen.x := Screen.x s; Screen.y := Screen.y s;
     Screen.style := Screen.style s;
     Screen.tileColumns := Screen.tileColumns s;
     Screen.screenBuffer := Screen.screenBuffer s;
     Screen.dirty := Screen.dirty s |}.

(** [render()]: the view with the screen redrawn.  [writeBuffer] is
    called with [undefined] for its width, which stands for 1024. *)
Definition View_render (v : View.t) : View.t :=
  let b := View.buffer v in
  let s := Screen_clear (View.screen v) in
  let s := Screen.moveTo 0 0 s in
  let s := Screen.writeBuffer b (toInt32Q (View.x v)) (toInt32Q (View.y v))
             1024 (Screen.h s - 2) s in
  let s := Screen_setColor (makeColor 256 256 0) s in
  let s := Screen.moveTo 0 (Screen.h s - 1) s in
  let s := Screen.writeString (View_statusLine b) s in
  {| View.screen := s; View.buffer := b; View.version := View.version v;
     View.x := View.x v; View.y := View.y v |}.

(** [scrollToBottom()] *)
Definition View_scrollToBottom (v : View.t) : View.t :=
  let b := View.buffer v in
  let s := View.screen v in
  View_render
    {| View.x := Some (inject_Z 0);
       View.y := Some (inject_Z (clamp (Buffer.h b - Screen.h s) 0
                                       (Buffer.h b - 1)));
       View.screen := s; View.buffer := b; View.version := View.version v |}.


(** ** [class Con] *)

Module Con.

Definition maxDepth : Z := 4.
Definition maxArray : Z := 8.
Definition keyColor : Z := makeColor 0 255 0.
Definition metaColor : Z := makeColor 0 255 0.
Definition textColor : Z := makeColor 255 255 255.
Definition stringColor : Z := textColor.
Definition numberColor : Z := makeColor 0 255 255.
Definition logColor : Z := makeColor 255 255 255.
Definition warnColor : Z := makeColor 255 255 0.
Definition errorColor : Z := makeColor 255 0 0.

(** [s.indexOf("\n") >= 0] *)
Definition hasNewLine (s : list Z) : bool :=
  existsb (λ c, c =? CharacterCode_NewLine) s.

(** [s.split("\n")] *)
Fixpoint split (s : list Z) : list (list Z) :=
  match s with
  | [] => [[]]
  | c :: s' =>
      if c =? CharacterCode_NewLine then [] :: split s'
      else
        match split s' with
        | seg :: segs => (c :: seg) :: segs
        | [] => [[c]]
        end
  end.

(** [t.join(sep)] *)
Fixpoint join (sep : list Z) (t : list (list Z)) : list Z :=
  match t with
  | [] => []
  | seg :: t' =>
      match t' with
      | [] => seg
      | _ :: _ => seg ++ sep ++ join sep t'
      end
  end.

(** [removeNewLineCharacter(s)] *)
Definition removeNewLineCharacter (s : list Z) : list Z :=
  if hasNewLine s then join [95] (split s) else s.

(** The values [logValue] tells apart.  A number is given by its text
    [String(x)]; an array or typed array by [Array.isArray(x)], its
    [constructor.name] and its elements; an object by its own enumerable
    keys, in the order of [Object.keys], and their values (data
    properties); [VOther] is a value whose [typeof] is none of
    ["number"], ["string"], ["object"]. *)
#[warnings="-register-all"] Inductive value :=
| VNumber (text : list Z)
| VString (s : list Z)
| VNull
| VArray (isArray : bool) (name : list Z) (items : list value)
| VObject (fields : list (list Z * value))
| VOther.

(** How a call ends: it returns, or it throws (the [TypeError] of
    [Object.keys(null)]); either way the buffer is as the call left
    it. *)
Inductive outcome :=
| Done (b : Buffer.t)
| Thrown (b : Buffer.t).

Definition andThen (r : outcome) (f : Buffer.t → outcome) : outcome :=
  match r with
  | Done b => f b
  | Thrown b => Thrown b
  end.

(** [writeGutter(prefix, color)] at group depth [g]. *)
Definition writeGutter (prefix : list Z) (color : Z) (g : Z) (b : Buffer.t)
    : Buffer.t :=
  let b := Buffer.setColor color b in
  let b := Buffer.writeString prefix b in
  Nat.iter (Z.to_nat g) (Buffer.writeString [32; 32]) b.

(** The loop over the lines of a string:
    [if (i > 0) { newLine(); writeGutter(" ", textColor); } writeString(t[i])] *)
Fixpoint logLines (g : Z) (first : bool) (t : list (list Z)) (b : Buffer.t)
    : Buffer.t :=
  match t with
  | [] => b
  | line :: t' =>
      let b :=
        if first then b
        else writeGutter [32] textColor g (Buffer.newLine b) in
      logLines g false t' (Buffer.writeString line b)
  end.

(** The loop over the first [s] elements of an array of length [len],
    from index [i] on:
    [logValue(x[i], depth + 1); if (i < x.length - 1) writeString(", ")];
    [rec] is the recursive call. *)
Fixpoint logItems (rec : value → Buffer.t → outcome) (s len i : Z)
    (xs : list value) (b : Buffer.t) : outcome :=
  match xs with
  | [] => Done b
  | x :: xs' =>
      if i <? s then
        andThen (rec x b)
          (λ b, logItems rec s len (i + 1) xs'
                  (if i <? len - 1 then Buffer.writeString [44; 32] b
                   else b))
      else Done b
  end.

(** The loop over the keys of an object with [len] keys, from key [i]
    on. *)
Fixpoint logFields (rec : value → Buffer.t → outcome) (len i : Z)
    (fields : list (list Z * value)) (b : Buffer.t) : outcome :=
  match fields with
  | [] => Done b
  | (key, x) :: fields' =>
      let b := Buffer.setColor keyColor b in
      let b := Buffer.setStyle Italic b in
      let b := Buffer.writeString (removeNewLineCharacter key) b in
      let b := Buffer.setColor textColor b in
      let b := Buffer.setStyle Normal b in
      let b := Buffer.writeString [58; 32] b in
      andThen (rec x b)
        (λ b, logFields rec len (i + 1) fields'
                (if i <? len - 1 then Buffer.writeString [44; 32] b
                 else b))
  end.

(** [logValue(x, depth)] at group depth [g]. *)
Fixpoint logValue (g : Z) (x : value) (depth : Z) (b : Buffer.t) : outcome :=
  let c := Buffer.color b in
  match x with
  | VNumber text =>
      let b := Buffer.setColor numberColor b in
      let b := Buffer.writeString text b in
      Done (Buffer.setColor c b)
  | VString s =>
      let b := Buffer.setColor stringColor b in
      let b :=
        if hasNewLine s then logLines g true (split s) b
        else Buffer.writeString s b in
      Done (Buffer.setColor c b)
  | VNull =>
      if depth <? maxDepth then
        (* "{" is written, then [Object.keys(null)] throws *)
        let b := Buffer.setColor textColor b in
        Thrown (Buffer.writeString [123] b)
      else
        let b := Buffer.setColor textColor b in
        let b := Buffer.writeString [91; 79; 98; 106; 101; 99; 116; 93] b in
        Done (Buffer.setColor c b)
  | VArray isArray name items =>
      if depth <? maxDepth then
        let len := Z.of_nat (length items) in
        let b := Buffer.setColor textColor b in
        let b := Buffer.writeString [91] b in
        andThen
          (logItems (λ x b, logValue g x (depth + 1) b)
             (Z.min len maxArray) len 0 items b)
          (λ b,
             let b :=
               if 8 <? len then Buffer.writeString [46; 46; 46] b else b in
             let b := Buffer.writeString [93] b in
             let b :=
               if (8 <? len) && (depth =? 0) then
                 Buffer.writeString
                   ([32] ++ name ++ [91] ++ Number_toString len ++ [93])
                   (Buffer.setColor metaColor b)
               else b in
             Done (Buffer.setColor c b))
      else
        let b := Buffer.setColor textColor b in
        let b :=
          Buffer.writeString
            (if isArray then [91; 65; 114; 114; 97; 121; 93]
             else [91; 79; 98; 106; 101; 99; 116; 93]) b in
        Done (Buffer.setColor c b)
  | VObject fields =>
      if depth <? maxDepth then
        let b := Buffer.setColor textColor b in
        let b := Buffer.writeString [123] b in
        andThen
          (logFields (λ x b, logValue g x (depth + 1) b)
             (Z.of_nat (length fields)) 0 fields b)
          (λ b,
             let b := Buffer.writeString [125] b in
             Done (Buffer.setColor c b))
      else
        let b := Buffer.setColor textColor b in
        let b := Buffer.writeString [91; 79; 98; 106; 101; 99; 116; 93] b in
        Done (Buffer.setColor c b)
  | VOther => Done (Buffer.setColor c b)
  end.

(** The console: its buffer and [groupDepth].  ([timers] is used by
    [time] and [timeEnd] only.) *)
Record t := make {
  buffer : Buffer.t;
  groupDepth : Z
}.

(** The loop shared by [log], [warn], [error] and [put]:
    [logValue(arguments[i], 0); if (i < arguments.length - 1) writeString(" ")] *)
Fixpoint logArguments (g : Z) (args : list value) (b : Buffer.t) : outcome :=
  match args with
  | [] => Done b
  | x :: args' =>
      andThen (logValue g x 0 b)
        (λ b, logArguments g args'
                (match args' with
                 | [] => b
                 | _ :: _ => Buffer.writeString [32] b
                 end))
  end.

(** The body [log], [warn] and [error] have in common: the gutter, the
    arguments, a line break. *)
Definition logWith (prefix : list Z) (color : Z) (args : list value)
    (con : t) : outcome :=
  let g := groupDepth con in
  andThen (logArguments g args (writeGutter prefix color g (buffer con)))
    (λ b, Done (Buffer.newLine b)).

(** [log(...)], [warn(...)], [error(...)] and [put(...)], as the buffer
    they leave; [groupDepth] is not changed. *)
Definition log (args : list value) (con : t) : outcome :=
  logWith [32] logColor args con.

Definition warn (args : list value) (con : t) : outcome :=
  logWith [126] warnColor args con.

Definition error (args : list value) (con : t) : outcome :=
  logWith [33] errorColor args con.

Definition put (args : list value) (con : t) : outcome :=
  logArguments (groupDepth con) args (buffer con).

(** [group(groupTitle)]; the default title is the empty string. *)
Definition group (groupTitle : list Z) (con : t) : t :=
  let b :=
    match groupTitle with
    | [] => buffer con
    | _ :: _ =>
        let b := writeGutter [32] textColor (groupDepth con) (buffer con) in
        let b := Buffer.writeString ([62; 32] ++ groupTitle) b in
        Buffer.newLine b
    end in
  {| buffer := b; groupDepth := groupDepth con + 1 |}.

(** [groupEnd()] *)
Definition groupEnd (con : t) : t :=
  {| buffer := buffer con;
     groupDepth :=
       if groupDepth con - 1 <? 0 then 0 else groupDepth con - 1 |}.

(** The buffer a call leaves behind, whether it returned or threw. *)
Definition state (r : outcome) : Buffer.t :=
  match r with
  | Done b => b
  | Thrown b => b
  end.

(** The calls a client can make on a console (all but [time],
    [timeEnd] and [trace], which read the clock and the stack). *)
Inductive call :=
| Log (args : list value)
| Warn (args : list value)
| Error (args : list value)
| Put (args : list value)
| Group (groupTitle : list Z)
| GroupEnd.

(** The console after a call; a call that throws leaves the console as
    it was at the throw. *)
Definition step (con : t) (c : call) : t :=
  match c with
  | Log args =>
      {| buffer := state (log args con); groupDepth := groupDepth con |}
  | Warn args =>
      {| buffer := state (warn args con); groupDepth := groupDepth con |}
  | Error args =>
      {| buffer := state (error args con); groupDepth := groupDepth con |}
  | Put args =>
      {| buffer := state (put args con); groupDepth := groupDepth con |}
  | Group groupTitle => group groupTitle con
  | GroupEnd => groupEnd con
  end.

(** [new Con(buffer)] and then the calls, in order. *)
Definition run (calls : list call) (b : Buffer.t) : t :=
  fold_left step calls {| buffer := b; groupDepth := 0 |}.

(** Does the value contain [null]? *)
Fixpoint hasNull (x : value) : bool :=
  match x with
  | VNull => true
  | VArray _ _ items => existsb hasNull items
  | VObject fields => existsb (λ kv, hasNull kv.2) fields
  | _ => false
  end.

End Con.



(** How [logValue] leaves the buffer's [color] and [style] when it was
    entered with [b]: on return the color is back and the style is as it
    was or [Normal]; a throw needs a [null] among [xs] and leaves the
    color at [textColor]. *)
Definition Con_settles (xs : list Con.value) (b : Buffer.t)
    (r : Con.outcome) : Prop :=
  match r with
  | Con.Done b' =>
      Buffer.color b' = Buffer.color b
      ∧ (Buffer.style b' = Buffer.style b ∨ Buffer.style b' = Normal)
  | Con.Thrown b' =>
      existsb Con.hasNull xs = true ∧ Buffer.color b' = Con.textColor
  end.


(** ** The older [class Screen] ([src/terminal.ts]): cursor and scrolling *)

Module LegacyScreen.

(** The fields the cursor operations read and write; [cursor] is the
    screen's [Cursor] object. *)
Record t := make {
  w : Z;
  h : Z;
  cursor_x : Z;
  cursor_y : Z;
  color : Z;
  wrap : bool;
  tileColumns : Z;
  screenBuffer : TypedArray.t;    (* four bytes per cell, row-major *)
  dirty : bool
}.

(** The state [resize()] leaves behind. *)
Definition sized (columns rows tiles : Z) : t :=
  {| w := columns; h := rows; cursor_x := 0; cursor_y := 0;
     color := 0xFFFF; wrap := false; tileColumns := tiles;
     screenBuffer := Uint8Array (columns * rows * 4);
     dirty := true |}.

(** Is [i] an index of [screenBufferView], the [Uint32Array] over the
    bytes of [buffer]? *)
Definition inView (buffer : TypedArray.t) (i : Z) : bool :=
  (0 <=? i) && (i <? TypedArray.length buffer / 4).

(** Byte [k] of [view[i]]; 0 when [view[i]] is [undefined]. *)
Definition viewByte (buffer : TypedArray.t) (i k : Z) : Z :=
  if inView buffer i then default 0 (TypedArray.get buffer (4 * i + k))
  else 0.

(** [view[dst] = view[src]] *)
Definition viewAssign (buffer : TypedArray.t) (dst src : Z) : TypedArray.t :=
  let b0 := viewByte buffer src 0 in
  let b1 := viewByte buffer src 1 in
  let b2 := viewByte buffer src 2 in
  let b3 := viewByte buffer src 3 in
  if inView buffer dst then
    let buffer := TypedArray.store buffer (4 * dst) b0 in
    let buffer := TypedArray.store buffer (4 * dst + 1) b1 in
    let buffer := TypedArray.store buffer (4 * dst + 2) b2 in
    TypedArray.store buffer (4 * dst + 3) b3
  else buffer.

(** [view[dst] = 0] *)
Definition viewZero (buffer : TypedArray.t) (dst : Z) : TypedArray.t :=
  if inView buffer dst then viewStoreZero buffer dst else buffer.

(** [for (var x = 0; x < w; x++) view[y * w + x] = 0], [k] iterations
    left. *)
Fixpoint zeroRow (k : nat) (x y w0 : Z) (buffer : TypedArray.t)
    : TypedArray.t :=
  match k with
  | O => buffer
  | S k' => zeroRow k' (x + 1) y w0 (viewZero buffer (y * w0 + x))
  end.

(** [for (var x = 0; x < w; x++) view[y * w + x] = view[(y + n) * w + x]] *)
Fixpoint shiftRow (k : nat) (x y n w0 : Z) (buffer : TypedArray.t)
    : TypedArray.t :=
  match k with
  | O => buffer
  | S k' =>
      shiftRow k' (x + 1) y n w0
        (viewAssign buffer (y * w0 + x) ((y + n) * w0 + x))
  end.

(** The loop [for (var y = 0; y < h; y++)] of [scroll(n)]. *)
Fixpoint scrollRows (k : nat) (y n w0 h0 : Z) (buffer : TypedArray.t)
    : TypedArray.t :=
  match k with
  | O => buffer
  | S k' =>
      scrollRows k' (y + 1) n w0 h0
        (if h0 - n <=? y then zeroRow (Z.to_nat w0) 0 y w0 buffer
         else shiftRow (Z.to_nat w0) 0 y n w0 buffer)
  end.

Definition setBuffer (buffer : TypedArray.t) (s : t) : t :=
  {| screenBuffer := buffer;
     w := w s; h := h s; cursor_x := cursor_x s; cursor_y := cursor_y s;
     color := color s; wrap := wrap s; tileColumns := tileColumns s;
     dirty := dirty s |}.

Definition setCursor (x y : Z) (s : t) : t :=
  {| cursor_x := x; cursor_y := y;
     w := w s; h := h s; color := color s; wrap := wrap s;
     tileColumns := tileColumns s; screenBuffer := screenBuffer s;
     dirty := dirty s |}.

(** [scroll(n)] for an integer [n]. *)
Definition scroll (n : Z) (s : t) : t :=
  setBuffer (scrollRows (Z.to_nat (h s)) 0 n (w s) (h s) (screenBuffer s)) s.

(** [move(x, y)] *)
Definition move (x y : Z) (s : t) : t := setCursor x y s.

(** [next()] *)
Definition next (s : t) : t :=
  let s := setCursor (cursor_x s + 1) (cursor_y s) s in
  let s :=
    if (w s <? cursor_x s) && wrap s then setCursor 0 (cursor_y s + 1) s
    else s in
  if h s <? cursor_y s then scroll 1 (setCursor 0 0 s) else s.

(** [nextLine()] *)
Definition nextLine (s : t) : t :=
  let s := setCursor 0 (cursor_y s + 1) s in
  if h s <=? cursor_y s then scroll 1 (setCursor 0 (cursor_y s - 1) s)
  else s.

(** [invalidate()] *)
Definition invalidate (s : t) : t :=
  {| dirty := true;
     w := w s; h := h s; cursor_x := cursor_x s; cursor_y := cursor_y s;
     color := color s; wrap := wrap s; tileColumns := tileColumns s;
     screenBuffer := screenBuffer s |}.

(** [clear()] *)
Definition clear (s : t) : t :=
  setBuffer
    (clearView (Z.to_nat (TypedArray.length (screenBuffer s) / 4)) 0
       (screenBuffer s)) s.

(** [writeCharCode(c)] *)
Definition writeCharCode (c : Z) (s : t) : t :=
  let s := invalidate s in
  if c =? CharacterCode_NewLine then nextLine s
  else if (w s <? cursor_x s) || (cursor_x s <? 0)
          || (h s <? cursor_y s) || (cursor_y s <? 0)
  then s
  else
    let i := (w s * cursor_y s + cursor_x s) * 4 in
    next
      (setBuffer
         (Screen.storeCell (screenBuffer s) i (Some c) (tileColumns s)
            (Some (color s))) s).

(** [writeText(s)] *)
Fixpoint writeText (str : list Z) (s : t) : t :=
  match str with
  | [] => s
  | c :: str' => writeText str' (writeCharCode c s)
  end.

(** [setColor(r, g, b)] for integers: the channels are clamped (without
    [| 0]) and packed as 5, 6 and 5 bits. *)
Definition setColor (r g b : Z) (s : t) : t :=
  let r := clamp r 0 255 in
  let g := clamp g 0 255 in
  let b := clamp b 0 255 in
  {| color :=
       Z.lor (Z.lor (toInt32 (Z.shiftl (Z.land (Z.quot (r * 32) 256) 0x1F) 11))
                    (toInt32 (Z.shiftl (Z.land (Z.quot (g * 64) 256) 0x3F) 5)))
             (toInt32 (Z.shiftl (Z.land (Z.quot (b * 32) 256) 0x1F) 0));
     w := w s; h := h s; cursor_x := cursor_x s; cursor_y := cursor_y s;
     wrap := wrap s; tileColumns := tileColumns s;
     screenBuffer := screenBuffer s; dirty := dirty s |}.

(** The calls a client can make, and the assignment to the public field
    [wrap]. *)
Inductive op :=
| Move (x y : Z)
| Next
| NextLine
| Clear
| Scroll (n : Z)
| SetColor (r g b : Z)
| WriteCharCode (c : Z)
| WriteText (str : list Z)
| SetWrap (on : bool).

Definition step (s : t) (o : op) : t :=
  match o with
  | Move x y => move x y s
  | Next => next s
  | NextLine => nextLine s
  | Clear => clear s
  | Scroll n => scroll n s
  | SetColor r g b => setColor r g b s
  | WriteCharCode c => writeCharCode c s
  | WriteText str => writeText str s
  | SetWrap on =>
      {| wrap := on;
         w := w s; h := h s; cursor_x := cursor_x s; cursor_y := cursor_y s;
         color := color s; tileColumns := tileColumns s;
         screenBuffer := screenBuffer s; dirty := dirty s |}
  end.

Definition run (ops : list op) (s : t) : t := fold_left step ops s.

End LegacyScreen.

(** A byte array whose cells hold bytes. *)
Definition TypedArray_bytes (a : TypedArray.t) : Prop :=
  TypedArray.bits a = 8
  ∧ ∀ k v, TypedArray.get a k = Some v → 0 <= v < 256.

(** A tilemap as [resize()] allocates it and the methods of the older
    screen leave it: four bytes per cell. *)
Record LegacyScreen_wf (s : LegacyScreen.t) : Prop := {
  legacy_screen_bytes : TypedArray_bytes (LegacyScreen.screenBuffer s);
  legacy_screen_length :
    TypedArray.length (LegacyScreen.screenBuffer s)
    = 4 * (LegacyScreen.w s * LegacyScreen.h s);
  legacy_screen_size : 0 <= LegacyScreen.w s ∧ 0 <= LegacyScreen.h s
}.

(** * Properties *)

(** ** Typed arrays: reads after stores and after reallocation *)

Section typed_array_lemmas.
Import TypedArray.

Lemma in_range_spec a k : in_range a k = true ↔ 0 <= k < length a.
Proof. unfold in_range. rewrite andb_true_iff. lia. Qed.

Lemma in_range_false a k : in_range a k = false ↔ ¬ (0 <= k < length a).
Proof. rewrite <- in_range_spec. destruct (in_range a k); intuition congruence. Qed.

Lemma get_Some_in_range a k v : get a k = Some v → 0 <= k < length a.
Proof.
  unfold get. destruct (in_range a k) eqn:E; [|discriminate].
  intros _. by apply in_range_spec.
Qed.

Lemma get_in_range a k : 0 <= k < length a → ∃ v, get a k = Some v.
Proof.
  intros H. apply in_range_spec in H. unfold get. rewrite H. eauto.
Qed.

Lemma get_out_of_range a k : ¬ (0 <= k < length a) → get a k = None.
Proof. intros H. apply in_range_false in H. unfold get. by rewrite H. Qed.

Lemma length_store a k v : length (store a k v) = length a.
Proof. unfold store. by destruct (in_range a k). Qed.

Lemma bits_store a k v : bits (store a k v) = bits a.
Proof. unfold store. by destruct (in_range a k). Qed.

Lemma get_store_eq a k v :
  0 <= k < length a → get (store a k v) k = Some (v mod 2 ^ bits a).
Proof.
  intros H. apply in_range_spec in H. unfold get, store. rewrite H.
  unfold in_range in *. simpl. rewrite H. by rewrite lookup_insert_eq.
Qed.

Lemma get_store_ne a k j v : j ≠ k → get (store a k v) j = get a j.
Proof.
  intros H. unfold get, store. destruct (in_range a k) eqn:E; [|done].
  unfold in_range. simpl. by rewrite lookup_insert_ne.
Qed.

Lemma length_grow a : length (grow a) = length a * 2.
Proof. reflexivity. Qed.

Lemma bits_grow a : bits (grow a) = bits a.
Proof. reflexivity. Qed.

Lemma cells_grow a k :
  cells (grow a) !! k = if in_range a k then cells a !! k else None.
Proof.
  unfold grow, set_all, alloc. simpl.
  rewrite map_filter_empty, (right_id_L ∅ (∪)).
  destruct (in_range a k) eqn:E.
  - destruct (cells a !! k) as [v|] eqn:Ev.
    + by apply map_lookup_filter_Some_2.
    + apply map_lookup_filter_None_2. by left.
  - apply map_lookup_filter_None_2. right. intros v _. simpl. congruence.
Qed.

(** Reallocation keeps every cell where it was. *)
Lemma get_grow a k : 0 <= k < length a → get (grow a) k = get a k.
Proof.
  intros H. unfold get. rewrite cells_grow.
  assert (in_range (grow a) k = true) as ->.
  { apply in_range_spec. rewrite length_grow. lia. }
  apply in_range_spec in H. by rewrite H.
Qed.

(** The cells added by a reallocation are zero. *)
Lemma get_grow_new a k :
  length a <= k < length a * 2 → get (grow a) k = Some 0.
Proof.
  intros H. unfold get. rewrite cells_grow.
  assert (in_range (grow a) k = true) as ->.
  { apply in_range_spec. rewrite length_grow. lia. }
  assert (in_range a k = false) as ->; [|done].
  apply in_range_false. lia.
Qed.

Lemma get_alloc width n k : 0 <= k < n → get (alloc width n) k = Some 0.
Proof.
  intros H. unfold get, alloc, in_range. simpl.
  replace ((0 <=? k) && (k <? n)) with true; [done|].
  symmetry. apply andb_true_iff. lia.
Qed.

End typed_array_lemmas.

(** ** The invariant holds in every reachable buffer state *)

Section buffer_invariant.
Import Buffer.

Lemma wf_new columns : Buffer_wf (new columns).
Proof.
  split; simpl; try (repeat split; reflexivity || lia).
  - by exists 0.
  - intros _. split; simpl.
    + intros k Hk. lia.
    + exists 0. split; [reflexivity | lia].
Qed.

Lemma wf_clear b : Buffer_wf b → Buffer_wf (clear b).
Proof.
  intros [Hb Hh Hi Hc H0 Hw Hr]. split; simpl; auto; try lia.
  - eauto.
  - intros _. split; simpl.
    + intros k Hk. lia.
    + exists 0. split; [exact H0 | lia].
Qed.

Lemma wf_setColor c b : Buffer_wf b → Buffer_wf (setColor c b).
Proof. intros [Hb Hh Hi Hc H0 Hw Hr]. split; simpl; auto. Qed.

Lemma wf_setStyle s b : Buffer_wf b → Buffer_wf (setStyle s b).
Proof. intros [Hb Hh Hi Hc H0 Hw Hr]. split; simpl; auto. Qed.

(** *** [newLine] *)

Lemma newLine_fields b :
  h (newLine b) = h b + 1 ∧ i (newLine b) = i b
  ∧ version (newLine b) = version b + 1
  ∧ buffer (newLine b) = buffer b ∧ styles (newLine b) = styles b
  ∧ colors (newLine b) = colors b ∧ columns (newLine b) = columns b
  ∧ color (newLine b) = color b ∧ style (newLine b) = style b.
Proof. repeat split. Qed.

Lemma newLine_starts_length b :
  Buffer_wf b →
  h b + 1 <= TypedArray.length (starts (newLine b))
  ∧ TypedArray.bits (starts (newLine b)) = 32.
Proof.
  intros [Hb Hh Hi Hc H0 Hw Hr]. simpl.
  rewrite length_store, bits_store.
  destruct (Z.eqb_spec (TypedArray.length (starts b)) (h b)) as [E|E].
  - rewrite length_grow, bits_grow. split; [lia | tauto].
  - split; [lia | tauto].
Qed.

Lemma newLine_starts_old b k :
  Buffer_wf b → 0 <= k < h b →
  TypedArray.get (starts (newLine b)) k = TypedArray.get (starts b) k.
Proof.
  intros [Hb Hh Hi Hc H0 Hw Hr] Hk. simpl.
  rewrite get_store_ne by lia.
  destruct (Z.eqb_spec (TypedArray.length (starts b)) (h b)) as [E|E];
    [apply get_grow; lia | done].
Qed.

Lemma newLine_starts_new b :
  Buffer_wf b →
  TypedArray.get (starts (newLine b)) (h b) = Some (i b mod 2 ^ 32).
Proof.
  intros [Hb Hh Hi Hc H0 Hw Hr]. simpl.
  destruct (Z.eqb_spec (TypedArray.length (starts b)) (h b)) as [E|E].
  - rewrite get_store_eq by (rewrite length_grow; lia).
    rewrite bits_grow. by destruct Hb as [-> _].
  - rewrite get_store_eq by lia. by destruct Hb as [-> _].
Qed.

Lemma newLine_width b :
  Buffer_wf b →
  previousMaxLineWidth (newLine b)
  = Math_max (previousMaxLineWidth b) (rowLength b).
Proof.
  intros [Hb Hh Hi Hc H0 Hw Hr]. simpl. unfold rowLength.
  destruct (Z.eqb_spec (TypedArray.length (starts b)) (h b)) as [E|E];
    [rewrite get_grow by lia|]; done.
Qed.

Lemma rowLength_wf b : Buffer_wf b → ∃ r, rowLength b = Some r.
Proof.
  intros [Hb Hh Hi Hc H0 Hw Hr]. unfold rowLength.
  destruct (get_in_range (starts b) (h b - 1)) as [s ->]; [lia|].
  simpl. eauto.
Qed.

Lemma wf_newLine b : Buffer_wf b → Buffer_wf (newLine b).
Proof.
  intros Hwf.
  destruct (newLine_starts_length b Hwf) as [Hlen Hbits].
  pose proof (newLine_starts_new b Hwf) as Hnew.
  pose proof (newLine_width b Hwf) as Hwidth.
  pose proof (λ k, newLine_starts_old b k Hwf) as Hold.
  destruct (rowLength_wf b Hwf) as [r Hr'].
  destruct (newLine_fields b)
    as (Eh & Ei & _ & Ebuf & Esty & Ecol & _ & _ & _).
  destruct Hwf as [Hb Hh Hi Hc H0 [m Hw] Hr].
  split; rewrite ?Eh, ?Ei, ?Ebuf, ?Esty, ?Ecol; auto; try lia.
  - rewrite Hold by lia. done.
  - rewrite Hwidth, Hw, Hr'. simpl. eauto.
  - intros Hlt. destruct (Hr Hlt) as [Hadj (s & Hs & Hle)].
    unfold rows_ordered. rewrite Eh, Ei.
    replace (h b + 1 - 1) with (h b) by lia.
    rewrite Z.mod_small in Hnew by lia.
    split.
    + intros k Hk. destruct (Z.eq_dec k (h b - 1)) as [->|Hne].
      * exists s, (i b). rewrite Hold by lia.
        replace (h b - 1 + 1) with (h b) by lia. done.
      * destruct (Hadj k) as (s1 & e1 & Hs1 & He1 & Hle1); [lia|].
        exists s1, e1. rewrite !Hold by lia. done.
    + exists (i b). split; [done | lia].
Qed.

(** *** [writeCharCode] *)

Lemma wf_wrapRow b : Buffer_wf b → Buffer_wf (wrapRow b).
Proof.
  intros H. unfold wrapRow.
  destruct (num_ge (rowLength b) (columns b)); auto using wf_newLine.
Qed.

(** After the capacity check there is room for one more cell. *)
Lemma wf_ensureCapacity b :
  Buffer_wf b →
  Buffer_wf (ensureCapacity b)
  ∧ i (ensureCapacity b) < TypedArray.length (buffer (ensureCapacity b)).
Proof.
  intros Hwf. unfold ensureCapacity.
  destruct (Z.eqb_spec (TypedArray.length (buffer b)) (i b)) as [E|E].
  - destruct Hwf as [Hb Hh Hi Hc H0 Hw Hr].
    split; [split|]; simpl; rewrite ?length_grow, ?bits_grow; auto; lia.
  - split; [done|]. destruct Hwf. lia.
Qed.

Lemma wf_append x b :
  Buffer_wf b → i b < TypedArray.length (buffer b) → Buffer_wf (append x b).
Proof.
  intros [Hb Hh Hi Hc H0 Hw Hr] Hlt.
  split; simpl; rewrite ?length_store, ?bits_store; auto; try lia.
  intros Hi'. destruct Hr as [Hadj (s & Hs & Hle)]; [lia|].
  split; simpl; [done|]. exists s. split; [done | lia].
Qed.

Lemma wf_writeCharCode x b : Buffer_wf b → Buffer_wf (writeCharCode x b).
Proof.
  intros H. unfold writeCharCode.
  destruct (wf_ensureCapacity (wrapRow b)); auto using wf_wrapRow, wf_append.
Qed.

Lemma wf_writeString s b : Buffer_wf b → Buffer_wf (writeString s b).
Proof.
  revert b. induction s as [|c s IH]; intros b H; simpl; [done|].
  destruct (c =? CharacterCode_NewLine);
    apply IH; auto using wf_newLine, wf_writeCharCode.
Qed.

Lemma wf_step b o : Buffer_wf b → Buffer_wf (step b o).
Proof.
  destruct o; simpl;
    auto using wf_writeCharCode, wf_writeString, wf_newLine, wf_clear,
               wf_setColor, wf_setStyle.
Qed.

Lemma wf_run ops b : Buffer_wf b → Buffer_wf (run ops b).
Proof.
  revert b. induction ops as [|o ops IH]; intros b H; simpl; [done|].
  apply IH, wf_step, H.
Qed.

(** Every state reachable from the constructor is well formed. *)
Lemma wf_reachable columns ops : Buffer_wf (run ops (new columns)).
Proof. apply wf_run, wf_new. Qed.

End buffer_invariant.

(** ** What one [writeCharCode] does to the data arrays *)

Section buffer_cells.
Import Buffer.

Lemma wrapRow_data b :
  i (wrapRow b) = i b ∧ buffer (wrapRow b) = buffer b
  ∧ styles (wrapRow b) = styles b ∧ colors (wrapRow b) = colors b
  ∧ color (wrapRow b) = color b ∧ style (wrapRow b) = style b
  ∧ columns (wrapRow b) = columns b.
Proof.
  unfold wrapRow. destruct (num_ge (rowLength b) (columns b));
    repeat split.
Qed.

Lemma ensureCapacity_fields b :
  i (ensureCapacity b) = i b ∧ h (ensureCapacity b) = h b
  ∧ starts (ensureCapacity b) = starts b
  ∧ color (ensureCapacity b) = color b ∧ style (ensureCapacity b) = style b
  ∧ columns (ensureCapacity b) = columns b
  ∧ previousMaxLineWidth (ensureCapacity b) = previousMaxLineWidth b
  ∧ version (ensureCapacity b) = version b.
Proof.
  unfold ensureCapacity.
  destruct (TypedArray.length (buffer b) =? i b); repeat split.
Qed.

(** Reallocation moves no cell. *)
Lemma ensureCapacity_cells b k :
  Buffer_wf b → 0 <= k < TypedArray.length (buffer b) →
  TypedArray.get (buffer (ensureCapacity b)) k = TypedArray.get (buffer b) k
  ∧ TypedArray.get (styles (ensureCapacity b)) k = TypedArray.get (styles b) k
  ∧ TypedArray.get (colors (ensureCapacity b)) k = TypedArray.get (colors b) k.
Proof.
  intros [Hb Hh Hi Hc H0 Hw Hr] Hk. unfold ensureCapacity.
  destruct (TypedArray.length (buffer b) =? i b); simpl; [|done].
  rewrite !get_grow by lia. done.
Qed.

Lemma writeCharCode_fields x b :
  i (writeCharCode x b) = i b + 1
  ∧ color (writeCharCode x b) = color b
  ∧ style (writeCharCode x b) = style b
  ∧ columns (writeCharCode x b) = columns b.
Proof.
  unfold writeCharCode. simpl.
  destruct (ensureCapacity_fields (wrapRow b))
    as (-> & _ & _ & -> & -> & -> & _).
  destruct (wrapRow_data b) as (-> & _ & _ & _ & -> & -> & ->).
  done.
Qed.

(** The cell at the old write index receives the character, the active
    color and the active style, each wrapped to its element width. *)
Lemma writeCharCode_new_cell x b :
  Buffer_wf b →
  TypedArray.get (buffer (writeCharCode x b)) (i b) = Some (x mod 2 ^ 8)
  ∧ TypedArray.get (colors (writeCharCode x b)) (i b)
    = Some (color b mod 2 ^ 16)
  ∧ TypedArray.get (styles (writeCharCode x b)) (i b)
    = Some (FontStyle_code (style b)).
Proof.
  intros Hwf. apply wf_wrapRow in Hwf.
  destruct (wf_ensureCapacity _ Hwf) as [[[Hs [Hb8 [Hs8 Hc16]]] _ Hi Hc _ _ _] Hlt].
  destruct (ensureCapacity_fields (wrapRow b))
    as (Ei & _ & _ & Ec & Es & _).
  destruct (wrapRow_data b) as (Ei' & _ & _ & _ & Ec' & Es' & _).
  rewrite Ei' in Ei. rewrite Ec' in Ec. rewrite Es' in Es.
  unfold writeCharCode. simpl. rewrite <- Ei, Ec, Es.
  rewrite !get_store_eq by lia. rewrite Hb8, Hs8, Hc16.
  repeat split. f_equal. apply Z.mod_small.
  destruct (style b); simpl; lia.
Qed.

(** Every cell below the old write index keeps its contents, whether or
    not the arrays were reallocated. *)
Lemma writeCharCode_old_cells x b k :
  Buffer_wf b → 0 <= k < i b →
  TypedArray.get (buffer (writeCharCode x b)) k = TypedArray.get (buffer b) k
  ∧ TypedArray.get (colors (writeCharCode x b)) k = TypedArray.get (colors b) k
  ∧ TypedArray.get (styles (writeCharCode x b)) k = TypedArray.get (styles b) k.
Proof.
  intros Hwf Hk. apply wf_wrapRow in Hwf.
  destruct (wrapRow_data b) as (Ei & Eb & Es & Ec & _).
  rewrite <- Ei in Hk. rewrite <- Eb, <- Es, <- Ec.
  assert (0 <= k < TypedArray.length (buffer (wrapRow b))) as Hk'
    by (destruct Hwf; lia).
  destruct (ensureCapacity_cells _ k Hwf Hk') as (<- & <- & <-).
  unfold writeCharCode. simpl.
  destruct (ensureCapacity_fields (wrapRow b)) as (Ei' & _).
  rewrite !get_store_ne by lia. done.
Qed.

(** Written cells are readable. *)
Lemma written_cells_readable b k :
  Buffer_wf b → 0 <= k < i b →
  (∃ c, TypedArray.get (buffer b) k = Some c)
  ∧ (∃ c, TypedArray.get (colors b) k = Some c)
  ∧ (∃ c, TypedArray.get (styles b) k = Some c).
Proof.
  intros [Hb Hh Hi Hc H0 Hw Hr] Hk.
  repeat split; apply get_in_range; lia.
Qed.

End buffer_cells.

(** ** Appending never disturbs written cells *)

Section buffer_append_only.
Import Buffer.

Lemma writeCharCode_keeps_cell x b k :
  Buffer_wf b → 0 <= k < i b → cell (writeCharCode x b) k = cell b k.
Proof.
  intros Hwf Hk. unfold cell.
  destruct (writeCharCode_old_cells x b k Hwf Hk) as (-> & -> & ->). done.
Qed.

Lemma newLine_keeps_cell b k : cell (newLine b) k = cell b k.
Proof. reflexivity. Qed.

Lemma writeString_keeps_cell s b k :
  Buffer_wf b → 0 <= k < i b →
  cell (writeString s b) k = cell b k ∧ i b <= i (writeString s b).
Proof.
  revert b. induction s as [|c s IH]; intros b Hwf Hk; simpl.
  - split; [done | lia].
  - destruct (c =? CharacterCode_NewLine).
    + destruct (IH (newLine b)) as [-> Hle]; auto using wf_newLine.
    + destruct (writeCharCode_fields c b) as (Ei & _).
      destruct (IH (writeCharCode c b)) as [-> Hle];
        auto using wf_writeCharCode; [lia|].
      split; [by apply writeCharCode_keeps_cell | lia].
Qed.

Lemma step_keeps_cell b o k :
  Buffer_wf b → appends o = true → 0 <= k < i b →
  cell (step b o) k = cell b k ∧ i b <= i (step b o).
Proof.
  intros Hwf Ho Hk. destruct o; unfold step; try discriminate.
  - destruct (writeCharCode_fields x b) as (-> & _).
    split; [by apply writeCharCode_keeps_cell | lia].
  - by apply writeString_keeps_cell.
  - split; [done | simpl; lia].
  - split; [done | simpl; lia].
  - split; [done | simpl; lia].
Qed.

Lemma run_keeps_cell ops b k :
  Buffer_wf b → forallb appends ops = true → 0 <= k < i b →
  cell (run ops b) k = cell b k ∧ i b <= i (run ops b).
Proof.
  revert b. induction ops as [|o ops IH]; intros b Hwf Hops Hk; simpl in *.
  - split; [done | lia].
  - apply andb_true_iff in Hops as [Ho Hops].
    destruct (step_keeps_cell b o k Hwf Ho Hk) as [E Hle].
    destruct (IH (step b o)) as [-> Hle']; auto using wf_step; [lia|].
    split; [done | lia].
Qed.

(** The write that finds the arrays full doubles them and still keeps
    every written cell. *)
Lemma writeCharCode_at_capacity x b :
  Buffer_wf b →
  i b = TypedArray.length (buffer b) →
  TypedArray.length (buffer (writeCharCode x b))
    = TypedArray.length (buffer b) * 2
  ∧ ∀ k, 0 <= k < i b → cell (writeCharCode x b) k = cell b k.
Proof.
  intros Hwf Hfull. split.
  - destruct (wrapRow_data b) as (Ei & Eb & _).
    unfold writeCharCode, ensureCapacity. rewrite Eb, Ei.
    rewrite <- Hfull, Z.eqb_refl. simpl.
    by rewrite length_store, length_grow, Hfull.
  - intros k Hk. by apply writeCharCode_keeps_cell.
Qed.

(** A write that finds room leaves the capacity alone. *)
Lemma writeCharCode_capacity x b :
  i b < TypedArray.length (buffer b) →
  TypedArray.length (buffer (writeCharCode x b))
  = TypedArray.length (buffer b).
Proof.
  intros Hlt. destruct (wrapRow_data b) as (Ei & Eb & _).
  unfold writeCharCode, ensureCapacity. rewrite Eb, Ei.
  assert ((TypedArray.length (buffer b) =? i b) = false) as -> by lia.
  simpl. by rewrite length_store, Eb.
Qed.

Lemma writeString_capacity s b :
  i b + chars (WriteString s) <= TypedArray.length (buffer b) →
  TypedArray.length (buffer (writeString s b)) = TypedArray.length (buffer b)
  ∧ i (writeString s b) = i b + chars (WriteString s).
Proof.
  revert b. induction s as [|c s IH]; intros b Hle.
  - simpl. split; [done | lia].
  - cbn [writeString chars List.filter] in *.
    destruct (c =? CharacterCode_NewLine); cbn [negb] in *.
    + apply (IH (newLine b)). exact Hle.
    + cbn [List.length] in Hle. rewrite Nat2Z.inj_succ in Hle.
      destruct (writeCharCode_fields c b) as (Ei & _).
      pose proof (writeCharCode_capacity c b) as Ecap.
      destruct (IH (writeCharCode c b)) as [-> ->];
        [cbn [chars]; rewrite Ei, Ecap; lia|].
      cbn [chars List.length]. rewrite Ei, Ecap, Nat2Z.inj_succ by lia.
      split; lia.
Qed.

Lemma chars_repeat c n :
  (c =? CharacterCode_NewLine) = false →
  chars (WriteString (repeat c n)) = Z.of_nat n.
Proof.
  intros Hc. cbn [chars]. f_equal.
  induction n as [|n IH]; [done|].
  cbn [repeat List.filter]. rewrite Hc. cbn [negb List.length]. by rewrite IH.
Qed.

(** The reallocation is reached: a new buffer filled with 1024 * 1024
    characters ([n] of them, [n] being that number) is at capacity, and
    the next write doubles the arrays without touching a written cell. *)
Lemma reallocation_is_reached (n : nat) (x : Z) :
  Z.of_nat n = 1024 * 1024 →
  let b := writeString (repeat 65 n) new_default in
  i b = TypedArray.length (buffer b)
  ∧ TypedArray.length (buffer (writeCharCode x b))
    = TypedArray.length (buffer b) * 2
  ∧ ∀ k, 0 <= k < i b → cell (writeCharCode x b) k = cell b k.
Proof.
  intros Hn b.
  assert (chars (WriteString (repeat 65 n)) = 1024 * 1024) as Hchars.
  { rewrite chars_repeat; [exact Hn | reflexivity]. }
  assert (i b = TypedArray.length (buffer b)) as Hfull.
  { destruct (writeString_capacity (repeat 65 n) new_default) as [El Ei].
    - rewrite Hchars. cbn. lia.
    - unfold b. rewrite El, Ei, Hchars. reflexivity. }
  split; [exact Hfull|].
  apply writeCharCode_at_capacity; [|exact Hfull].
  apply wf_writeString, wf_new.
Qed.

End buffer_append_only.

(** ** The same writes on two buffers that agree *)

Section buffer_agreement.
Import Buffer.

Lemma writeString_fields s b :
  color (writeString s b) = color b ∧ style (writeString s b) = style b
  ∧ columns (writeString s b) = columns b.
Proof.
  revert b. induction s as [|c s IH]; intros b; simpl; [done|].
  destruct (c =? CharacterCode_NewLine).
  - destruct (IH (newLine b)) as (-> & -> & ->). done.
  - destruct (IH (writeCharCode c b)) as (-> & -> & ->).
    destruct (writeCharCode_fields c b) as (_ & -> & -> & ->). done.
Qed.

(** A write sequence leaves the active color and style alone. *)
Lemma run_writes_fields ops b :
  forallb writes ops = true →
  color (run ops b) = color b ∧ style (run ops b) = style b
  ∧ columns (run ops b) = columns b.
Proof.
  revert b. induction ops as [|o ops IH]; intros b Hops; simpl in *; [done|].
  apply andb_true_iff in Hops as [Ho Hops].
  destruct (IH (step b o) Hops) as (-> & -> & ->).
  destruct o; try discriminate; unfold step.
  - destruct (writeCharCode_fields x b) as (_ & -> & -> & ->). done.
  - apply writeString_fields.
  - done.
Qed.

Lemma agree_writeCharCode x b1 b2 :
  Buffer_wf b1 → Buffer_wf b2 → Buffer_agree b1 b2 →
  Buffer_agree (writeCharCode x b1) (writeCharCode x b2).
Proof.
  intros Hwf1 Hwf2 [Ei Hcells]. unfold Buffer_agree.
  destruct (writeCharCode_fields x b1) as (-> & -> & -> & _).
  destruct (writeCharCode_fields x b2) as (-> & -> & -> & _).
  split; [lia|]. intros k Hk.
  destruct (Z.eq_dec k (i b1)) as [->|Hne].
  - destruct (writeCharCode_new_cell x b1 Hwf1) as (-> & -> & ->).
    rewrite Ei.
    destruct (writeCharCode_new_cell x b2 Hwf2) as (-> & -> & ->).
    repeat split; congruence.
  - destruct (writeCharCode_old_cells x b1 k Hwf1) as (-> & -> & ->); [lia|].
    destruct (writeCharCode_old_cells x b2 k Hwf2) as (-> & -> & ->); [lia|].
    apply Hcells. lia.
Qed.

Lemma agree_newLine b1 b2 :
  Buffer_agree b1 b2 → Buffer_agree (newLine b1) (newLine b2).
Proof. intros H. exact H. Qed.

Lemma agree_writeString s b1 b2 :
  Buffer_wf b1 → Buffer_wf b2 → Buffer_agree b1 b2 →
  Buffer_agree (writeString s b1) (writeString s b2).
Proof.
  revert b1 b2. induction s as [|c s IH]; intros b1 b2 H1 H2 H; simpl; [done|].
  destruct (c =? CharacterCode_NewLine); apply IH;
    auto using wf_newLine, wf_writeCharCode, agree_newLine,
               agree_writeCharCode.
Qed.

Lemma agree_run ops b1 b2 :
  forallb writes ops = true →
  Buffer_wf b1 → Buffer_wf b2 → Buffer_agree b1 b2 →
  Buffer_agree (run ops b1) (run ops b2).
Proof.
  revert b1 b2.
  induction ops as [|o ops IH]; intros b1 b2 Hops H1 H2 H; simpl in *; [done|].
  apply andb_true_iff in Hops as [Ho Hops].
  apply IH; auto using wf_step.
  destruct o; try discriminate; unfold step;
    auto using agree_writeCharCode, agree_writeString, agree_newLine.
Qed.

(** A cleared buffer and a new one agree: nothing is written in either. *)
Lemma agree_clear_new b columns : Buffer_agree (clear b) (new columns).
Proof. split; simpl; [done|]. intros k Hk. lia. Qed.

End buffer_agreement.

(** ** Rows: the current row, forced line breaks, the version counter *)

Section buffer_rows.
Import Buffer.

(** While the row is below the column cap, a character joins it. *)
Lemma writeCharCode_same_row x b r :
  rowLength b = Some r → r < columns b →
  h (writeCharCode x b) = h b
  ∧ starts (writeCharCode x b) = starts b
  ∧ previousMaxLineWidth (writeCharCode x b) = previousMaxLineWidth b
  ∧ i (writeCharCode x b) = i b + 1
  ∧ columns (writeCharCode x b) = columns b
  ∧ rowLength (writeCharCode x b) = Some (r + 1).
Proof.
  intros Hr Hlt. unfold writeCharCode, wrapRow. rewrite Hr. simpl num_ge.
  assert ((columns b <=? r) = false) as -> by lia.
  destruct (ensureCapacity_fields b) as (Ei & Eh & Es & _ & _ & Ec & Ew & _).
  unfold rowLength in *. simpl. rewrite Eh, Es, Ew, Ei, Ec.
  repeat split.
  destruct (TypedArray.get (starts b) (h b - 1)); simpl in *; [|done].
  f_equal. injection Hr. lia.
Qed.

Lemma writeString_same_row s b r :
  forallb (λ c, negb (c =? CharacterCode_NewLine)) s = true →
  rowLength b = Some r → r + Z.of_nat (List.length s) <= columns b →
  h (writeString s b) = h b
  ∧ starts (writeString s b) = starts b
  ∧ previousMaxLineWidth (writeString s b) = previousMaxLineWidth b
  ∧ i (writeString s b) = i b + Z.of_nat (List.length s)
  ∧ columns (writeString s b) = columns b
  ∧ rowLength (writeString s b) = Some (r + Z.of_nat (List.length s)).
Proof.
  revert b r. induction s as [|c s IH]; intros b r Hs Hr Hle.
  - simpl. rewrite Hr.
    repeat split; (reflexivity || lia || (f_equal; lia)).
  - simpl in Hs. apply andb_true_iff in Hs as [Hc Hs].
    cbn [writeString]. apply negb_true_iff in Hc. rewrite Hc.
    rewrite length_cons, Nat2Z.inj_succ in *.
    destruct (writeCharCode_same_row c b r Hr)
      as (Eh & Es & Ew & Ei & Ec & Er); [lia|].
    destruct (IH (writeCharCode c b) (r + 1) Hs Er)
      as (-> & -> & -> & -> & -> & ->); [rewrite Ec; lia|].
    rewrite Eh, Es, Ew, Ei, Ec.
    repeat split; (reflexivity || lia || (f_equal; lia)).
Qed.

Lemma chars_plain o :
  plain o = true →
  chars o = match o with
            | WriteString s => Z.of_nat (List.length s)
            | _ => 1
            end.
Proof.
  destruct o; simpl; try done. intros Hs. do 2 f_equal.
  induction s as [|c s IH]; simpl in *; [done|].
  apply andb_true_iff in Hs as [-> Hs]. simpl. by rewrite IH.
Qed.

Lemma total_chars_nonneg ops : 0 <= total_chars ops.
Proof.
  induction ops as [|o ops IH]; simpl; [lia|].
  assert (0 <= chars o) by (destruct o; simpl; lia). lia.
Qed.

Lemma run_plain_same_row ops b r :
  forallb plain ops = true →
  rowLength b = Some r → r + total_chars ops <= columns b →
  h (run ops b) = h b
  ∧ previousMaxLineWidth (run ops b) = previousMaxLineWidth b
  ∧ i (run ops b) = i b + total_chars ops
  ∧ rowLength (run ops b) = Some (r + total_chars ops).
Proof.
  revert b r. induction ops as [|o ops IH]; intros b r Hops Hr Hle.
  - simpl. rewrite Hr.
    repeat split; (reflexivity || lia || (f_equal; lia)).
  - simpl in Hops. apply andb_true_iff in Hops as [Ho Hops].
    pose proof (total_chars_nonneg ops) as Hnn.
    cbn [run fold_left total_chars fold_right] in *.
    fold (run ops (step b o)). fold (total_chars ops) in *.
    pose proof (chars_plain o Ho) as Hch.
    assert (h (step b o) = h b
            ∧ previousMaxLineWidth (step b o) = previousMaxLineWidth b
            ∧ i (step b o) = i b + chars o
            ∧ columns (step b o) = columns b
            ∧ rowLength (step b o) = Some (r + chars o))
      as (Eh & Ew & Ei & Ec & Er).
    { destruct o; try discriminate; unfold step; rewrite Hch in *.
      - destruct (writeCharCode_same_row x b r Hr) as (? & ? & ? & ? & ? & ?);
          [lia | done].
      - destruct (writeString_same_row s b r Ho Hr) as (? & ? & ? & ? & ? & ?);
          [lia | done]. }
    destruct (IH (step b o) (r + chars o) Hops Er) as (-> & -> & -> & ->);
      [rewrite Ec; lia|].
    rewrite Eh, Ew, Ei.
    repeat split; (reflexivity || lia || (f_equal; lia)).
Qed.

(** A forced line break: the row has reached the cap. *)
Lemma wrapRow_full b :
  num_ge (rowLength b) (columns b) = true → wrapRow b = newLine b.
Proof. intros H. unfold wrapRow. by rewrite H. Qed.

Lemma version_wrapRow b :
  version b <= version (wrapRow b) <= version b + 1.
Proof.
  unfold wrapRow. destruct (num_ge (rowLength b) (columns b)); simpl; lia.
Qed.

Lemma version_writeCharCode x b :
  version (writeCharCode x b) = version (wrapRow b) + 1.
Proof.
  unfold writeCharCode. simpl.
  destruct (ensureCapacity_fields (wrapRow b)) as (_ & _ & _ & _ & _ & _ & _ & ->).
  done.
Qed.

Lemma version_writeString s b : version b <= version (writeString s b).
Proof.
  revert b. induction s as [|c s IH]; intros b; simpl; [lia|].
  destruct (c =? CharacterCode_NewLine).
  - specialize (IH (newLine b)). simpl in IH. lia.
  - specialize (IH (writeCharCode c b)).
    rewrite version_writeCharCode in IH.
    pose proof (version_wrapRow b). lia.
Qed.

(** Adjacent order gives order between any two recorded rows. *)
Lemma rows_ordered_nondecreasing b : rows_ordered b → rows_nondecreasing b.
Proof.
  intros [Hadj (sl & Hsl & Hlast)] j k Hj Hjk Hk.
  assert (∃ s, TypedArray.get (starts b) j = Some s) as [s Hs].
  { destruct (Z.eq_dec j (h b - 1)) as [->|Hne]; [eauto|].
    destruct (Hadj j) as (s & _ & Hs & _); [lia | eauto]. }
  replace k with (j + Z.of_nat (Z.to_nat (k - j))) in * by lia.
  induction (Z.to_nat (k - j)) as [|n IH].
  - exists s, s. rewrite Z.add_0_r. repeat split; [done.. | lia].
  - rewrite Nat2Z.inj_succ in *.
    destruct IH as (s' & e & Hs' & He & Hle); [lia..|].
    destruct (Hadj (j + Z.of_nat n)) as (e1 & e2 & He1 & He2 & Hle2); [lia|].
    exists s', e2. split; [done|]. split.
    + rewrite <- He2. f_equal. lia.
    + assert (e1 = e) by congruence. lia.
Qed.

End buffer_rows.

(** ** Cells written after [clear()] carry the active color and style *)

Section buffer_uniform.
Import Buffer.

Lemma uniform_clear b : Buffer_uniform (clear b).
Proof. intros k Hk. simpl in Hk. lia. Qed.

Lemma uniform_writeCharCode x b :
  Buffer_wf b → Buffer_uniform b → Buffer_uniform (writeCharCode x b).
Proof.
  intros Hwf Hu k. unfold Buffer_uniform in Hu.
  destruct (writeCharCode_fields x b) as (-> & -> & -> & _). intros Hk.
  destruct (Z.eq_dec k (i b)) as [->|Hne].
  - destruct (writeCharCode_new_cell x b Hwf) as (_ & -> & ->). done.
  - destruct (writeCharCode_old_cells x b k Hwf) as (_ & -> & ->); [lia|].
    apply Hu. lia.
Qed.

Lemma uniform_writeString s b :
  Buffer_wf b → Buffer_uniform b → Buffer_uniform (writeString s b).
Proof.
  revert b. induction s as [|c s IH]; intros b Hwf Hu; simpl; [done|].
  destruct (c =? CharacterCode_NewLine); apply IH;
    auto using wf_newLine, wf_writeCharCode, uniform_writeCharCode.
Qed.

Lemma uniform_run ops b :
  forallb writes ops = true →
  Buffer_wf b → Buffer_uniform b → Buffer_uniform (run ops b).
Proof.
  revert b. induction ops as [|o ops IH]; intros b Hops Hwf Hu; simpl in *;
    [done|].
  apply andb_true_iff in Hops as [Ho Hops].
  apply IH; auto using wf_step.
  destruct o; try discriminate; unfold step;
    auto using uniform_writeCharCode, uniform_writeString.
Qed.

End buffer_uniform.

(** ** The buffer: properties of the specification *)

(** Closed arithmetic facts about a concrete run: evaluate, then read off
    each comparison. *)
Ltac by_evaluation :=
  vm_compute; repeat split; first [reflexivity | discriminate].

Section buffer_claims.
Import Buffer.

(** C1 as stated fails.  After ["ABC"], a line break and ["D"], one
    character has been written since the last [newLine()], yet [w] is 3:
    [w] is the width of the longest row, not of the current one. *)
Lemma w_counts_characters_counterexample :
  let b := run [WriteString [65; 66; 67]; NewLine] new_default in
  let ops := [WriteString [68]] in
  forallb plain ops = true
  ∧ total_chars ops = 1
  ∧ w (run ops b) = Some 3
  ∧ w (run ops b) ≠ Some (total_chars ops).
Proof. vm_compute. repeat split; discriminate. Qed.

(** C1 (amended).  In every reachable buffer state, a sequence of
    [writeCharCode]/[writeString] calls without newline codes that keeps
    the current row within the column cap leaves
    [w = max(previousMaxLineWidth, rowLength + n)], where [rowLength] is
    the length of the current row before the calls and [n] the number of
    characters written.  Right after [clear()] (or on a new buffer) this
    is [n], the number of characters written since the [clear()]. *)
Theorem w_after_plain_writes (columns : Z) (pre ops : list op) :
  let b := run pre (new columns) in
  forallb plain ops = true →
  (∀ r m,
     rowLength b = Some r → previousMaxLineWidth b = Some m →
     r + total_chars ops <= Buffer.columns b →
     w (run ops b) = Some (Z.max m (r + total_chars ops)))
  ∧ (total_chars ops <= Buffer.columns b →
     w (run ops (clear b)) = Some (total_chars ops)).
Proof.
  intros b Hplain. split.
  - intros r m Hr Hm Hle.
    destruct (run_plain_same_row ops b r Hplain Hr Hle) as (_ & Ew & _ & Er).
    unfold w. by rewrite Ew, Er, Hm.
  - intros Hle.
    assert (rowLength (clear b) = Some 0) as Hr.
    { pose proof (wf_first_row b (wf_reachable columns pre)) as H0.
      unfold rowLength. simpl. change (1 - 1) with 0. by rewrite H0. }
    destruct (run_plain_same_row ops (clear b) 0 Hplain Hr) as (_ & Ew & _ & Er);
      [simpl; lia|].
    unfold w. rewrite Ew, Er. simpl. f_equal.
    pose proof (total_chars_nonneg ops). lia.
Qed.

Lemma w_after_plain_writes_witness :
  w (run [WriteString [68; 69]]
         (run [WriteString [65; 66; 67]; NewLine] new_default))
  = Some 3
  ∧ w (run [WriteCharCode 70; WriteString [71; 72]]
           (clear (run [WriteString [65; 66; 67]; NewLine] new_default)))
    = Some 3.
Proof.
  pose proof (w_after_plain_writes (1024 * 1024)
                [WriteString [65; 66; 67]; NewLine]
                [WriteString [68; 69]] eq_refl) as [H1 _].
  pose proof (w_after_plain_writes (1024 * 1024)
                [WriteString [65; 66; 67]; NewLine]
                [WriteCharCode 70; WriteString [71; 72]] eq_refl) as [_ H2].
  split.
  - apply (H1 0 3); vm_compute; reflexivity || discriminate.
  - apply H2. vm_compute. discriminate.
Defined.

(** C6 as stated fails.  A [newLine()] on an empty row records the same
    start twice: after one [newLine()] on a new buffer rows 0 and 1 both
    start at 0, so the starts are not strictly increasing. *)
Lemma lineStarts_strict_counterexample :
  let b := run [NewLine] new_default in
  h b = 2
  ∧ TypedArray.get (starts b) 0 = Some 0
  ∧ TypedArray.get (starts b) 1 = Some 0
  ∧ ¬ rows_strictly_increasing b.
Proof.
  repeat split; try (vm_compute; reflexivity).
  intros H. destruct (H 0 1) as (s & e & Hs & He & Hlt);
    [lia | lia | vm_compute; reflexivity |].
  vm_compute in Hs, He. assert (s = e) by congruence. lia.
Qed.

(** C6 (amended).  In every buffer state reachable from the constructor
    by [writeCharCode], [writeString], [newLine] and [clear] calls (and
    assignments to [color] and [style]) whose write index fits the 32-bit
    entries of [starts], the recorded line starts [starts[0 .. h-1]] are
    non-decreasing - equal where a row is empty - and
    [i >= starts[h - 1]]. *)
Theorem lineStarts_nondecreasing (columns : Z) (ops : list op) :
  let b := run ops (new columns) in
  i b < 2 ^ 32 →
  rows_nondecreasing b
  ∧ ∃ s, TypedArray.get (starts b) (h b - 1) = Some s ∧ s <= i b.
Proof.
  intros b Hi.
  pose proof (wf_rows b (wf_reachable columns ops) Hi) as Hrows.
  split; [by apply rows_ordered_nondecreasing | apply Hrows].
Qed.

Lemma lineStarts_nondecreasing_witness :
  let b := run [WriteString [65; 66; 10; 10; 67]; NewLine] (new 2) in
  i b < 2 ^ 32
  ∧ rows_nondecreasing b
  ∧ ∃ s, TypedArray.get (starts b) (h b - 1) = Some s ∧ s <= i b.
Proof.
  split; [vm_compute; reflexivity|].
  apply (lineStarts_nondecreasing 2
           [WriteString [65; 66; 10; 10; 67]; NewLine]).
  vm_compute. reflexivity.
Defined.

(** C5.  When [writeCharCode(c)] is called in a reachable state whose
    current row has reached the column cap
    ([i - starts[h - 1] >= columns]), a line break comes first and [c]
    is then appended: the row count grows by one, [c] is stored at the
    old write index (as a [Uint8Array] holds it: [c] itself for a code
    point in 0 .. 255) and the write index advances by one, so nothing is
    dropped and the call always returns.  The new row is recorded as
    starting at that index - [c] is its first and only character -
    exactly so while the index fits the 32-bit entries of [starts]. *)
Theorem writeCharCode_wraps_at_cap (columns : Z) (pre : list op) (x : Z) :
  let b := run pre (new columns) in
  num_ge (rowLength b) (Buffer.columns b) = true →
  let b' := writeCharCode x b in
  h b' = h b + 1
  ∧ TypedArray.get (buffer b') (i b) = Some (x mod 2 ^ 8)
  ∧ (0 <= x < 256 → TypedArray.get (buffer b') (i b) = Some x)
  ∧ i b' = i b + 1
  ∧ TypedArray.get (starts b') (h b' - 1) = Some (i b mod 2 ^ 32)
  ∧ (i b < 2 ^ 32 →
     TypedArray.get (starts b') (h b' - 1) = Some (i b)
     ∧ rowLength b' = Some 1).
Proof.
  intros b Hfull b'.
  pose proof (wf_reachable columns pre : Buffer_wf b) as Hwf.
  assert (h b' = h b + 1 ∧ starts b' = starts (newLine b)) as [Eh Es].
  { unfold b', writeCharCode. rewrite (wrapRow_full b Hfull).
    destruct (ensureCapacity_fields (newLine b)) as (_ & Eh & Es & _).
    simpl. by rewrite Eh, Es. }
  destruct (writeCharCode_fields x b) as (Ei & _). fold b' in Ei.
  destruct (writeCharCode_new_cell x b Hwf) as (Ec & _). fold b' in Ec.
  assert (TypedArray.get (starts b') (h b' - 1) = Some (i b mod 2 ^ 32))
    as Hstart.
  { rewrite Eh, Es. replace (h b + 1 - 1) with (h b) by lia.
    apply (newLine_starts_new b Hwf). }
  split; [done|]. split; [done|]. split.
  { intros Hx. rewrite Ec. f_equal. apply Z.mod_small. lia. }
  split; [done|]. split; [done|].
  intros Hi. rewrite Z.mod_small in Hstart by (destruct Hwf; lia).
  split; [done|].
  unfold rowLength. rewrite Hstart, Ei. simpl. f_equal. lia.
Qed.

Lemma writeCharCode_wraps_at_cap_witness :
  let b := run [WriteString [65; 66]] (new 2) in
  let b' := writeCharCode 67 b in
  num_ge (rowLength b) (Buffer.columns b) = true
  ∧ h b' = 2
  ∧ TypedArray.get (buffer b') 2 = Some 67
  ∧ TypedArray.get (starts b') 1 = Some 2
  ∧ rowLength b' = Some 1.
Proof.
  intros b b'. split; [vm_compute; reflexivity|].
  destruct (writeCharCode_wraps_at_cap 2 [WriteString [65; 66]] 67)
    as (H1 & _ & H2 & _ & _ & H3); [vm_compute; reflexivity|].
  destruct H3 as [H3 H4]; [by_evaluation|].
  exact (conj H1 (conj (H2 ltac:(lia)) (conj H3 H4))).
Defined.

(** C7.  Writes never move or alter what is already written: for every
    reachable state and every further sequence of appending calls - in
    particular one that fills the arrays and forces them to be
    reallocated at twice the size, once or many times - each cell below
    the earlier write index still holds the same character, color and
    style at the same index, and all three are readable.
    [writeCharCode_at_capacity] is the step that reallocates and
    [reallocation_is_reached] a run that takes it. *)
Theorem written_cells_survive_growth
    (columns : Z) (pre ops : list op) (k : Z) :
  let b := run pre (new columns) in
  forallb appends ops = true →
  0 <= k < i b →
  cell (run ops b) k = cell b k
  ∧ ∃ c color style, cell b k = (Some c, Some color, Some style).
Proof.
  intros b Hops Hk.
  pose proof (wf_reachable columns pre : Buffer_wf b) as Hwf.
  split; [by apply run_keeps_cell|].
  destruct (written_cells_readable b k Hwf Hk)
    as ((c & Hc) & (col & Hcol) & (st & Hst)).
  exists c, col, st. unfold cell. by rewrite Hc, Hcol, Hst.
Qed.

Lemma written_cells_survive_growth_witness :
  let b := run [SetColor 2016; WriteString [65; 66]] new_default in
  cell (run [SetStyle Bold; WriteString [67; 10; 68]; NewLine] b) 1
  = (Some 66, Some 2016, Some 0).
Proof.
  destruct (written_cells_survive_growth (1024 * 1024)
              [SetColor 2016; WriteString [65; 66]]
              [SetStyle Bold; WriteString [67; 10; 68]; NewLine] 1)
    as [H _]; [reflexivity | by_evaluation |].
  exact H.
Defined.

(** C8 as stated fails for [clear()]: it sets the counter back to 0, so
    after one write and a [clear()] the version has gone from 1 to 0. *)
Lemma version_clear_counterexample :
  let b := writeCharCode 65 new_default in
  version b = 1 ∧ version (clear b) = 0
  ∧ ¬ version b < version (clear b).
Proof. vm_compute. repeat split; discriminate. Qed.

(** C8 (amended).  [writeCharCode] leaves the version counter strictly
    greater than before (by one, or by two when it forces a line break)
    and so does [newLine] (by one); [writeString] never lowers it.
    [clear()] resets it to 0: the counter increases monotonically only
    between two [clear()] calls. *)
Theorem version_after_mutation (b : t) (x : Z) (s : list Z) :
  version b < version (writeCharCode x b) <= version b + 2
  ∧ version (newLine b) = version b + 1
  ∧ version b <= version (writeString s b)
  ∧ version (clear b) = 0.
Proof.
  rewrite version_writeCharCode. pose proof (version_wrapRow b).
  pose proof (version_writeString s b). simpl. lia.
Qed.

(** C4 as stated fails for colors.  A buffer whose active color was set
    to 0 before the [clear()] records 0 for the next character, where a
    new buffer records the constructor's 0xFFFF. *)
Lemma clear_reuse_counterexample :
  let used := clear (run [SetColor 0; WriteCharCode 65] new_default) in
  let S := [WriteCharCode 66] in
  forallb writes S = true
  ∧ i (run S used) = 1
  ∧ TypedArray.get (colors (run S used)) 0 = Some 0
  ∧ TypedArray.get (colors (run S new_default)) 0 = Some 65535.
Proof. vm_compute. repeat split. Qed.

(** C4 (amended).  For every reachable buffer, every write sequence [S]
    ([writeCharCode], [writeString], [newLine]) and every new buffer:
    [clear()] followed by [S] gives the same write index and the same
    [buffer] contents below it as [S] on the new buffer, whatever the
    capacities.  The [colors] contents below it are the same when the
    used buffer's active color is 0xFFFF as a 16-bit value, and the
    [styles] contents when its active style is [Normal]: [clear()] does
    not reset either. *)
Theorem clear_then_writes_agree_with_new
    (columns columns' : Z) (pre S : list op) :
  let old := run pre (new columns) in
  let used := run S (clear old) in
  let fresh := run S (new columns') in
  forallb writes S = true →
  i used = i fresh
  ∧ (∀ k, 0 <= k < i used →
       TypedArray.get (buffer used) k = TypedArray.get (buffer fresh) k)
  ∧ (color old mod 2 ^ 16 = 0xFFFF →
     ∀ k, 0 <= k < i used →
       TypedArray.get (colors used) k = TypedArray.get (colors fresh) k)
  ∧ (style old = Normal →
     ∀ k, 0 <= k < i used →
       TypedArray.get (styles used) k = TypedArray.get (styles fresh) k).
Proof.
  intros old used fresh HS.
  assert (Buffer_agree used fresh) as [Ei Hcells].
  { pose proof (wf_reachable columns pre : Buffer_wf old).
    apply agree_run; auto using wf_clear, wf_new, agree_clear_new. }
  destruct (run_writes_fields S (clear old) HS) as (Ec & Es & _).
  destruct (run_writes_fields S (new columns') HS) as (Ec' & Es' & _).
  fold used in Ec, Es. fold fresh in Ec', Es'. simpl in Ec, Es, Ec', Es'.
  split; [done|]. split; [|split].
  - intros k Hk. by apply Hcells.
  - intros Hc k Hk. apply Hcells; [done|]. by rewrite Ec, Ec', Hc.
  - intros Hs k Hk. apply Hcells; [done|]. by rewrite Es, Es', Hs.
Qed.

Lemma clear_then_writes_agree_with_new_witness :
  let used :=
    run [WriteString [67; 10; 68]]
        (clear (run [SetStyle Bold; WriteString [65; 66]] (new 80))) in
  let fresh := run [WriteString [67; 10; 68]] new_default in
  i used = i fresh
  ∧ TypedArray.get (buffer used) 1 = TypedArray.get (buffer fresh) 1
  ∧ TypedArray.get (colors used) 1 = TypedArray.get (colors fresh) 1.
Proof.
  destruct (clear_then_writes_agree_with_new 80 (1024 * 1024)
              [SetStyle Bold; WriteString [65; 66]]
              [WriteString [67; 10; 68]] eq_refl)
    as (H1 & H2 & H3 & _).
  split; [exact H1|]. split.
  - apply H2. by_evaluation.
  - apply H3; [reflexivity | by_evaluation].
Defined.

(** A buffer on which no color or style was ever assigned still has the
    constructor's, so the agreement above then covers all three arrays. *)
Lemma color_style_without_assignment columns ops :
  forallb (λ o, match o with SetColor _ | SetStyle _ => false | _ => true end)
          ops = true →
  color (run ops (new columns)) = 0xFFFF
  ∧ style (run ops (new columns)) = Normal.
Proof.
  assert (∀ b, forallb (λ o, match o with
                           | SetColor _ | SetStyle _ => false
                           | _ => true
                           end) ops = true →
               color (run ops b) = color b ∧ style (run ops b) = style b)
    as H; [|intros Hops; by destruct (H (new columns) Hops) as [-> ->]].
  induction ops as [|o ops IH]; intros b Hops; simpl in *; [done|].
  apply andb_true_iff in Hops as [Ho Hops].
  destruct (IH (step b o) Hops) as [-> ->].
  destruct o; try discriminate; unfold step; try done.
  - by destruct (writeCharCode_fields x b) as (_ & -> & -> & _).
  - by destruct (writeString_fields s b) as (-> & -> & _).
Qed.

(** C10.  [clear()] resets neither the active color nor the active
    style: both fields are what they were before the call, and every
    cell written after the [clear()] records them - the color as a 16-bit
    value - not the constructor's 0xFFFF and [Normal]. *)
Theorem clear_keeps_color_and_style (columns : Z) (pre S : list op) :
  let b := run pre (new columns) in
  color (clear b) = color b
  ∧ style (clear b) = style b
  ∧ (forallb writes S = true →
     ∀ k, 0 <= k < i (run S (clear b)) →
       TypedArray.get (colors (run S (clear b))) k
       = Some (color b mod 2 ^ 16)
       ∧ TypedArray.get (styles (run S (clear b))) k
         = Some (FontStyle_code (style b))).
Proof.
  intros b. split; [done|]. split; [done|]. intros HS k Hk.
  pose proof (wf_reachable columns pre : Buffer_wf b) as Hwf.
  destruct (run_writes_fields S (clear b) HS) as (Ec & Es & _).
  simpl in Ec, Es. rewrite <- Ec, <- Es.
  apply (uniform_run S (clear b)); auto using wf_clear, uniform_clear.
Qed.

Lemma clear_keeps_color_and_style_witness :
  let b := run [SetColor 2016; SetStyle Italic; WriteString [65; 66]]
               new_default in
  let b' := run [WriteString [67; 68]] (clear b) in
  color (clear b) = 2016 ∧ style (clear b) = Italic
  ∧ TypedArray.get (colors b') 1 = Some 2016
  ∧ TypedArray.get (styles b') 1 = Some 2.
Proof.
  destruct (clear_keeps_color_and_style (1024 * 1024)
              [SetColor 2016; SetStyle Italic; WriteString [65; 66]]
              [WriteString [67; 68]])
    as (H1 & H2 & H3).
  destruct (H3 eq_refl 1) as [H4 H5]; [by_evaluation|].
  exact (conj H1 (conj H2 (conj H4 H5))).
Defined.

End buffer_claims.

(** ** The screen: cursor and tilemap *)

Section screen_lemmas.
Import Screen.

Lemma clamp_range value lo hi : lo <= hi → lo <= clamp value lo hi <= hi.
Proof. unfold clamp. lia. Qed.

Lemma clamp_above value lo hi : lo <= hi → hi <= value → clamp value lo hi = hi.
Proof. unfold clamp. lia. Qed.

Lemma clamp_nonpositive value hi : value <= 0 → clamp value 0 hi = 0.
Proof. unfold clamp. lia. Qed.

Lemma toInt32_small z : - 2 ^ 31 <= z < 2 ^ 31 → toInt32 z = z.
Proof. intros H. unfold toInt32. rewrite Z.mod_small; lia. Qed.

Lemma length_storeCell buffer i c tiles color :
  TypedArray.length (storeCell buffer i c tiles color)
  = TypedArray.length buffer.
Proof.
  unfold storeCell, TypedArray.store_num. by rewrite !length_store.
Qed.

(** A write with the cursor off the grid returns at the guard. *)
Lemma writeCharCode_outside c s :
  ¬ (0 <= x s < w s ∧ 0 <= y s < h s) → writeCharCode c s = s.
Proof.
  intros H. unfold writeCharCode.
  assert ((w s <=? x s) || (x s <? 0) || (h s <=? y s) || (y s <? 0) = true)
    as ->; [|done].
  rewrite !orb_true_iff. lia.
Qed.

Lemma writeString_outside str s :
  ¬ (0 <= x s < w s ∧ 0 <= y s < h s) → writeString str s = s.
Proof.
  intros H. induction str as [|c str IH]; simpl; [done|].
  by rewrite writeCharCode_outside.
Qed.

(** The grid is never resized by a write, and the cursor moves at most
    one column to the right, never past [w]. *)
Lemma writeCharCode_frame c s :
  w (writeCharCode c s) = w s ∧ h (writeCharCode c s) = h s
  ∧ TypedArray.length (screenBuffer (writeCharCode c s))
    = TypedArray.length (screenBuffer s)
  ∧ y (writeCharCode c s) = y s
  ∧ x s <= x (writeCharCode c s) <= Z.max (x s) (w s).
Proof.
  unfold writeCharCode.
  destruct ((w s <=? x s) || (x s <? 0) || (h s <=? y s) || (y s <? 0)) eqn:E.
  - repeat split; lia.
  - simpl. rewrite length_storeCell.
    rewrite !orb_false_iff in E.
    destruct (Z.ltb_spec (x s) (w s)); repeat split; lia.
Qed.

Lemma writeString_frame str s :
  w (writeString str s) = w s ∧ h (writeString str s) = h s
  ∧ TypedArray.length (screenBuffer (writeString str s))
    = TypedArray.length (screenBuffer s)
  ∧ y (writeString str s) = y s
  ∧ x s <= x (writeString str s) <= Z.max (x s) (w s).
Proof.
  revert s. induction str as [|c str IH]; intros s; simpl.
  - repeat split; lia.
  - destruct (IH (writeCharCode c s)) as (-> & -> & -> & -> & Hx).
    destruct (writeCharCode_frame c s) as (Ew & -> & -> & -> & Hx').
    rewrite Ew in Hx. repeat split; lia.
Qed.

(** The copy loops when there is no width to copy. *)
Lemma copyRows_no_width n y0 b sx sy w0 dx dy s :
  (∀ v, w0 = Some v → v <= 0) → copyRows n y0 b sx sy w0 dx dy s = s.
Proof.
  intros Hw. revert y0 s. induction n as [|n IH]; intros y0 s; simpl; [done|].
  rewrite IH.
  destruct (Math_min _ w0) as [l|] eqn:El; [|done].
  assert (l <= 0) as Hl.
  { unfold Math_min in El.
    destruct (num_sub _ sx) as [a|]; [|done].
    destruct w0 as [v|]; [|done].
    injection El as <-. specialize (Hw v eq_refl). lia. }
  destruct (TypedArray.get (Buffer.starts b) (sy + y0)); [|done].
  destruct sx; [|done].
  replace (Z.to_nat l) with 0%nat by lia. done.
Qed.

Lemma writeBuffer_screenBuffer b sx sy sw sh s :
  screenBuffer (writeBuffer b sx sy sw sh s)
  = screenBuffer
      (let sx' := clamp_num (Some (toInt32 sx)) 0
                    (num_sub (Buffer.w b) (Some 1)) in
       let sy' := clamp (toInt32 sy) 0 (Buffer.h b - 1) in
       copyRows
         (Z.to_nat (Z.min (clamp (toInt32 sh) 0 (Buffer.h b - sy'))
                          (h s - y s)))
         0 b sx' sy'
         (Math_min (clamp_num (Some (toInt32 sw)) 0
                      (num_sub (Buffer.w b) sx'))
                   (Some (w s - x s)))
         (x s) (y s) s).
Proof. reflexivity. Qed.

(** The model on the example of the specification: ["AB\nCD"] gives two
    rows of width 2, and copying it to a 4 by 4 screen puts [A], [B] in
    cells (0,0), (1,0) and [C], [D] in cells (0,1), (1,1) with the color
    0xFFFF; the cell (2,0) stays blank. *)
Example writeBuffer_AB_CD :
  let b := Buffer.run [Buffer.WriteString [65; 66; 10; 67; 68]]
                      Buffer.new_default in
  let s := writeBuffer b 0 0 4 2 (sized 4 4 256) in
  Buffer.h b = 2 ∧ Buffer.w b = Some 2
  ∧ map (TypedArray.get (screenBuffer s)) [0; 1; 2; 3] 
    = [Some 65; Some 0; Some 255; Some 255]
  ∧ map (TypedArray.get (screenBuffer s)) [4; 16; 20; 8]
    = [Some 66; Some 67; Some 68; Some 0].
Proof. vm_compute. done. Qed.

End screen_lemmas.

(** ** The screen: properties of the specification *)

Section screen_claims.
Import Screen.


(** C2 as stated fails.  The buffer holds the single row ["AB"]
    ([h = 1]); a copy whose source starts at row 5 is not empty: the
    source row is clamped to row 0 and ["A"] lands in the first cell of
    the tilemap. *)
Lemma writeBuffer_outside_counterexample :
  let b := Buffer.run [Buffer.WriteString [65; 66]] Buffer.new_default in
  let s := sized 4 4 256 in
  Buffer.h b <= 5
  ∧ TypedArray.get (screenBuffer s) 0 = Some 0
  ∧ TypedArray.get (screenBuffer (writeBuffer b 0 5 1024 1024 s)) 0
    = Some 65
  ∧ screenBuffer (writeBuffer b 0 5 1024 1024 s) ≠ screenBuffer s.
Proof.
  intros b s. split; [by_evaluation|].
  split; [vm_compute; reflexivity|]. split; [vm_compute; reflexivity|].
  intros E. apply (f_equal (λ a, TypedArray.get a 0)) in E.
  vm_compute in E. discriminate.
Qed.

(** C2 (amended).  [writeBuffer] clamps the source origin into the
    buffer instead of rejecting it: for every reachable buffer, a call
    with [sy | 0 >= buffer.h] is the call with [sy = buffer.h - 1], which
    copies from the last row.  The tilemap array is left unchanged when
    the clamped copy is empty: the requested width or height is not
    positive, the buffer is empty ([buffer.w = 0]), or the cursor leaves
    no room ([x >= w] or [y >= h]). *)
Theorem writeBuffer_empty_copy
    (columns : Z) (pre : list Buffer.op) (s : t) (sx sy sw sh : Z) :
  let b := Buffer.run pre (Buffer.new columns) in
  (toInt32 sw <= 0 ∨ toInt32 sh <= 0 ∨ Buffer.w b = Some 0
   ∨ w s <= x s ∨ h s <= y s →
   screenBuffer (writeBuffer b sx sy sw sh s) = screenBuffer s)
  ∧ (Buffer.h b <= toInt32 sy → Buffer.h b <= 2 ^ 31 →
     writeBuffer b sx sy sw sh s
     = writeBuffer b sx (Buffer.h b - 1) sw sh s).
Proof.
  intros b. split.
  - intros Hcase. rewrite writeBuffer_screenBuffer. cbv zeta.
    assert (toInt32 sh <= 0 ∨ h s <= y s
            ∨ (toInt32 sw <= 0 ∨ Buffer.w b = Some 0 ∨ w s <= x s))
      as [Hh | [Hh | Hw]] by tauto.
    + rewrite clamp_nonpositive by done.
      replace (Z.to_nat _) with 0%nat by lia. done.
    + replace (Z.to_nat _) with 0%nat by lia. done.
    + rewrite copyRows_no_width; [done|].
      intros v Hv. unfold clamp_num, Math_max, Math_min, num_sub in Hv.
      destruct Hw as [Hw | [Hw | Hw]].
      * destruct (Buffer.w b) as [bw|]; [|done]. injection Hv as <-. lia.
      * rewrite Hw in Hv. injection Hv as <-. lia.
      * destruct (Buffer.w b) as [bw|]; [|done]. injection Hv as <-. lia.
  - intros Hsy Hh.
    pose proof (wf_h b (wf_reachable columns pre)) as [Hh1 _].
    unfold writeBuffer.
    rewrite (toInt32_small (Buffer.h b - 1)) by lia.
    rewrite (clamp_above (toInt32 sy)) by lia.
    rewrite (clamp_above (Buffer.h b - 1)) by lia. done.
Qed.

Lemma writeBuffer_empty_copy_witness :
  let b := Buffer.run [Buffer.WriteString [65; 66; 10; 67]]
                      Buffer.new_default in
  let s := sized 4 4 256 in
  screenBuffer (writeBuffer b 0 0 0 3 s) = screenBuffer s
  ∧ writeBuffer b 0 7 4 3 s = writeBuffer b 0 (Buffer.h b - 1) 4 3 s.
Proof.
  intros b s. split.
  - apply (writeBuffer_empty_copy (1024 * 1024)
             [Buffer.WriteString [65; 66; 10; 67]] s 0 0 0 3).
    left. by_evaluation.
  - apply (writeBuffer_empty_copy (1024 * 1024)
             [Buffer.WriteString [65; 66; 10; 67]] s 0 7 4 3);
      by_evaluation.
Defined.







End screen_claims.

(** ** The view: scrolling *)

Section view_claims.
Import View.

(** [clamp] never leaves [min .. max(min, max)], whatever the value. *)
Lemma clampQ_range value lo hi q :
  clampQ value lo (Some hi) = Some q → (lo <= q <= Qmax lo hi)%Q.
Proof.
  unfold clampQ. destruct value as [v|]; [|done].
  intros [= <-]. split.
  - apply Q.le_max_l.
  - apply Q.max_le_compat_l, Q.le_min_l.
Qed.







End view_claims.

(** ** The earlier buffer: line starts *)

Section legacy_rows.
Import Legacy.

Lemma legacy_wf_new : wf new.
Proof.
  split; simpl; try (reflexivity || lia).
  intros _. split; simpl.
  - intros k Hk. lia.
  - exists 0. split; [reflexivity | lia].
Qed.

Lemma legacy_wf_clear b : wf b → wf (clear b).
Proof.
  intros [Hb Hh Hi H0 Hr]. split; simpl; auto; try lia.
  intros _. split; simpl.
  - intros k Hk. lia.
  - exists 0. split; [exact H0 | lia].
Qed.

Lemma legacy_wf_writeCharCode x b : wf b → wf (writeCharCode x b).
Proof.
  intros [Hb Hh Hi H0 Hr]. split; simpl; auto; try lia.
  intros Hi'. destruct Hr as [Hadj (s & Hs & Hle)]; [lia|].
  split; simpl; [done|]. exists s. split; [done | lia].
Qed.

Lemma legacy_wf_writeLine b : wf b → wf (writeLine b).
Proof.
  intros [Hb Hh Hi H0 Hr].
  assert (∀ k, 0 <= k <= h b →
            TypedArray.get (starts (writeLine b)) k
            = TypedArray.get (starts b) k) as Hold.
  { intros k Hk. simpl. rewrite get_store_ne by lia.
    destruct (TypedArray.length (starts b) =? h b + 1);
      [apply get_grow; lia | done]. }
  assert (TypedArray.get (starts (writeLine b)) (h b + 1)
          = Some (i b mod 2 ^ 32)
          ∧ h b + 1 < TypedArray.length (starts (writeLine b))
          ∧ TypedArray.bits (starts (writeLine b)) = 32)
    as (Hnew & Hlen & Hbits).
  { simpl. rewrite length_store, bits_store.
    destruct (Z.eqb_spec (TypedArray.length (starts b)) (h b + 1)) as [E|E].
    - rewrite get_store_eq by (rewrite length_grow; lia).
      rewrite length_grow, bits_grow, Hb. repeat split; lia.
    - rewrite get_store_eq by lia. rewrite Hb. repeat split; lia. }
  split; try done.
  - simpl in *. lia.
  - rewrite Hold by lia. done.
  - intros Hlt. change (i (writeLine b)) with (i b) in *.
    destruct (Hr Hlt) as [Hadj (s & Hs & Hle)].
    rewrite Z.mod_small in Hnew by lia.
    unfold rows_ordered. change (h (writeLine b)) with (h b + 1).
    change (i (writeLine b)) with (i b). split.
    + intros k Hk. destruct (Z.eq_dec k (h b)) as [->|Hne].
      * exists s, (i b). rewrite Hold by lia. done.
      * destruct (Hadj k) as (s1 & e1 & Hs1 & He1 & Hle1); [lia|].
        exists s1, e1. rewrite !Hold by lia. done.
    + exists (i b). split; [done | lia].
Qed.

Lemma legacy_wf_writeString s b : wf b → wf (writeString s b).
Proof.
  revert b. induction s as [|c s IH]; intros b H; simpl; [done|].
  destruct (c =? CharacterCode_NewLine);
    apply IH; auto using legacy_wf_writeLine, legacy_wf_writeCharCode.
Qed.

Lemma legacy_wf_run ops b : wf b → wf (run ops b).
Proof.
  revert b. induction ops as [|o ops IH]; intros b H; simpl; [done|].
  apply IH. destruct o; simpl;
    auto using legacy_wf_writeCharCode, legacy_wf_writeString,
               legacy_wf_writeLine, legacy_wf_clear.
Qed.

(** The earlier buffer keeps the same order: non-decreasing starts, the
    last one not beyond the write index. *)
Lemma legacy_lineStarts_ordered ops :
  i (run ops new) < 2 ^ 32 → rows_ordered (run ops new).
Proof. apply legacy_rows, legacy_wf_run, legacy_wf_new. Qed.

(** And there too an empty row repeats a start. *)
Lemma legacy_lineStarts_repeat :
  TypedArray.get (starts (run [WriteLine] new)) 0 = Some 0
  ∧ TypedArray.get (starts (run [WriteLine] new)) 1 = Some 0.
Proof. vm_compute. done. Qed.

End legacy_rows.

(** ** The buffer: what [writeString] stores *)

Section buffer_contents.
Import Buffer.

Lemma writeString_index s b :
  i (writeString s b) = i b + Z.of_nat (List.length (Buffer_stored s)).
Proof.
  revert b. induction s as [|c s IH]; intros b; simpl; [lia|].
  unfold Buffer_stored in *. cbn [List.filter].
  destruct (c =? CharacterCode_NewLine); cbn [negb].
  - rewrite IH. simpl. lia.
  - rewrite IH. destruct (writeCharCode_fields c b) as (-> & _).
    cbn [List.length]. lia.
Qed.

Lemma writeString_cells s b k c :
  Buffer_wf b → Buffer_stored s !! k = Some c →
  cell (writeString s b) (i b + Z.of_nat k)
  = (Some (c mod 2 ^ 8), Some (color b mod 2 ^ 16),
     Some (FontStyle_code (style b))).
Proof.
  revert b k. induction s as [|d s IH]; intros b k Hwf Hk; [done|].
  unfold Buffer_stored in Hk. cbn [List.filter writeString] in *.
  destruct (d =? CharacterCode_NewLine); cbn [negb] in Hk.
  - apply (IH (newLine b) k); [by apply wf_newLine | done].
  - pose proof (wf_writeCharCode d b Hwf) as Hwf'.
    destruct (writeCharCode_fields d b) as (Ei & Ec & Es & _).
    destruct k as [|k].
    + injection Hk as <-. rewrite Z.add_0_r.
      destruct (writeString_keeps_cell s (writeCharCode d b) (i b) Hwf')
        as [-> _]; [destruct Hwf; lia|].
      unfold cell.
      by destruct (writeCharCode_new_cell d b Hwf) as (-> & -> & ->).
    + cbn in Hk. specialize (IH (writeCharCode d b) k Hwf' Hk).
      rewrite Ei, Ec, Es in IH. rewrite <- IH. f_equal. lia.
Qed.

(** X1.  [writeString(s)] on a reachable buffer stores exactly the code
    units of [s] that are not newline codes, in order and from the old
    write index on: each as its low byte, with the active color (as 16
    bits) and the active style; the write index advances by their
    number. *)
Theorem writeString_stores_text
    (columns : Z) (pre : list op) (s : list Z) (k : nat) (c : Z) :
  let b := run pre (new columns) in
  Buffer_stored s !! k = Some c →
  i (writeString s b) = i b + Z.of_nat (List.length (Buffer_stored s))
  ∧ cell (writeString s b) (i b + Z.of_nat k)
    = (Some (c mod 2 ^ 8), Some (color b mod 2 ^ 16),
       Some (FontStyle_code (style b))).
Proof.
  intros b Hk. split; [apply writeString_index|].
  apply writeString_cells; [apply wf_reachable | done].
Qed.

Lemma writeString_stores_text_witness :
  let b := run [SetColor 2016; WriteString [65]] new_default in
  i (writeString [66; 10; 67] b) = 3
  ∧ cell (writeString [66; 10; 67] b) 2 = (Some 67, Some 2016, Some 0).
Proof.
  exact (writeString_stores_text (1024 * 1024) [SetColor 2016; WriteString [65]]
           [66; 10; 67] 1 67 eq_refl).
Defined.

End buffer_contents.

(** ** The buffer: a newline is never stored as text *)

Section buffer_no_newline.
Import Buffer.

Lemma stored_lookup s k c :
  Buffer_stored s !! k = Some c →
  In c s ∧ c ≠ CharacterCode_NewLine.
Proof.
  intros Hk. apply list_elem_of_lookup_2, list_elem_of_In in Hk.
  unfold Buffer_stored in Hk. apply List.filter_In in Hk as [Hin Hc].
  split; [done|]. apply negb_true_iff in Hc. lia.
Qed.

Lemma writeString_no_newline s b :
  Buffer_wf b →
  forallb (λ c, (0 <=? c) && (c <? 256)) s = true →
  (∀ k, 0 <= k < i b →
     TypedArray.get (buffer b) k ≠ Some CharacterCode_NewLine) →
  ∀ k, 0 <= k < i (writeString s b) →
    TypedArray.get (buffer (writeString s b)) k ≠ Some CharacterCode_NewLine.
Proof.
  intros Hwf Hs Hold k Hk.
  destruct (Z.lt_ge_cases k (i b)) as [Hlt|Hge].
  - destruct (writeString_keeps_cell s b k Hwf) as [E _]; [lia|].
    unfold cell in E. injection E as -> _ _. apply Hold. lia.
  - rewrite writeString_index in Hk.
    destruct (lookup_lt_is_Some_2 (Buffer_stored s) (Z.to_nat (k - i b)))
      as [c Hc]; [lia|].
    pose proof (writeString_cells s b _ c Hwf Hc) as E.
    replace (i b + Z.of_nat (Z.to_nat (k - i b))) with k in E by lia.
    unfold cell in E. injection E as -> _ _.
    destruct (stored_lookup s _ c Hc) as [Hin Hne].
    rewrite forallb_forall in Hs. specialize (Hs c Hin).
    apply andb_true_iff in Hs. rewrite Z.mod_small by lia. congruence.
Qed.

(** X2.  A buffer that is only written through [writeString] with
    single-byte code units (between any [newLine], [clear] and [color] or
    [style] assignments) never holds the newline code as a character:
    newlines only advance the row table. *)
Theorem newline_never_stored (columns : Z) (ops : list op) (k : Z) :
  let b := run ops (new columns) in
  forallb Buffer_byte_text ops = true →
  0 <= k < i b →
  TypedArray.get (buffer b) k ≠ Some CharacterCode_NewLine.
Proof.
  intros b Hops. subst b. revert k.
  assert (∀ b0, Buffer_wf b0 →
            (∀ k, 0 <= k < i b0 →
               TypedArray.get (buffer b0) k ≠ Some CharacterCode_NewLine) →
            ∀ k, 0 <= k < i (run ops b0) →
              TypedArray.get (buffer (run ops b0)) k
              ≠ Some CharacterCode_NewLine) as H.
  { induction ops as [|o ops IH]; intros b0 Hwf H0; [done|].
    simpl in Hops. apply andb_true_iff in Hops as [Ho Hops].
    cbn [run fold_left]. apply (IH Hops); [by apply wf_step|].
    destruct o; try discriminate; unfold step; try done.
    - by apply writeString_no_newline.
    - intros k Hk. simpl in Hk. lia. }
  apply H; [apply wf_new|]. intros k Hk. simpl in Hk. lia.
Qed.

Lemma newline_never_stored_witness :
  TypedArray.get
    (buffer (run [WriteString [65; 10; 66]; NewLine; WriteString [10; 67]]
                 new_default)) 1
  ≠ Some CharacterCode_NewLine.
Proof.
  apply (newline_never_stored (1024 * 1024)
           [WriteString [65; 10; 66]; NewLine; WriteString [10; 67]] 1);
    by_evaluation.
Defined.

End buffer_no_newline.

(** ** The buffer: row widths and the running maximum *)

Section buffer_widths.
Import Buffer.

Lemma rowWidth_last b : Buffer_rowWidth b (h b - 1) = rowLength b.
Proof.
  unfold Buffer_rowWidth, Buffer_rowEnd, rowLength.
  replace (h b - 1 + 1) with (h b) by lia. by rewrite Z.eqb_refl.
Qed.

Lemma rowWidth_completed b k :
  k + 1 ≠ h b →
  Buffer_rowWidth b k
  = num_sub (TypedArray.get (starts b) (k + 1)) (TypedArray.get (starts b) k).
Proof.
  intros Hk. unfold Buffer_rowWidth, Buffer_rowEnd.
  by assert ((k + 1 =? h b) = false) as -> by lia.
Qed.

Lemma widths_new columns : Buffer_widths (new columns).
Proof.
  split; simpl.
  - intros k Hk. lia.
  - exists 0. split; [done | by left].
  - exists 0, 0. repeat split; (reflexivity || lia).
Qed.

Lemma widths_clear b : Buffer_wf b → Buffer_widths (clear b).
Proof.
  intros Hwf. pose proof (wf_first_row b Hwf) as H0. split; simpl.
  - intros k Hk. lia.
  - exists 0. split; [done | by left].
  - exists 0, 0. unfold rowLength. simpl. change (1 - 1) with 0.
    rewrite H0. repeat split; (reflexivity || lia).
Qed.

(** A line break completes the current row; its width enters the
    maximum and the new row is empty. *)
Lemma widths_newLine b :
  Buffer_wf b → i b < 2 ^ 32 → Buffer_widths b → Buffer_widths (newLine b).
Proof.
  intros Hwf Hi [Hrows (m0 & Hm0 & Hatt) (r & m & Hr & Hm & Hrc & Hmc)].
  assert (m0 = m) as -> by congruence.
  pose proof (λ k, newLine_starts_old b k Hwf) as Hold.
  pose proof (newLine_starts_new b Hwf) as Hnew.
  rewrite Z.mod_small in Hnew by (destruct Hwf; lia).
  pose proof (newLine_width b Hwf) as Hw. rewrite Hm, Hr in Hw.
  change (Math_max (Some m) (Some r)) with (Some (Z.max m r)) in Hw.
  pose proof (wf_h b Hwf) as Hh.
  destruct (newLine_fields b) as (Eh & Ei & _ & _ & _ & _ & Ec & _).
  assert (∀ k, 0 <= k < h b - 1 →
            Buffer_rowWidth (newLine b) k = Buffer_rowWidth b k) as Hsame.
  { intros k Hk. rewrite !rowWidth_completed by (rewrite ?Eh; lia).
    by rewrite !Hold by lia. }
  assert (Buffer_rowWidth (newLine b) (h b - 1) = Some r) as Hlast.
  { rewrite rowWidth_completed by (rewrite Eh; lia).
    replace (h b - 1 + 1) with (h b) by lia. rewrite Hnew, Hold by lia.
    exact Hr. }
  split; rewrite ?Eh, ?Ec, ?Hw.
  - intros k Hk. destruct (Z.eq_dec k (h b - 1)) as [->|Hne].
    + exists r, (Z.max m r). repeat split; [done | lia].
    + destruct (Hrows k) as (wk & m' & Hwk & Hm' & Hle); [lia|].
      exists wk, (Z.max m r). rewrite Hsame by lia.
      assert (m' = m) by congruence. repeat split; [done | lia].
  - exists (Z.max m r). split; [done|].
    destruct (Z.max_spec m r) as [[Hlt ->] | [Hge ->]].
    + destruct (Z.eq_dec r 0) as [->|Hnz]; [by left|].
      right. exists (h b - 1). split; [destruct Hwf; lia | done].
    + destruct Hatt as [-> | (k & Hk & Hwk)]; [by left|].
      right. exists k. split; [lia|]. by rewrite Hsame.
  - exists 0, (Z.max m r). unfold rowLength. rewrite Eh, Ei.
    replace (h b + 1 - 1) with (h b) by lia. rewrite Hnew. simpl.
    repeat split; first [assumption | lia | (f_equal; lia)].
Qed.

(** Appending to a row that is below the cap. *)
Lemma widths_append x b r :
  Buffer_widths b → rowLength b = Some r → r + 1 <= Z.max 1 (columns b) →
  Buffer_widths (append x (ensureCapacity b)).
Proof.
  intros [Hrows Hatt (r' & m & Hr' & Hm & Hrc & Hmc)] Hr Hlt.
  assert (r' = r) as -> by congruence.
  destruct (ensureCapacity_fields b) as (Ei & Eh & Es & _ & _ & Ec & Ew & _).
  assert (∀ k, 0 <= k < h b - 1 →
            Buffer_rowWidth (append x (ensureCapacity b)) k
            = Buffer_rowWidth b k) as Hsame.
  { intros k Hk. rewrite !rowWidth_completed by (simpl; rewrite ?Eh; lia).
    simpl. by rewrite Es. }
  split; simpl; rewrite ?Eh, ?Ew, ?Ec.
  - intros k Hk. rewrite Hsame by lia. by apply Hrows.
  - destruct Hatt as (m0 & Hm0 & [-> | (k & Hk & Hwk)]).
    + exists 0. split; [done | by left].
    + exists m0. split; [done|]. right. exists k. split; [lia|].
      by rewrite Hsame.
  - exists (r + 1), m. unfold rowLength in *. simpl. rewrite Eh, Es, Ei.
    destruct (TypedArray.get (starts b) (h b - 1)) as [s|]; [|done].
    simpl in *. injection Hr as <-.
    repeat split; first [assumption | lia | (f_equal; lia)].
Qed.

Lemma widths_writeCharCode x b :
  Buffer_wf b → i b < 2 ^ 32 → Buffer_widths b →
  Buffer_widths (writeCharCode x b).
Proof.
  intros Hwf Hi Hw. unfold writeCharCode, wrapRow.
  destruct (num_ge (rowLength b) (columns b)) eqn:Hge.
  - pose proof (widths_newLine b Hwf Hi Hw) as Hw'.
    destruct (widths_cap _ Hw') as (r & m & Hr & _).
    assert (r = 0) as ->.
    { destruct (newLine_fields b) as (Eh & Ei & _).
      pose proof (newLine_starts_new b Hwf) as Hnew.
      rewrite Z.mod_small in Hnew by (destruct Hwf; lia).
      unfold rowLength in Hr. rewrite Eh, Ei in Hr.
      replace (h b + 1 - 1) with (h b) in Hr by lia.
      rewrite Hnew in Hr. simpl in Hr. injection Hr. lia. }
    apply (widths_append x (newLine b) 0 Hw' Hr). lia.
  - destruct (widths_cap _ Hw) as (r & m & Hr & _ & Hrc & _).
    rewrite Hr in Hge. simpl in Hge.
    apply (widths_append x b r Hw Hr). lia.
Qed.

Lemma widths_writeString s b :
  Buffer_wf b → i (writeString s b) < 2 ^ 32 → Buffer_widths b →
  Buffer_widths (writeString s b).
Proof.
  revert b. induction s as [|c s IH]; intros b Hwf Hi Hw; [done|].
  cbn [writeString] in *.
  pose proof (writeString_index s) as Hidx.
  destruct (c =? CharacterCode_NewLine).
  - apply IH; [by apply wf_newLine | done |].
    apply widths_newLine; [done | | done].
    specialize (Hidx (newLine b)). simpl in Hidx. lia.
  - apply IH; [by apply wf_writeCharCode | done |].
    apply widths_writeCharCode; [done | | done].
    specialize (Hidx (writeCharCode c b)).
    destruct (writeCharCode_fields c b) as (Ei & _). lia.
Qed.

(** The write index only falls at [clear()], which re-establishes the
    facts; so they hold whenever the index fits the row table. *)
Lemma widths_run ops b :
  Buffer_wf b → (i b < 2 ^ 32 → Buffer_widths b) →
  i (run ops b) < 2 ^ 32 → Buffer_widths (run ops b).
Proof.
  revert b. induction ops as [|o ops IH]; intros b Hwf Hw Hi; [by apply Hw|].
  cbn [run fold_left] in *. apply IH; [by apply wf_step | | done].
  intros Hi'. destruct o; unfold step in *.
  - destruct (writeCharCode_fields x b) as (Ei & _).
    apply widths_writeCharCode; [done | lia | apply Hw; lia].
  - pose proof (writeString_index s b).
    apply widths_writeString; [done | done | apply Hw; lia].
  - apply widths_newLine; [done | exact Hi' | by apply Hw].
  - by apply widths_clear.
  - destruct (Hw Hi') as [H1 H2 H3]. by split.
  - destruct (Hw Hi') as [H1 H2 H3]. by split.
Qed.

Lemma widths_reachable columns ops :
  i (run ops (new columns)) < 2 ^ 32 → Buffer_widths (run ops (new columns)).
Proof.
  apply widths_run; [apply wf_new | intros _; apply widths_new].
Qed.

(** X3.  [w], which the buffer keeps up to date without a scan, is what a
    scan over the rows would find: in every reachable state (write index
    within the 32-bit row table) it bounds the width of each of the [h]
    rows, the one in progress included, and is the width of one of
    them. *)
Theorem w_is_widest_row (columns : Z) (ops : list op) :
  let b := run ops (new columns) in
  i b < 2 ^ 32 →
  ∃ wv, w b = Some wv
      ∧ (∀ k, 0 <= k < h b →
           ∃ wk, Buffer_rowWidth b k = Some wk ∧ wk <= wv)
      ∧ (∃ k, 0 <= k < h b ∧ Buffer_rowWidth b k = Some wv).
Proof.
  intros b Hi.
  pose proof (wf_reachable columns ops : Buffer_wf b) as Hwf.
  destruct (widths_reachable columns ops Hi)
    as [Hrows (m0 & Hm0 & Hatt) (r & m & Hr & Hm & Hrc & Hmc)].
  fold b in Hrows, Hm0, Hatt, Hr, Hm, Hrc, Hmc.
  assert (m0 = m) as -> by congruence.
  exists (Z.max m r). unfold w. rewrite Hm, Hr. split; [done|]. split.
  - intros k Hk. destruct (Z.eq_dec k (h b - 1)) as [->|Hne].
    + exists r. rewrite rowWidth_last. split; [done | lia].
    + destruct (Hrows k) as (wk & m' & Hwk & Hm' & Hle); [lia|].
      assert (m' = m) by congruence. exists wk. split; [done | lia].
  - destruct (Z.max_spec m r) as [[Hlt ->] | [Hge ->]].
    + exists (h b - 1). rewrite rowWidth_last. destruct Hwf. split; [lia|done].
    + destruct Hatt as [-> | (k & Hk & Hwk)].
      * exists (h b - 1). rewrite rowWidth_last. destruct Hwf.
        split; [lia|]. rewrite Hr. f_equal. lia.
      * exists k. split; [lia | done].
Qed.

Lemma w_is_widest_row_witness :
  let b := run [WriteString [65; 66; 67; 10; 68; 10; 10; 69; 70]] (new 80) in
  ∃ wv, w b = Some wv
      ∧ (∀ k, 0 <= k < h b →
           ∃ wk, Buffer_rowWidth b k = Some wk ∧ wk <= wv)
      ∧ (∃ k, 0 <= k < h b ∧ Buffer_rowWidth b k = Some wv).
Proof.
  apply (w_is_widest_row 80 [WriteString [65; 66; 67; 10; 68; 10; 10; 69; 70]]).
  by_evaluation.
Defined.

Lemma run_columns ops b : Buffer.columns (run ops b) = Buffer.columns b.
Proof.
  revert b. induction ops as [|o ops IH]; intros b; [done|].
  cbn [run fold_left]. rewrite IH. destruct o; unfold step; try done.
  - by destruct (writeCharCode_fields x b) as (_ & _ & _ & ->).
  - by destruct (writeString_fields s b) as (_ & _ & ->).
Qed.

(** X4.  No row outgrows the column cap: in every reachable state (write
    index within the 32-bit row table) the current row and [w] are at most
    [columns], or 1 when the cap is below 1 - then every character gets a
    row of its own. *)
Theorem rows_within_cap (columns : Z) (ops : list op) :
  let b := run ops (new columns) in
  i b < 2 ^ 32 →
  ∃ r wv, rowLength b = Some r ∧ w b = Some wv
        ∧ 0 <= r <= wv ∧ wv <= Z.max 1 (toInt32 columns).
Proof.
  intros b Hi.
  destruct (widths_reachable columns ops Hi)
    as [_ _ (r & m & Hr & Hm & Hrc & Hmc)].
  fold b in Hr, Hm, Hrc, Hmc.
  assert (Buffer.columns b = toInt32 columns) as Ec
    by apply (run_columns ops (new columns)).
  exists r, (Z.max m r). unfold w. rewrite Hm, Hr, <- Ec.
  repeat split; lia.
Qed.

Lemma rows_within_cap_witness :
  let b := run [WriteString [65; 66; 67; 68; 69]; WriteCharCode 70] (new 2) in
  ∃ r wv, rowLength b = Some r ∧ w b = Some wv
        ∧ 0 <= r <= wv ∧ wv <= Z.max 1 (toInt32 2).
Proof.
  apply (rows_within_cap 2 [WriteString [65; 66; 67; 68; 69]; WriteCharCode 70]).
  by_evaluation.
Defined.

End buffer_widths.

(** ** Colors: the palette decodes what [makeColor] packs *)

Section colors.

Lemma land_shiftl_low a n b :
  0 <= n → 0 <= b < 2 ^ n → Z.land (Z.shiftl a n) b = 0.
Proof.
  intros Hn Hb. apply Z.bits_inj'. intros k Hk.
  rewrite Z.land_spec, Z.bits_0.
  destruct (Z.lt_ge_cases k n) as [Hlt|Hge].
  - by rewrite Z.shiftl_spec_low.
  - destruct (Z.eq_dec b 0) as [->|Hnz];
      [by rewrite Z.bits_0, andb_false_r|].
    rewrite (Z.bits_above_log2 b k), andb_false_r; [done | lia |].
    apply Z.log2_lt_pow2; [lia|].
    apply Z.lt_le_trans with (2 ^ n); [lia|].
    apply Z.pow_le_mono_r; lia.
Qed.

Lemma lor_shiftl_low a n b :
  0 <= n → 0 <= b < 2 ^ n → Z.lor (Z.shiftl a n) b = a * 2 ^ n + b.
Proof.
  intros Hn Hb. pose proof (Z.add_lor_land (Z.shiftl a n) b) as H.
  rewrite land_shiftl_low in H by lia.
  rewrite Z.shiftl_mul_pow2 in * by lia. lia.
Qed.

(** [makeColor] packs the top 5, 6 and 5 bits of the three channels. *)
Lemma makeColor_pack r g b :
  0 <= r < 256 → 0 <= g < 256 → 0 <= b < 256 →
  makeColor r g b = (r / 8) * 2048 + (g / 4) * 32 + b / 8.
Proof.
  intros Hr Hg Hb. unfold makeColor.
  rewrite (toInt32_small r), (toInt32_small g), (toInt32_small b) by lia.
  unfold clamp. rewrite !Z.min_r, !Z.max_r by lia.
  rewrite !Z.quot_div_nonneg by lia.
  replace (r * 32 / 256) with (r / 8)
    by (rewrite <- (Z.div_mul_cancel_r r 8 32) by lia; done).
  replace (g * 64 / 256) with (g / 4)
    by (rewrite <- (Z.div_mul_cancel_r g 4 64) by lia; done).
  replace (b * 32 / 256) with (b / 8)
    by (rewrite <- (Z.div_mul_cancel_r b 8 32) by lia; done).
  assert (0 <= r / 8 < 32) by (split; [apply Z.div_pos | apply Z.div_lt_upper_bound]; lia).
  assert (0 <= g / 4 < 64) by (split; [apply Z.div_pos | apply Z.div_lt_upper_bound]; lia).
  assert (0 <= b / 8 < 32) by (split; [apply Z.div_pos | apply Z.div_lt_upper_bound]; lia).
  change 31 with (Z.ones 5). change 63 with (Z.ones 6).
  rewrite !Z.land_ones by lia.
  rewrite !Z.mod_small by (simpl; lia).
  rewrite Z.shiftl_0_r.
  rewrite !toInt32_small by (rewrite ?Z.shiftl_mul_pow2 by lia; lia).
  rewrite (lor_shiftl_low (r / 8) 11) by (rewrite ?Z.shiftl_mul_pow2; lia).
  rewrite Z.shiftl_mul_pow2 by lia.
  replace ((r / 8) * 2 ^ 11 + (g / 4) * 2 ^ 5)
    with (Z.shiftl ((r / 8) * 64 + g / 4) 5)
    by (rewrite Z.shiftl_mul_pow2; lia).
  rewrite lor_shiftl_low by lia. lia.
Qed.

End colors.

Section palette.

Lemma paletteEntry_frame i j a k :
  k < j ∨ j + 4 <= k →
  TypedArray.get (paletteEntry i j a) k = TypedArray.get a k.
Proof.
  intros Hk. unfold paletteEntry. destruct (paletteRGBA i) as [[[r g] b] al].
  rewrite !get_store_ne by lia. done.
Qed.

Lemma paletteEntry_shape i j a :
  TypedArray.length (paletteEntry i j a) = TypedArray.length a
  ∧ TypedArray.bits (paletteEntry i j a) = TypedArray.bits a.
Proof.
  unfold paletteEntry. destruct (paletteRGBA i) as [[[r g] b] al].
  by rewrite !length_store, !bits_store.
Qed.

Lemma paletteEntry_get i j a t :
  TypedArray.bits a = 8 → 0 <= j → j + 4 <= TypedArray.length a →
  0 <= t < 4 →
  TypedArray.get (paletteEntry i j a) (j + t)
  = Some (paletteByte i t mod 2 ^ 8).
Proof.
  intros Hbits Hj Hlen Ht. unfold paletteEntry, paletteByte.
  destruct (paletteRGBA i) as [[[r g] b] al].
  assert (t = 0 ∨ t = 1 ∨ t = 2 ∨ t = 3) as [-> | [-> | [-> | ->]]] by lia;
    cbn [Z.eqb]; rewrite ?Z.add_0_r.
  - rewrite !get_store_ne by lia. rewrite get_store_eq by lia.
    by rewrite Hbits.
  - rewrite !get_store_ne by lia.
    rewrite get_store_eq by (rewrite ?length_store; lia).
    by rewrite !bits_store, Hbits.
  - rewrite !get_store_ne by lia.
    rewrite get_store_eq by (rewrite ?length_store; lia).
    by rewrite !bits_store, Hbits.
  - rewrite get_store_eq by (rewrite ?length_store; lia).
    by rewrite !bits_store, Hbits.
Qed.

Lemma paletteLoop_frame n i j a k :
  k < j → TypedArray.get (paletteLoop n i j a) k = TypedArray.get a k.
Proof.
  revert i j a. induction n as [|n IH]; intros i j a Hk; [done|].
  cbn [paletteLoop]. rewrite IH by lia. apply paletteEntry_frame. lia.
Qed.

(** After the loop, texel [i + m] holds the bytes computed for it. *)
Lemma paletteLoop_get n i j a m t :
  TypedArray.bits a = 8 → 0 <= j →
  j + 4 * Z.of_nat n <= TypedArray.length a →
  0 <= m < Z.of_nat n → 0 <= t < 4 →
  TypedArray.get (paletteLoop n i j a) (j + 4 * m + t)
  = Some (paletteByte (i + m) t mod 2 ^ 8).
Proof.
  revert i j a m. induction n as [|n IH]; intros i j a m Hbits Hj Hlen Hm Ht;
    [lia|].
  cbn [paletteLoop]. destruct (paletteEntry_shape i j a) as [El Eb].
  destruct (Z.eq_dec m 0) as [->|Hne].
  - rewrite paletteLoop_frame by lia.
    rewrite Z.mul_0_r, !Z.add_0_r. apply paletteEntry_get; lia.
  - replace (j + 4 * m + t) with (j + 4 + 4 * (m - 1) + t) by lia.
    replace (i + m) with (i + 1 + (m - 1)) by lia.
    apply IH; rewrite ?El, ?Eb; lia.
Qed.

(** The bytes of texel [i]: the 5, 6 and 5 bit channels scaled to 8 bits. *)
Lemma paletteRGBA_value i :
  0 <= i < 65536 →
  paletteRGBA i = (8 * (i / 2048), 4 * (i / 32 mod 64), 8 * (i mod 32), 255).
Proof.
  intros Hi. unfold paletteRGBA. rewrite toInt32_small by lia.
  change 31 with (Z.ones 5). change 63 with (Z.ones 6).
  rewrite !Z.land_ones, !Z.shiftr_div_pow2 by lia.
  assert (0 <= i / 2 ^ 11 < 32)
    by (split; [apply Z.div_pos | apply Z.div_lt_upper_bound]; lia).
  rewrite (Z.mod_small (i / 2 ^ 11)) by lia.
  change (2 ^ 11) with 2048. change (2 ^ 5) with 32. change (2 ^ 6) with 64.
  change (2 ^ 0) with 1. rewrite Z.div_1_r.
  replace (i / 2048 * 256) with (8 * (i / 2048) * 32) by lia.
  replace (i / 32 mod 64 * 256) with (4 * (i / 32 mod 64) * 64) by lia.
  replace (i mod 32 * 256) with (8 * (i mod 32) * 32) by lia.
  by rewrite !Z.div_mul by lia.
Qed.

(** Texel [c] of the uploaded palette. *)
Lemma colorPalette_get c t :
  0 <= c < 65536 → 0 <= t < 4 →
  TypedArray.get colorPalette (4 * c + t) = Some (paletteByte c t mod 2 ^ 8).
Proof.
  intros Hc Ht.
  assert (∀ n, Z.of_nat n = 65536 →
            TypedArray.get
              (paletteLoop n 0 0 (Uint8Array (256 * 256 * 4))) (4 * c + t)
            = Some (paletteByte c t mod 2 ^ 8)) as Hgen.
  { intros n Hn.
    pose proof (paletteLoop_get n 0 0 (Uint8Array (256 * 256 * 4)) c t) as H.
    change (0 + 4 * c + t) with (4 * c + t) in H.
    change (0 + c) with c in H.
    apply H; [reflexivity | lia | | lia | exact Ht].
    change (TypedArray.length (Uint8Array (256 * 256 * 4)))
      with (256 * 256 * 4). lia. }
  unfold colorPalette. apply Hgen. by apply Z2Nat.id.
Qed.

(** X5.  The palette decodes what [makeColor] packs: for channel values
    in 0 .. 255 - others are clamped to that range first - the packed
    color is a 16-bit value, and its texel in the palette texture holds
    each channel rounded down to its 5, 6 or 5 most significant bits (an
    error below 8, 4 and 8) with alpha 255. *)
Theorem palette_decodes_makeColor (r g b : Z) :
  let r' := clamp (toInt32 r) 0 255 in
  let g' := clamp (toInt32 g) 0 255 in
  let b' := clamp (toInt32 b) 0 255 in
  let c := makeColor r g b in
  0 <= c < 65536
  ∧ TypedArray.get colorPalette (4 * c) = Some (r' - r' mod 8)
  ∧ TypedArray.get colorPalette (4 * c + 1) = Some (g' - g' mod 4)
  ∧ TypedArray.get colorPalette (4 * c + 2) = Some (b' - b' mod 8)
  ∧ TypedArray.get colorPalette (4 * c + 3) = Some 255.
Proof.
  intros r' g' b' c.
  assert (0 <= r' < 256 ∧ 0 <= g' < 256 ∧ 0 <= b' < 256) as (Hr & Hg & Hb)
    by (unfold r', g', b', clamp; lia).
  assert (c = makeColor r' g' b') as Ec.
  { unfold c, makeColor. fold r' g' b'.
    rewrite (toInt32_small r'), (toInt32_small g'), (toInt32_small b') by lia.
    unfold clamp. by rewrite !Z.min_r, !Z.max_r by lia. }
  rewrite (makeColor_pack r' g' b' Hr Hg Hb) in Ec.
  assert (0 <= r' / 8 < 32 ∧ 0 <= g' / 4 < 64 ∧ 0 <= b' / 8 < 32)
    as (Hr8 & Hg4 & Hb8)
    by (repeat split; (apply Z.div_pos || apply Z.div_lt_upper_bound); lia).
  assert (0 <= c < 65536) as Hc by lia.
  assert (c / 2048 = r' / 8 ∧ c / 32 mod 64 = g' / 4 ∧ c mod 32 = b' / 8)
    as (E1 & E2 & E3).
  { rewrite Ec. repeat split.
    - symmetry. apply (Z.div_unique _ 2048 _ (g' / 4 * 32 + b' / 8)); lia.
    - replace (r' / 8 * 2048 + g' / 4 * 32 + b' / 8)
        with (b' / 8 + (r' / 8 * 64 + g' / 4) * 32) by lia.
      rewrite Z.div_add, (Z.div_small (b' / 8)) by lia.
      rewrite Z.add_0_l, Z.add_comm, Z.mod_add, Z.mod_small; lia.
    - replace (r' / 8 * 2048 + g' / 4 * 32 + b' / 8)
        with (b' / 8 + (r' / 8 * 64 + g' / 4) * 32) by lia.
      rewrite Z.mod_add, Z.mod_small; lia. }
  split; [done|].
  assert (TypedArray.get colorPalette (4 * c)
          = Some (paletteByte c 0 mod 2 ^ 8)) as ->
    by (rewrite <- (colorPalette_get c 0) by lia; f_equal; lia).
  rewrite !colorPalette_get by lia.
  unfold paletteByte. rewrite (paletteRGBA_value c Hc).
  cbn [Z.eqb Pos.eqb]. rewrite E1, E2, E3.
  pose proof (Z.div_mod r' 8 ltac:(lia)).
  pose proof (Z.div_mod g' 4 ltac:(lia)).
  pose proof (Z.div_mod b' 8 ltac:(lia)).
  repeat split; f_equal; rewrite Z.mod_small; lia.
Qed.

End palette.

(** ** The glyph atlas: where each glyph is drawn *)

(** Equal records and options, field by field, up to arithmetic. *)
Ltac eq_fields := repeat first [reflexivity | lia | progress f_equal].

Section glyph_atlas.

Lemma drawGlyphs_length n k i j tiles :
  List.length (drawGlyphs n k i j tiles) = n.
Proof.
  revert i j. induction n as [|n IH]; intros i j; simpl; [done|].
  by rewrite IH.
Qed.

Lemma drawGlyphs_lookup n k i j tiles (m : nat) :
  (m < n)%nat →
  drawGlyphs n k i j tiles !! m
  = Some {| glyphVariant := k; glyphCode := i + Z.of_nat m;
            glyphTileX := rem_int32 (Some (j + Z.of_nat m)) tiles;
            glyphTileY := quot_int32 (Some (j + Z.of_nat m)) tiles |}.
Proof.
  revert i j m. induction n as [|n IH]; intros i j m Hm; [lia|].
  destruct m as [|m]; cbn [drawGlyphs].
  - cbn. by rewrite !Z.add_0_r.
  - change ((?a :: ?l) !! S m) with (l !! m). rewrite IH by lia.
    eq_fields.
Qed.

Lemma drawVariants_lookup n k j tiles (v m : nat) :
  (v < n)%nat → (m < 256)%nat →
  drawVariants n k j tiles !! (256 * v + m)%nat
  = Some {| glyphVariant := k + Z.of_nat v; glyphCode := Z.of_nat m;
            glyphTileX :=
              rem_int32 (Some (j + 256 * Z.of_nat v + Z.of_nat m)) tiles;
            glyphTileY :=
              quot_int32 (Some (j + 256 * Z.of_nat v + Z.of_nat m)) tiles |}.
Proof.
  revert k j v. induction n as [|n IH]; intros k j v Hv Hm; [lia|].
  cbn [drawVariants].
  assert (Z.to_nat Screen.glyphCount = 256%nat) as -> by reflexivity.
  destruct v as [|v].
  - rewrite Nat.mul_0_r, Nat.add_0_l.
    rewrite lookup_app_l by (rewrite drawGlyphs_length; lia).
    rewrite drawGlyphs_lookup by lia.
    eq_fields.
  - rewrite lookup_app_r by (rewrite drawGlyphs_length; lia).
    rewrite drawGlyphs_length.
    replace (256 * S v + m - 256)%nat with (256 * v + m)%nat by lia.
    rewrite IH by lia. unfold Screen.glyphCount.
    eq_fields.
Qed.

Lemma spriteSheet_length tiles : List.length (spriteSheet tiles) = 1024%nat.
Proof.
  unfold spriteSheet. cbn [drawVariants].
  rewrite !length_app, !drawGlyphs_length. reflexivity.
Qed.

(** Glyph [c] of variant [v] is the draw number [256 v + c]. *)
Lemma spriteSheet_lookup tiles (v c : Z) :
  0 <= v < 4 → 0 <= c < 256 →
  spriteSheet tiles !! Z.to_nat (256 * v + c)
  = Some {| glyphVariant := v; glyphCode := c;
            glyphTileX := rem_int32 (Some (256 * v + c)) tiles;
            glyphTileY := quot_int32 (Some (256 * v + c)) tiles |}.
Proof.
  intros Hv Hc. unfold spriteSheet.
  replace (Z.to_nat (256 * v + c))
    with (256 * Z.to_nat v + Z.to_nat c)%nat by lia.
  rewrite drawVariants_lookup by lia.
  eq_fields.
Qed.

Lemma tile_of_index tiles n :
  0 < tiles → 0 <= n < 2 ^ 31 →
  0 <= rem_int32 (Some n) tiles < tiles
  ∧ 0 <= quot_int32 (Some n) tiles <= n
  ∧ quot_int32 (Some n) tiles * tiles + rem_int32 (Some n) tiles = n.
Proof.
  intros Ht Hn. unfold rem_int32, quot_int32.
  assert ((tiles =? 0) = false) as -> by lia.
  rewrite Z.rem_mod_nonneg, Z.quot_div_nonneg by lia.
  pose proof (Z.mod_pos_bound n tiles Ht).
  pose proof (Z.div_mod n tiles ltac:(lia)).
  assert (0 <= n / tiles <= n).
  { split; [apply Z.div_pos; lia|]. apply Z.div_le_upper_bound; nia. }
  rewrite !toInt32_small by lia. lia.
Qed.

(** X6.  With at least one tile per row no two glyphs of the sprite
    sheet are drawn in the same tile: any two of the 1024 draws (256
    characters in four font variants) have different tile coordinates. *)
Theorem spriteSheet_tiles_distinct (tiles : Z) (m n : nat) (d e : glyphDraw) :
  0 < tiles → m ≠ n →
  spriteSheet tiles !! m = Some d → spriteSheet tiles !! n = Some e →
  (glyphTileX d, glyphTileY d) ≠ (glyphTileX e, glyphTileY e).
Proof.
  intros Ht Hmn Hd He [= Hx Hy].
  assert (∀ (p : nat) (q : glyphDraw),
            spriteSheet tiles !! p = Some q →
            glyphTileY q * tiles + glyphTileX q = Z.of_nat p) as Hidx.
  { intros p q Hq.
    pose proof (lookup_lt_Some _ _ _ Hq) as Hp.
    rewrite spriteSheet_length in Hp.
    pose proof (spriteSheet_lookup tiles (Z.of_nat p / 256)
                  (Z.of_nat p mod 256)) as Hl.
    pose proof (Z.div_mod (Z.of_nat p) 256 ltac:(lia)) as Hdm.
    pose proof (Z.mod_pos_bound (Z.of_nat p) 256 ltac:(lia)).
    assert (0 <= Z.of_nat p / 256 < 4)
      by (split; [apply Z.div_pos | apply Z.div_lt_upper_bound]; lia).
    rewrite <- Hdm, Nat2Z.id in Hl. rewrite Hl in Hq by lia.
    injection Hq as <-. cbn [glyphTileX glyphTileY].
    apply tile_of_index; lia. }
  apply Hidx in Hd, He. apply Hmn, Nat2Z.inj. rewrite <- Hd, <- He.
  by rewrite Hx, Hy.
Qed.

Lemma spriteSheet_tiles_distinct_witness :
  (65, 0) ≠ (65, 1).
Proof.
  apply (spriteSheet_tiles_distinct 256 65 321
           {| glyphVariant := 0; glyphCode := 65;
              glyphTileX := 65; glyphTileY := 0 |}
           {| glyphVariant := 1; glyphCode := 65;
              glyphTileX := 65; glyphTileY := 1 |});
    [lia | lia | vm_compute; reflexivity | vm_compute; reflexivity].
Defined.

End glyph_atlas.

(** ** The screen: what a write puts into the tilemap *)

Section screen_cells.
Import Screen.

Lemma storeCell_frame buffer i c tiles color k :
  k < i ∨ i + 4 <= k →
  TypedArray.get (storeCell buffer i c tiles color) k
  = TypedArray.get buffer k.
Proof.
  intros Hk. unfold storeCell, TypedArray.store_num.
  rewrite !get_store_ne by lia. done.
Qed.

Lemma bits_storeCell buffer i c tiles color :
  TypedArray.bits (storeCell buffer i c tiles color) = TypedArray.bits buffer.
Proof. unfold storeCell, TypedArray.store_num. by rewrite !bits_store. Qed.

(** The four bytes of a stored cell. *)
Lemma storeCell_get buffer i c tiles color :
  TypedArray.bits buffer = 8 → 0 <= i → i + 4 <= TypedArray.length buffer →
  map (λ t, TypedArray.get (storeCell buffer i c tiles color) (i + t))
      [0; 1; 2; 3]
  = [Some (rem_int32 c tiles mod 2 ^ 8);
     Some (quot_int32 c tiles mod 2 ^ 8);
     Some (default 0 color mod 2 ^ 8);
     Some (default 0 (option_map (λ v, Z.shiftr (toInt32 v) 8) color)
           mod 2 ^ 8)].
Proof.
  intros Hbits Hi Hlen. unfold storeCell, TypedArray.store_num.
  cbn [map]. rewrite Z.add_0_r.
  repeat f_equal.
  - rewrite !get_store_ne by lia. rewrite get_store_eq by lia.
    by rewrite Hbits.
  - rewrite !get_store_ne by lia.
    rewrite get_store_eq by (rewrite ?length_store; lia).
    by rewrite !bits_store, Hbits.
  - rewrite !get_store_ne by lia.
    rewrite get_store_eq by (rewrite ?length_store; lia).
    by rewrite !bits_store, Hbits.
  - rewrite get_store_eq by (rewrite ?length_store; lia).
    by rewrite !bits_store, Hbits.
Qed.

(** A cell inside the grid lies inside the tilemap. *)
Lemma cellIndex_range s cx cy :
  Screen_wf s → 0 <= cx < w s → 0 <= cy < h s →
  0 <= Screen_cellIndex s cx cy
  ∧ Screen_cellIndex s cx cy + 4 <= TypedArray.length (screenBuffer s).
Proof.
  intros [Hb Hl [Hw Hh]] Hx Hy. unfold Screen_cellIndex. rewrite Hl. nia.
Qed.

(** The two color bytes hold a 16-bit color, low byte first. *)
Lemma color_bytes color :
  0 <= color < 65536 →
  color mod 2 ^ 8 + 256 * (Z.shiftr (toInt32 color) 8 mod 2 ^ 8) = color.
Proof.
  intros Hc. rewrite toInt32_small, Z.shiftr_div_pow2 by lia.
  change (2 ^ 8) with 256.
  assert (0 <= color / 256 < 256)
    by (split; [apply Z.div_pos | apply Z.div_lt_upper_bound]; lia).
  rewrite (Z.mod_small (color / 256)) by lia.
  pose proof (Z.div_mod color 256 ltac:(lia)). lia.
Qed.

(** X7.  [writeCharCode(c)] with the cursor inside the grid draws one
    cell: for a character code in 0 .. 255, a sprite sheet of 4 to 256
    tiles per row and a 16-bit color, the cell under the cursor receives
    the tile in which [initializeSpriteSheet] drew that character in the
    screen's font style, and the color as two bytes, low byte first; no
    other byte of the tilemap changes, the cursor moves one column to the
    right and the screen is marked dirty. *)
Theorem writeCharCode_draws_glyph (s : t) (c : Z) :
  Screen_wf s →
  0 <= x s < w s → 0 <= y s < h s →
  4 <= tileColumns s <= 256 → 0 <= c < 256 → 0 <= color s < 65536 →
  let s' := writeCharCode c s in
  let v := FontStyle_code (style s) in
  ∃ tx ty lo hi,
    map (λ t, TypedArray.get (screenBuffer s')
                (Screen_cellIndex s (x s) (y s) + t)) [0; 1; 2; 3]
    = [Some tx; Some ty; Some lo; Some hi]
    ∧ spriteSheet (tileColumns s) !! Z.to_nat (256 * v + c)
      = Some {| glyphVariant := v; glyphCode := c;
                glyphTileX := tx; glyphTileY := ty |}
    ∧ lo + 256 * hi = color s
    ∧ (∀ k, k < Screen_cellIndex s (x s) (y s)
            ∨ Screen_cellIndex s (x s) (y s) + 4 <= k →
         TypedArray.get (screenBuffer s') k
         = TypedArray.get (screenBuffer s) k)
    ∧ x s' = x s + 1 ∧ y s' = y s ∧ dirty s' = true.
Proof.
  intros Hwf Hx Hy Ht Hc Hcol s' v.
  destruct (cellIndex_range s (x s) (y s) Hwf Hx Hy) as [Hi0 Hi1].
  assert (0 <= v < 4) as Hv by (unfold v; destruct (style s); simpl; lia).
  assert (s' = {| dirty := true;
                  screenBuffer :=
                    storeCell (screenBuffer s) (Screen_cellIndex s (x s) (y s))
                      (Some (c + glyphCount * v)) (tileColumns s)
                      (Some (color s));
                  x := x s + 1; y := y s; w := w s; h := h s;
                  color := color s; style := style s;
                  tileColumns := tileColumns s |}) as ->.
  { unfold s', writeCharCode.
    assert ((w s <=? x s) || (x s <? 0) || (h s <=? y s) || (y s <? 0) = false)
      as -> by (rewrite !orb_false_iff; lia).
    assert ((x s <? w s) = true) as -> by lia. reflexivity. }
  cbn [screenBuffer x y dirty].
  destruct (tile_of_index (tileColumns s) (256 * v + c)) as (Htx & Hty & Hg);
    [lia | lia |].
  replace (c + glyphCount * v) with (256 * v + c)
    by (unfold glyphCount; lia).
  exists (rem_int32 (Some (256 * v + c)) (tileColumns s)),
         (quot_int32 (Some (256 * v + c)) (tileColumns s)),
         (color s mod 2 ^ 8),
         (Z.shiftr (toInt32 (color s)) 8 mod 2 ^ 8).
  split; [|split; [|split; [|split]]].
  - rewrite storeCell_get by (try apply Hwf; lia).
    cbn [default option_map].
    rewrite (Z.mod_small (rem_int32 _ _)) by (change (2 ^ 8) with 256; lia).
    rewrite (Z.mod_small (quot_int32 _ _)) by (change (2 ^ 8) with 256; nia).
    done.
  - by apply spriteSheet_lookup.
  - by apply color_bytes.
  - intros k Hk. by apply storeCell_frame.
  - done.
Qed.

Lemma writeCharCode_draws_glyph_witness :
  let s := moveTo 2 1 (sized 4 4 256) in
  ∃ tx ty lo hi,
    map (λ t, TypedArray.get (screenBuffer (writeCharCode 65 s)) (24 + t))
        [0; 1; 2; 3]
    = [Some tx; Some ty; Some lo; Some hi]
    ∧ spriteSheet 256 !! 65%nat
      = Some {| glyphVariant := 0; glyphCode := 65;
                glyphTileX := tx; glyphTileY := ty |}
    ∧ lo + 256 * hi = 65535
    ∧ (∀ k, k < 24 ∨ 24 + 4 <= k →
         TypedArray.get (screenBuffer (writeCharCode 65 s)) k
         = TypedArray.get (screenBuffer s) k)
    ∧ x (writeCharCode 65 s) = 3 ∧ y (writeCharCode 65 s) = 1
    ∧ dirty (writeCharCode 65 s) = true.
Proof.
  apply (writeCharCode_draws_glyph (moveTo 2 1 (sized 4 4 256)) 65);
    [split; by_evaluation | by_evaluation..].
Defined.

End screen_cells.

(** ** The screen: strings and clearing *)

Section screen_strings.
Import Screen.

(** A stored cell shows its glyph. *)
Lemma storeCell_shows s s' cx cy v c col :
  Screen_wf s → 0 <= cx < w s → 0 <= cy < h s →
  4 <= tileColumns s <= 256 → 0 <= v < 4 → 0 <= c < 256 →
  0 <= col < 65536 →
  w s' = w s → tileColumns s' = tileColumns s →
  screenBuffer s'
  = storeCell (screenBuffer s) (Screen_cellIndex s cx cy)
      (Some (c + glyphCount * v)) (tileColumns s) (Some col) →
  Screen_shows s' cx cy v c col.
Proof.
  intros Hwf Hx Hy Ht Hv Hc Hcol Ew Et Eb.
  destruct (cellIndex_range s cx cy Hwf Hx Hy) as [Hi0 Hi1].
  destruct (tile_of_index (tileColumns s) (256 * v + c)) as (Htx & Hty & Hg);
    [lia | lia |].
  exists (rem_int32 (Some (256 * v + c)) (tileColumns s)),
         (quot_int32 (Some (256 * v + c)) (tileColumns s)),
         (col mod 2 ^ 8), (Z.shiftr (toInt32 col) 8 mod 2 ^ 8).
  split; [|split].
  - unfold Screen_cell, Screen_cellIndex in *. rewrite Ew, Eb.
    replace (c + glyphCount * v) with (256 * v + c)
      by (unfold glyphCount; lia).
    rewrite storeCell_get by (try apply Hwf; lia).
    cbn [default option_map].
    rewrite (Z.mod_small (rem_int32 _ _)) by (change (2 ^ 8) with 256; lia).
    rewrite (Z.mod_small (quot_int32 _ _)) by (change (2 ^ 8) with 256; nia).
    done.
  - rewrite Et. by apply spriteSheet_lookup.
  - by apply color_bytes.
Qed.

(** A cell keeps what it shows while its four bytes are left alone. *)
Lemma shows_preserved s s' cx cy v c col :
  Screen_shows s cx cy v c col →
  w s' = w s → tileColumns s' = tileColumns s →
  (∀ t, 0 <= t < 4 →
     TypedArray.get (screenBuffer s') (Screen_cellIndex s cx cy + t)
     = TypedArray.get (screenBuffer s) (Screen_cellIndex s cx cy + t)) →
  Screen_shows s' cx cy v c col.
Proof.
  intros (tx & ty & lo & hi & Hcell & Hsheet & Hcol) Ew Et Hsame.
  exists tx, ty, lo, hi. split; [|split; [by rewrite Et | done]].
  rewrite <- Hcell. unfold Screen_cell, Screen_cellIndex in *. rewrite Ew.
  cbn [map]. by rewrite !Hsame by lia.
Qed.

Lemma writeCharCode_static c s :
  w (writeCharCode c s) = w s ∧ h (writeCharCode c s) = h s
  ∧ tileColumns (writeCharCode c s) = tileColumns s
  ∧ color (writeCharCode c s) = color s
  ∧ style (writeCharCode c s) = style s
  ∧ (Screen_wf s → Screen_wf (writeCharCode c s)).
Proof.
  unfold writeCharCode.
  destruct ((w s <=? x s) || (x s <? 0) || (h s <=? y s) || (y s <? 0));
    [done|].
  repeat split; try done; simpl.
  - rewrite bits_storeCell. by destruct H.
  - rewrite length_storeCell. by destruct H.
  - by destruct H as [_ _ [? ?]].
  - by destruct H as [_ _ [? ?]].
Qed.

(** One character, drawn at the cursor. *)
Lemma writeCharCode_shows c s :
  Screen_wf s → 0 <= x s < w s → 0 <= y s < h s →
  4 <= tileColumns s <= 256 → 0 <= c < 256 → 0 <= color s < 65536 →
  Screen_shows (writeCharCode c s) (x s) (y s)
    (FontStyle_code (style s)) c (color s)
  ∧ x (writeCharCode c s) = x s + 1
  ∧ (∀ k, k < Screen_cellIndex s (x s) (y s)
          ∨ Screen_cellIndex s (x s) (y s) + 4 <= k →
       TypedArray.get (screenBuffer (writeCharCode c s)) k
       = TypedArray.get (screenBuffer s) k).
Proof.
  intros Hwf Hx Hy Ht Hc Hcol.
  assert (0 <= FontStyle_code (style s) < 4)
    by (destruct (style s); simpl; lia).
  assert (writeCharCode c s
          = {| dirty := true;
               screenBuffer :=
                 storeCell (screenBuffer s) (Screen_cellIndex s (x s) (y s))
                   (Some (c + glyphCount * FontStyle_code (style s)))
                   (tileColumns s) (Some (color s));
               x := x s + 1; y := y s; w := w s; h := h s;
               color := color s; style := style s;
               tileColumns := tileColumns s |}) as ->.
  { unfold writeCharCode.
    assert ((w s <=? x s) || (x s <? 0) || (h s <=? y s) || (y s <? 0) = false)
      as -> by (rewrite !orb_false_iff; lia).
    assert ((x s <? w s) = true) as -> by lia. reflexivity. }
  split; [|split; [done|]].
  - by apply (storeCell_shows s).
  - intros k Hk. by apply storeCell_frame.
Qed.

Lemma writeString_static str s :
  w (writeString str s) = w s ∧ h (writeString str s) = h s
  ∧ tileColumns (writeString str s) = tileColumns s
  ∧ color (writeString str s) = color s
  ∧ style (writeString str s) = style s
  ∧ (Screen_wf s → Screen_wf (writeString str s)).
Proof.
  revert s. induction str as [|c str IH]; intros s; simpl; [done|].
  destruct (IH (writeCharCode c s)) as (-> & -> & -> & -> & -> & Hwf).
  destruct (writeCharCode_static c s) as (-> & -> & -> & -> & -> & Hwf').
  do 5 (split; [done|]). intros H. by apply Hwf, Hwf'.
Qed.

(** What [writeString] draws, where the cursor ends and what it leaves
    alone. *)
Lemma writeString_row (s : t) (str : list Z) :
  Screen_wf s → 0 <= x s <= w s → 0 <= y s < h s →
  4 <= tileColumns s <= 256 → 0 <= color s < 65536 →
  forallb (λ c, (0 <=? c) && (c <? 256)) str = true →
  let n := Z.min (Z.of_nat (List.length str)) (w s - x s) in
  let s' := writeString str s in
  x s' = x s + n ∧ y s' = y s
  ∧ (∀ k c, 0 <= k < n → str !! Z.to_nat k = Some c →
       Screen_shows s' (x s + k) (y s) (FontStyle_code (style s)) c (color s))
  ∧ (∀ k, k < Screen_cellIndex s (x s) (y s)
          ∨ Screen_cellIndex s (x s) (y s) + 4 * n <= k →
       TypedArray.get (screenBuffer s') k = TypedArray.get (screenBuffer s) k).
Proof.
  revert s. induction str as [|c str IH]; intros s Hwf Hx Hy Ht Hcol Hstr n s'.
  - subst n s'. simpl. split; [lia|]. split; [done|].
    split; [intros k c Hk Hd; done | done].
  - simpl in Hstr. apply andb_true_iff in Hstr as [Hc Hstr].
    destruct (Z.eq_dec (x s) (w s)) as [Hend|Hin].
    + assert (n = 0) as Hn0 by (subst n; lia).
      assert (s' = s) as Hs'
        by (subst s'; apply writeString_outside; lia).
      rewrite Hn0, Hs'. split; [lia|]. split; [done|].
      split; [intros k d Hk; lia | done].
    + destruct (writeCharCode_shows c s) as (Hshow & Ex & Hframe);
        try done; try lia.
      destruct (writeCharCode_static c s) as (Ew & Eh & Et & Ec & Es & Hwf').
      destruct (writeCharCode_frame c s) as (_ & _ & _ & Ey & _).
      specialize (IH (writeCharCode c s) (Hwf' Hwf)).
      rewrite Ex, Ey, Ew, Eh, Et, Ec, Es in IH.
      destruct IH as (Ex' & Ey' & Hshows & Hframe'); try done; try lia.
      change (writeString str (writeCharCode c s)) with s' in *.
      set (n' := Z.min (Z.of_nat (List.length str)) (w s - (x s + 1))) in *.
      assert (n = n' + 1) as Hn
        by (subst n n'; cbn [List.length]; lia).
      assert (Screen_cellIndex (writeCharCode c s) (x s + 1) (y s)
              = Screen_cellIndex s (x s) (y s) + 4) as Eidx
        by (unfold Screen_cellIndex; rewrite Ew; lia).
      rewrite Eidx in Hframe'.
      split; [lia|]. split; [done|]. split.
      * intros k d Hk Hd. destruct (Z.eq_dec k 0) as [->|Hk0].
        -- cbn in Hd. injection Hd as <-. rewrite Z.add_0_r.
           apply (shows_preserved (writeCharCode c s)); [done | | |].
           ++ exact (proj1 (writeString_frame str (writeCharCode c s))).
           ++ exact (proj1 (proj2 (proj2
                       (writeString_static str (writeCharCode c s))))).
           ++ intros t Ht'. apply Hframe'.
              unfold Screen_cellIndex. rewrite Ew. lia.
        -- replace (x s + k) with (x s + 1 + (k - 1)) by lia.
           apply Hshows; [lia|].
           replace (Z.to_nat k) with (S (Z.to_nat (k - 1))) in Hd by lia.
           exact Hd.
      * intros k Hk. rewrite Hframe' by lia. apply Hframe. lia.
Qed.

(** X8.  [writeString] draws the string along the cursor's row and drops
    what does not fit.  On a screen as [resize()] sizes it (a byte
    tilemap of [w * h * 4] bytes) with 4 to 256 tiles per sprite-sheet
    row and a 16-bit color, with the cursor at a column [0 <= x <= w] of
    a row inside the grid, and code units in 0..255 (code 10 included:
    this [writeString] draws it like any other code and starts no new
    row): the first [min(length, w - x)] characters are shown in the
    cells from the cursor on, in the screen's style and color; the cursor
    ends that many columns further and no byte outside those cells
    changes - nothing wraps to the next row. *)
Theorem writeString_draws_row (s : t) (str : list Z) :
  Screen_wf s → 0 <= x s <= w s → 0 <= y s < h s →
  4 <= tileColumns s <= 256 → 0 <= color s < 65536 →
  forallb (λ c, (0 <=? c) && (c <? 256)) str = true →
  let n := Z.min (Z.of_nat (List.length str)) (w s - x s) in
  let s' := writeString str s in
  x s' = x s + n ∧ y s' = y s
  ∧ (∀ k c, 0 <= k < n → str !! Z.to_nat k = Some c →
       Screen_shows s' (x s + k) (y s) (FontStyle_code (style s)) c (color s))
  ∧ (∀ k, k < Screen_cellIndex s (x s) (y s)
          ∨ Screen_cellIndex s (x s) (y s) + 4 * n <= k →
       TypedArray.get (screenBuffer s') k = TypedArray.get (screenBuffer s) k).
Proof. exact (writeString_row s str). Qed.

Lemma writeString_draws_row_witness :
  let s := moveTo 2 1 (sized 4 4 256) in
  let str := [65; 66; 67] in
  let n := Z.min (Z.of_nat (List.length str)) (w s - x s) in
  let s' := writeString str s in
  x s' = x s + n ∧ y s' = y s
  ∧ (∀ k c, 0 <= k < n → str !! Z.to_nat k = Some c →
       Screen_shows s' (x s + k) (y s) (FontStyle_code (style s)) c (color s))
  ∧ (∀ k, k < Screen_cellIndex s (x s) (y s)
          ∨ Screen_cellIndex s (x s) (y s) + 4 * n <= k →
       TypedArray.get (screenBuffer s') k = TypedArray.get (screenBuffer s) k).
Proof.
  apply (writeString_draws_row (moveTo 2 1 (sized 4 4 256)) [65; 66; 67]);
    [split; by_evaluation | by_evaluation..].
Defined.

(** *** [clear()] *)

Lemma viewStoreZero_get buffer i k :
  TypedArray.get (viewStoreZero buffer i) k
  = if (4 * i <=? k) && (k <? 4 * i + 4)
    then (if TypedArray.in_range buffer k then Some 0 else None)
    else TypedArray.get buffer k.
Proof.
  unfold viewStoreZero.
  destruct ((4 * i <=? k) && (k <? 4 * i + 4)) eqn:E.
  - apply andb_true_iff in E as [E1 E2].
    destruct (TypedArray.in_range buffer k) eqn:Hin.
    + apply in_range_spec in Hin.
      assert (k = 4 * i ∨ k = 4 * i + 1 ∨ k = 4 * i + 2 ∨ k = 4 * i + 3)
        as [-> | [-> | [-> | ->]]] by lia.
      * rewrite !get_store_ne by lia. by rewrite get_store_eq by lia.
      * rewrite !get_store_ne by lia.
        by rewrite get_store_eq by (rewrite ?length_store; lia).
      * rewrite !get_store_ne by lia.
        by rewrite get_store_eq by (rewrite ?length_store; lia).
      * by rewrite get_store_eq by (rewrite ?length_store; lia).
    + apply in_range_false in Hin. apply get_out_of_range.
      by rewrite !length_store.
  - apply andb_false_iff in E. rewrite !get_store_ne by lia. done.
Qed.

Lemma viewStoreZero_shape buffer i :
  TypedArray.length (viewStoreZero buffer i) = TypedArray.length buffer
  ∧ TypedArray.bits (viewStoreZero buffer i) = TypedArray.bits buffer.
Proof. unfold viewStoreZero. by rewrite !length_store, !bits_store. Qed.

Lemma clearView_shape n i buffer :
  TypedArray.length (clearView n i buffer) = TypedArray.length buffer
  ∧ TypedArray.bits (clearView n i buffer) = TypedArray.bits buffer.
Proof.
  revert i buffer. induction n as [|n IH]; intros i buffer; [done|].
  cbn [clearView]. destruct (IH (i + 1) (viewStoreZero buffer i)) as [-> ->].
  apply viewStoreZero_shape.
Qed.

Lemma clearView_get n i buffer k :
  0 <= k < TypedArray.length buffer →
  TypedArray.get (clearView n i buffer) k
  = if (4 * i <=? k) && (k <? 4 * (i + Z.of_nat n))
    then Some 0 else TypedArray.get buffer k.
Proof.
  revert i buffer. induction n as [|n IH]; intros i buffer Hk.
  - cbn [clearView].
    by destruct (Z.leb_spec (4 * i) k),
                (Z.ltb_spec k (4 * (i + Z.of_nat 0))); try lia.
  - cbn [clearView]. destruct (viewStoreZero_shape buffer i) as [El _].
    rewrite IH by (rewrite El; lia). rewrite viewStoreZero_get.
    apply in_range_spec in Hk. rewrite Hk.
    destruct (Z.leb_spec (4 * i) k), (Z.ltb_spec k (4 * i + 4)),
             (Z.leb_spec (4 * (i + 1)) k),
             (Z.ltb_spec k (4 * (i + 1 + Z.of_nat n))),
             (Z.ltb_spec k (4 * (i + Z.of_nat (S n)))); simpl; try done; lia.
Qed.

(** [clear()] zeroes the tilemap and keeps its shape. *)
Lemma Screen_clear_blank (s : t) (k : Z) :
  Screen_wf s →
  0 <= k < w s * h s * 4 →
  TypedArray.get (screenBuffer (Screen_clear s)) k = Some 0
  ∧ w (Screen_clear s) = w s ∧ h (Screen_clear s) = h s
  ∧ x (Screen_clear s) = x s ∧ y (Screen_clear s) = y s
  ∧ dirty (Screen_clear s) = true
  ∧ Screen_wf (Screen_clear s).
Proof.
  intros [Hb Hl [Hw Hh]] Hk.
  destruct (clearView_shape
              (Z.to_nat (TypedArray.length (screenBuffer s) / 4)) 0
              (screenBuffer s)) as [El Eb].
  unfold Screen_clear. cbn [screenBuffer w h x y dirty].
  split; [|do 5 (split; [reflexivity|]); split;
           cbn [screenBuffer w h]; [by rewrite Eb | by rewrite El | done]].
  rewrite clearView_get by lia. rewrite Hl.
  replace (w s * h s * 4 / 4) with (w s * h s) by (rewrite Z.div_mul; lia).
  rewrite Z2Nat.id by nia.
  by destruct (Z.leb_spec (4 * 0) k),
              (Z.ltb_spec k (4 * (0 + w s * h s))); try lia.
Qed.

(** X9.  [clear()] blanks the whole tilemap: on a screen as [resize()]
    makes it, every byte of every cell reads 0 afterwards (tile (0, 0),
    which the fragment shader discards), whatever was drawn before; the
    grid size and the cursor are left alone and the screen is marked
    dirty. *)
Theorem clear_blanks_tilemap (s : t) (k : Z) :
  Screen_wf s →
  0 <= k < w s * h s * 4 →
  TypedArray.get (screenBuffer (Screen_clear s)) k = Some 0
  ∧ w (Screen_clear s) = w s ∧ h (Screen_clear s) = h s
  ∧ x (Screen_clear s) = x s ∧ y (Screen_clear s) = y s
  ∧ dirty (Screen_clear s) = true
  ∧ Screen_wf (Screen_clear s).
Proof. exact (Screen_clear_blank s k). Qed.

Lemma clear_blanks_tilemap_witness :
  let s := writeString [65; 66] (moveTo 1 1 (sized 4 4 256)) in
  TypedArray.get (screenBuffer s) 20 = Some 65
  ∧ TypedArray.get (screenBuffer (Screen_clear s)) 20 = Some 0.
Proof.
  intros s. split; [vm_compute; reflexivity|].
  apply (clear_blanks_tilemap s 20); [split; by_evaluation | by_evaluation].
Defined.

End screen_strings.

(** ** The buffer: the range of the stored values *)

Section buffer_bounded.
Import Buffer.

Lemma bounded_writeCharCode x b :
  Buffer_wf b → Buffer_bounded b → Buffer_bounded (writeCharCode x b).
Proof.
  intros Hwf Hb k. destruct (writeCharCode_fields x b) as (-> & _). intros Hk.
  destruct (Z.eq_dec k (i b)) as [->|Hne].
  - unfold cell.
    destruct (writeCharCode_new_cell x b Hwf) as (-> & -> & ->).
    eexists _, _, _. split; [reflexivity|].
    pose proof (Z.mod_pos_bound x (2 ^ 8) ltac:(lia)).
    pose proof (Z.mod_pos_bound (color b) (2 ^ 16) ltac:(lia)).
    change (2 ^ 8) with 256 in *. change (2 ^ 16) with 65536 in *.
    repeat split; try lia; destruct (style b); simpl; lia.
  - rewrite writeCharCode_keeps_cell by (done || lia). apply Hb. lia.
Qed.

Lemma bounded_writeString s b :
  Buffer_wf b → Buffer_bounded b → Buffer_bounded (writeString s b).
Proof.
  revert b. induction s as [|c s IH]; intros b Hwf Hb; simpl; [done|].
  destruct (c =? CharacterCode_NewLine); apply IH;
    auto using wf_newLine, wf_writeCharCode, bounded_writeCharCode.
Qed.

Lemma bounded_run ops b :
  Buffer_wf b → Buffer_bounded b → Buffer_bounded (run ops b).
Proof.
  revert b. induction ops as [|o ops IH]; intros b Hwf Hb; [done|].
  cbn [run fold_left]. apply IH; [by apply wf_step|].
  destruct o; unfold step;
    auto using bounded_writeCharCode, bounded_writeString.
  intros k Hk. simpl in Hk. lia.
Qed.

Lemma bounded_reachable columns ops : Buffer_bounded (run ops (new columns)).
Proof.
  apply bounded_run; [apply wf_new|]. intros k Hk. simpl in Hk. lia.
Qed.

End buffer_bounded.


(** ** The screen: copying rows of a buffer *)

Section screen_copy.
Import Screen.

Lemma static_refl s : Screen_static s s.
Proof. by do 7 (split; [done|]). Qed.

Lemma static_trans s1 s2 s3 :
  Screen_static s1 s2 → Screen_static s2 s3 → Screen_static s1 s3.
Proof.
  intros (E1 & E2 & E3 & E4 & E5 & E6 & E7 & Hwf)
         (F1 & F2 & F3 & F4 & F5 & F6 & F7 & Hwf').
  unfold Screen_static. rewrite F1, F2, F3, F4, F5, F6, F7.
  do 7 (split; [done|]). auto.
Qed.

Lemma putChar_static c x0 y0 col st s :
  Screen_static s (putChar c x0 y0 col st s).
Proof.
  do 7 (split; [done|]). intros [Hb Hl Hs].
  split; cbn [putChar screenBuffer w h];
    [by rewrite bits_storeCell | by rewrite length_storeCell | done].
Qed.

Lemma putChar_index s cx cy :
  0 <= cx <= w s → 0 <= cy <= h s → w s < 2 ^ 31 → h s < 2 ^ 31 →
  (clamp (toInt32 cy) 0 (h s) * w s + clamp (toInt32 cx) 0 (w s)) * 4
  = Screen_cellIndex s cx cy.
Proof.
  intros Hx Hy Hw Hh. rewrite !toInt32_small by lia.
  unfold clamp, Screen_cellIndex.
  rewrite (Z.min_r (h s) cy), (Z.min_r (w s) cx) by lia.
  rewrite (Z.max_r 0 cy), (Z.max_r 0 cx) by lia. lia.
Qed.

Lemma putChar_frame c x0 y0 col st s k :
  0 <= x0 <= w s → 0 <= y0 <= h s → w s < 2 ^ 31 → h s < 2 ^ 31 →
  k < Screen_cellIndex s x0 y0 ∨ Screen_cellIndex s x0 y0 + 4 <= k →
  TypedArray.get (screenBuffer (putChar c x0 y0 col st s)) k
  = TypedArray.get (screenBuffer s) k.
Proof.
  intros Hx Hy Hw Hh Hk. cbn [putChar screenBuffer].
  rewrite putChar_index by done. by apply storeCell_frame.
Qed.

Lemma putChar_shows c x0 y0 col st s :
  Screen_wf s → 0 <= x0 < w s → 0 <= y0 < h s →
  w s < 2 ^ 31 → h s < 2 ^ 31 → 4 <= tileColumns s <= 256 →
  0 <= c < 256 → 0 <= col < 65536 → 0 <= st < 4 →
  Screen_shows (putChar (Some c) x0 y0 (Some col) (Some st) s) x0 y0 st c col.
Proof.
  intros Hwf Hx Hy Hw Hh Ht Hc Hcol Hst.
  apply (storeCell_shows s); try done.
  cbn [putChar screenBuffer]. by rewrite putChar_index by lia.
Qed.

Lemma copyRow_static n x0 b s0 sx dx dyy s :
  Screen_static s (copyRow n x0 b s0 sx dx dyy s).
Proof.
  revert x0 s. induction n as [|n IH]; intros x0 s; [apply static_refl|].
  cbn [copyRow]. destruct (Buffer.i b <? s0 + sx + x0); [apply static_refl|].
  eapply static_trans; [apply putChar_static | apply IH].
Qed.

(** The inner loop writes only the cells it walks over. *)
Lemma copyRow_frame n x0 b s0 sx dx dyy s k :
  0 <= dx + x0 → dx + x0 + Z.of_nat n <= w s → 0 <= dyy <= h s →
  w s < 2 ^ 31 → h s < 2 ^ 31 →
  k < Screen_cellIndex s (dx + x0) dyy
  ∨ Screen_cellIndex s (dx + x0) dyy + 4 * Z.of_nat n <= k →
  TypedArray.get (screenBuffer (copyRow n x0 b s0 sx dx dyy s)) k
  = TypedArray.get (screenBuffer s) k.
Proof.
  revert x0 s. induction n as [|n IH]; intros x0 s Hx0 Hx1 Hy Hw Hh Hk;
    [done|].
  cbn [copyRow]. destruct (Buffer.i b <? s0 + sx + x0); [done|].
  set (s1 := putChar _ _ _ _ _ s).
  assert (Screen_cellIndex s (dx + (x0 + 1)) dyy
          = Screen_cellIndex s (dx + x0) dyy + 4) as E
    by (unfold Screen_cellIndex; lia).
  rewrite IH.
  - apply putChar_frame; try done; lia.
  - lia.
  - change (w s1) with (w s). lia.
  - done.
  - done.
  - done.
  - change (Screen_cellIndex s1) with (Screen_cellIndex s). lia.
Qed.

(** Where the source cells are written cells of the buffer, the inner
    loop shows each of them in the tilemap. *)
Lemma copyRow_shows n x0 b s0 sx dx dyy s :
  Screen_wf s → 0 <= dx + x0 → dx + x0 + Z.of_nat n <= w s →
  0 <= dyy < h s → w s < 2 ^ 31 → h s < 2 ^ 31 →
  4 <= tileColumns s <= 256 → Buffer_bounded b →
  (∀ xx, x0 <= xx < x0 + Z.of_nat n → 0 <= s0 + sx + xx < Buffer.i b) →
  ∀ xx, x0 <= xx < x0 + Z.of_nat n →
    ∃ c col st,
      Buffer.cell b (s0 + sx + xx) = (Some c, Some col, Some st)
      ∧ Screen_shows (copyRow n x0 b s0 sx dx dyy s) (dx + xx) dyy st c col.
Proof.
  revert x0 s.
  induction n as [|n IH]; intros x0 s Hwf Hx0 Hx1 Hy Hw Hh Ht Hb Hp xx Hxx;
    [lia|].
  cbn [copyRow].
  destruct (Z.ltb_spec (Buffer.i b) (s0 + sx + x0)) as [Hlt|_];
    [specialize (Hp x0); lia|].
  set (s1 := putChar _ _ _ _ _ s).
  pose proof (putChar_static
                (TypedArray.get (Buffer.buffer b) (s0 + sx + x0)) (dx + x0)
                dyy (TypedArray.get (Buffer.colors b) (s0 + sx + x0))
                (TypedArray.get (Buffer.styles b) (s0 + sx + x0)) s)
    as (_ & _ & _ & _ & _ & _ & _ & Hwf1).
  destruct (Z.eq_dec xx x0) as [->|Hne].
  - destruct (Hb (s0 + sx + x0)) as (c & col & st & Hcell & Hc & Hcol & Hst);
      [apply Hp; lia|].
    exists c, col, st. split; [done|].
    pose proof (copyRow_static n (x0 + 1) b s0 sx dx dyy s1)
      as (Ew & _ & _ & _ & _ & _ & Et & _).
    apply (shows_preserved s1); [|done|done|].
    + subst s1. unfold Buffer.cell in Hcell.
      injection Hcell as -> -> ->. apply putChar_shows; try done; lia.
    + intros t Ht4. apply copyRow_frame; try done.
      * lia.
      * change (w s1) with (w s). lia.
      * change (h s1) with (h s). lia.
      * left. unfold Screen_cellIndex. change (w s1) with (w s). lia.
  - apply (IH (x0 + 1) s1); try done.
    + by apply Hwf1.
    + lia.
    + change (w s1) with (w s). lia.
    + intros x' Hx'. apply Hp. lia.
    + lia.
Qed.

End screen_copy.


Section screen_copy_rows.
Import Screen.

Lemma copyRows_step n y0 b sx sy w0 dx dy s :
  copyRows (S n) y0 b sx sy w0 dx dy s
  = copyRows n (y0 + 1) b sx sy w0 dx dy
      (Screen_copiedRow b sx sy w0 dx dy y0 s).
Proof.
  cbn [copyRows]. cbv zeta. f_equal.
  unfold Screen_copiedRow, Buffer_rowWidth, Buffer_rowEnd.
  destruct (if sy + y0 + 1 =? Buffer.h b then _ else _),
    (TypedArray.get (Buffer.starts b) (sy + y0)), sx, w0; reflexivity.
Qed.

Lemma copiedRow_static b sx sy w0 dx dy y0 s :
  Screen_static s (Screen_copiedRow b sx sy w0 dx dy y0 s).
Proof.
  unfold Screen_copiedRow.
  destruct (Buffer_rowWidth b (sy + y0)),
    (TypedArray.get (Buffer.starts b) (sy + y0)), sx, w0;
    first [apply copyRow_static | apply static_refl].
Qed.

Lemma copyRows_static n y0 b sx sy w0 dx dy s :
  Screen_static s (copyRows n y0 b sx sy w0 dx dy s).
Proof.
  revert y0 s. induction n as [|n IH]; intros y0 s; [apply static_refl|].
  rewrite copyRows_step.
  eapply static_trans; [apply copiedRow_static | apply IH].
Qed.

(** A byte between the first byte of cell ([x0], [cy]) and the last byte
    of the cell [wd - 1] columns further belongs to that stretch of row
    [cy]. *)
Lemma byteInRect_row s k x0 y0 wd ht cy :
  Screen_cellIndex s x0 cy <= k < Screen_cellIndex s x0 cy + 4 * wd →
  y0 <= cy < y0 + ht → Screen_byteInRect s k x0 y0 wd ht.
Proof.
  intros Hk Hcy.
  pose proof (Z.div_mod (k - Screen_cellIndex s x0 cy) 4 ltac:(lia)) as Hd.
  pose proof (Z.mod_pos_bound (k - Screen_cellIndex s x0 cy) 4 ltac:(lia)).
  assert (0 <= (k - Screen_cellIndex s x0 cy) / 4 < wd)
    by (split; [apply Z.div_pos | apply Z.div_lt_upper_bound]; lia).
  exists (x0 + (k - Screen_cellIndex s x0 cy) / 4), cy,
         ((k - Screen_cellIndex s x0 cy) mod 4).
  repeat split; try lia. unfold Screen_cellIndex in *. lia.
Qed.

Lemma copiedRow_frame b sx sy w0 dx dy y0 s k :
  0 <= dx <= w s → dx + default 0 w0 <= w s → 0 <= dy + y0 < h s →
  w s < 2 ^ 31 → h s < 2 ^ 31 →
  ¬ Screen_byteInRect s k dx (dy + y0) (default 0 w0) 1 →
  TypedArray.get (screenBuffer (Screen_copiedRow b sx sy w0 dx dy y0 s)) k
  = TypedArray.get (screenBuffer s) k.
Proof.
  intros Hdx Hw0 Hy Hw Hh Hk. unfold Screen_copiedRow.
  destruct (Buffer_rowWidth b (sy + y0)) as [rw|]; [|done].
  destruct (TypedArray.get (Buffer.starts b) (sy + y0)) as [s0|]; [|done].
  destruct sx as [sxv|]; [|done]. destruct w0 as [w0v|]; [|done].
  change (default 0 (Some w0v)) with w0v in *.
  apply copyRow_frame; try done; try lia.
  destruct (decide (k < Screen_cellIndex s (dx + 0) (dy + y0)
                    ∨ Screen_cellIndex s (dx + 0) (dy + y0)
                      + 4 * Z.of_nat (Z.to_nat (Z.min (rw - sxv) w0v)) <= k))
    as [|Hin]; [done|].
  exfalso. apply Hk. apply byteInRect_row with (cy := dy + y0); [|lia].
  rewrite Z.add_0_r in Hin. lia.
Qed.

(** The outer loop writes only cells of the destination rectangle. *)
Lemma copyRows_frame n y0 b sx sy w0 dx dy s k :
  0 <= dx <= w s → dx + default 0 w0 <= w s →
  0 <= dy + y0 → dy + y0 + Z.of_nat n <= h s →
  w s < 2 ^ 31 → h s < 2 ^ 31 →
  ¬ Screen_byteInRect s k dx (dy + y0) (default 0 w0) (Z.of_nat n) →
  TypedArray.get (screenBuffer (copyRows n y0 b sx sy w0 dx dy s)) k
  = TypedArray.get (screenBuffer s) k.
Proof.
  revert y0 s.
  induction n as [|n IH]; intros y0 s Hdx Hw0 Hy0 Hy1 Hw Hh Hk; [done|].
  rewrite copyRows_step.
  pose proof (copiedRow_static b sx sy w0 dx dy y0 s)
    as (Ew & Eh & _).
  rewrite IH.
  - apply copiedRow_frame; try done; [lia|].
    intros (cx & cy & t & Hcx & Hcy & Ht & ->). apply Hk.
    exists cx, cy, t. repeat split; try done; lia.
  - by rewrite Ew.
  - by rewrite Ew.
  - lia.
  - rewrite Eh. lia.
  - by rewrite Ew.
  - by rewrite Eh.
  - intros (cx & cy & t & Hcx & Hcy & Ht & ->). apply Hk.
    exists cx, cy, t. unfold Screen_cellIndex. rewrite Ew.
    repeat split; try done; lia.
Qed.

(** Where a row starts and ends, in a buffer whose counter has not
    wrapped. *)
Lemma row_bounds b r s0 rw :
  Buffer_wf b → Buffer.i b < 2 ^ 32 → 0 <= r < Buffer.h b →
  TypedArray.get (Buffer.starts b) r = Some s0 →
  Buffer_rowWidth b r = Some rw →
  0 <= s0 ∧ s0 + rw <= Buffer.i b.
Proof.
  intros Hwf Hi Hr Hs0 Hrw.
  pose proof (wf_rows b Hwf Hi) as Hord.
  pose proof (rows_ordered_nondecreasing b Hord) as Hnd.
  destruct Hord as [_ (sl & Hsl & Hle)].
  destruct (Hnd 0 r) as (a & e & Ha & He & Hae); [lia..|].
  rewrite (wf_first_row b Hwf) in Ha. injection Ha as <-.
  rewrite Hs0 in He. injection He as <-. split; [lia|].
  unfold Buffer_rowWidth, Buffer_rowEnd in Hrw. rewrite Hs0 in Hrw.
  destruct (Z.eqb_spec (r + 1) (Buffer.h b)) as [E|E].
  - injection Hrw as <-. lia.
  - destruct (Hnd (r + 1) (Buffer.h b - 1)) as (a' & e' & Ha' & He' & Hae');
      [lia..|].
    rewrite Ha' in Hrw. injection Hrw as <-.
    rewrite Hsl in He'. injection He' as <-. lia.
Qed.

(** The outer loop shows, row by row, the cells of the source window. *)
Lemma copyRows_shows n y0 b sxv sy w0v dx dy s :
  Screen_wf s → 0 <= dx <= w s → dx + w0v <= w s →
  0 <= dy + y0 → dy + y0 + Z.of_nat n <= h s →
  w s < 2 ^ 31 → h s < 2 ^ 31 → 4 <= tileColumns s <= 256 →
  Buffer_wf b → Buffer.i b < 2 ^ 32 → Buffer_bounded b →
  0 <= sxv → 0 <= sy + y0 → sy + y0 + Z.of_nat n <= Buffer.h b →
  ∀ yy xx s0 rw, y0 <= yy < y0 + Z.of_nat n →
    TypedArray.get (Buffer.starts b) (sy + yy) = Some s0 →
    Buffer_rowWidth b (sy + yy) = Some rw →
    0 <= xx < Z.min (rw - sxv) w0v →
    ∃ c col st,
      Buffer.cell b (s0 + sxv + xx) = (Some c, Some col, Some st)
      ∧ Screen_shows (copyRows n y0 b (Some sxv) sy (Some w0v) dx dy s)
          (dx + xx) (dy + yy) st c col.
Proof.
  revert y0 s.
  induction n as [|n IH];
    intros y0 s Hwf Hdx Hw0 Hy0 Hy1 Hw Hh Ht Hbwf Hi Hbd Hsx Hr0 Hr1
           yy xx s0 rw Hyy Hs0 Hrw Hxx; [lia|].
  rewrite copyRows_step.
  pose proof (copiedRow_static b (Some sxv) sy (Some w0v) dx dy y0 s)
    as (Ew & Eh & _ & _ & _ & _ & Et & Hwf').
  destruct (Z.eq_dec yy y0) as [->|Hne].
  - destruct (row_bounds b (sy + y0) s0 rw) as [Hs0' Hend];
      [done | done | lia | done | done |].
    destruct (copyRow_shows (Z.to_nat (Z.min (rw - sxv) w0v)) 0 b s0 sxv dx
                (dy + y0) s) with (xx := xx)
      as (c & col & st & Hcell & Hshow); try done; try lia.
    exists c, col, st. split; [done|].
    pose proof (copyRows_static n (y0 + 1) b (Some sxv) sy (Some w0v) dx dy
                  (Screen_copiedRow b (Some sxv) sy (Some w0v) dx dy y0 s))
      as (Ew' & _ & _ & _ & _ & _ & Et' & _).
    apply (shows_preserved (Screen_copiedRow b (Some sxv) sy (Some w0v)
                              dx dy y0 s)); [|done|done|].
    + unfold Screen_copiedRow. by rewrite Hrw, Hs0.
    + intros t Ht4.
      apply copyRows_frame; change (default 0 (Some w0v)) with w0v;
        rewrite ?Ew, ?Eh; try lia.
      unfold Screen_byteInRect, Screen_cellIndex.
      rewrite Ew. intros (cx & cy & t' & Hcx & Hcy & Ht' & E).
      assert (w s * (dy + y0 + 1) <= w s * cy)
        by (apply Z.mul_le_mono_nonneg_l; lia).
      lia.
  - apply (IH (y0 + 1) _) with (rw := rw); rewrite ?Ew, ?Eh, ?Et;
      try done; try lia.
    by apply Hwf'.
Qed.

End screen_copy_rows.


Section screen_writeBuffer.
Import Screen.

Lemma writeBuffer_window b sx sy sw sh s sx' sy' w0 h0 :
  Screen_window b sx sy sw sh s = (sx', sy', w0, h0) →
  writeBuffer b sx sy sw sh s
  = invalidate (copyRows (Z.to_nat h0) 0 b sx' sy' w0 (x s) (y s) s).
Proof. unfold Screen_window, writeBuffer. by intros [= <- <- <- <-]. Qed.

Lemma window_fits b sx sy sw sh s sx' sy' w0 h0 :
  0 <= x s <= w s →
  Screen_window b sx sy sw sh s = (sx', sy', w0, h0) →
  x s + default 0 w0 <= w s ∧ y s + h0 <= h s.
Proof.
  unfold Screen_window. intros Hx [= _ _ <- <-]. split; [|lia].
  destruct (clamp_num _ _ _) as [v|]; cbn; lia.
Qed.

(** [writeBuffer] changes no byte outside the destination rectangle. *)
Lemma writeBuffer_frame
    (b : Buffer.t) (sx sy sw sh : Z) (s : t)
    (sx' : num) (sy' : Z) (w0 : num) (h0 : Z) :
  0 <= x s <= w s → 0 <= y s <= h s → w s < 2 ^ 31 → h s < 2 ^ 31 →
  Screen_window b sx sy sw sh s = (sx', sy', w0, h0) →
  let s' := writeBuffer b sx sy sw sh s in
  x s + default 0 w0 <= w s ∧ y s + h0 <= h s
  ∧ (∀ k, ¬ Screen_byteInRect s k (x s) (y s) (default 0 w0) h0 →
       TypedArray.get (screenBuffer s') k = TypedArray.get (screenBuffer s) k)
  ∧ w s' = w s ∧ h s' = h s ∧ x s' = x s ∧ y s' = y s ∧ dirty s' = true.
Proof.
  intros Hx Hy Hw Hh E s'. subst s'.
  destruct (window_fits b sx sy sw sh s sx' sy' w0 h0 Hx E) as [Hw0 Hh0].
  rewrite (writeBuffer_window b sx sy sw sh s sx' sy' w0 h0 E).
  pose proof (copyRows_static (Z.to_nat h0) 0 b sx' sy' w0 (x s) (y s) s)
    as (Ew & Eh & Ex & Ey & _).
  split; [done|]. split; [done|]. split; [|done].
  intros k Hk. cbn [invalidate screenBuffer].
  apply copyRows_frame; try done; try lia.
  intros (cx & cy & t & Hcx & Hcy & Ht & ->). apply Hk.
  exists cx, cy, t. repeat split; try done; lia.
Qed.

(** X10.  Whatever the buffer and the requested source window,
    [writeBuffer] writes only inside the destination rectangle: the
    rectangle of [w] by [h] cells (the clamped width and height the method
    computes) whose top left cell is the cursor.  That rectangle lies
    inside the grid, every byte of the tilemap outside it keeps its
    value, the size of the grid and the cursor are unchanged, and the
    screen is marked dirty. *)
Theorem writeBuffer_stays_in_window
    (b : Buffer.t) (sx sy sw sh : Z) (s : t)
    (sx' : num) (sy' : Z) (w0 : num) (h0 : Z) :
  0 <= x s <= w s → 0 <= y s <= h s → w s < 2 ^ 31 → h s < 2 ^ 31 →
  Screen_window b sx sy sw sh s = (sx', sy', w0, h0) →
  let s' := writeBuffer b sx sy sw sh s in
  x s + default 0 w0 <= w s ∧ y s + h0 <= h s
  ∧ (∀ k, ¬ Screen_byteInRect s k (x s) (y s) (default 0 w0) h0 →
       TypedArray.get (screenBuffer s') k = TypedArray.get (screenBuffer s) k)
  ∧ w s' = w s ∧ h s' = h s ∧ x s' = x s ∧ y s' = y s ∧ dirty s' = true.
Proof.
  exact (writeBuffer_frame b sx sy sw sh s sx' sy' w0 h0).
Qed.

Lemma writeBuffer_stays_in_window_witness :
  let b := Buffer.run [Buffer.WriteString [65; 66; 10; 67]]
             Buffer.new_default in
  let s := moveTo 1 1 (sized 4 4 256) in
  let s' := writeBuffer b 0 0 1024 1024 s in
  x s + default 0 (Some 2) <= w s ∧ y s + 2 <= h s
  ∧ (∀ k, ¬ Screen_byteInRect s k (x s) (y s) (default 0 (Some 2)) 2 →
       TypedArray.get (screenBuffer s') k = TypedArray.get (screenBuffer s) k)
  ∧ w s' = w s ∧ h s' = h s ∧ x s' = x s ∧ y s' = y s ∧ dirty s' = true.
Proof.
  intros b s.
  apply (writeBuffer_stays_in_window b 0 0 1024 1024 s (Some 0) 0 (Some 2) 2);
    by_evaluation.
Defined.

(** [writeBuffer] shows the cells of the source window. *)
Lemma writeBuffer_shows
    (b : Buffer.t) (sx sy sw sh : Z) (s : t) :
  Buffer_wf b → Buffer_bounded b → Buffer.i b < 2 ^ 32 →
  Screen_wf s → 0 <= x s <= w s → 0 <= y s <= h s →
  w s < 2 ^ 31 → h s < 2 ^ 31 → 4 <= tileColumns s <= 256 →
  ∃ sxv syv w0v h0v,
    Screen_window b sx sy sw sh s = (Some sxv, syv, Some w0v, h0v)
    ∧ 0 <= sxv ∧ 0 <= syv ∧ 0 <= h0v ∧ syv + h0v <= Buffer.h b
    ∧ ∀ yy xx s0 rw,
        0 <= yy < h0v →
        TypedArray.get (Buffer.starts b) (syv + yy) = Some s0 →
        Buffer_rowWidth b (syv + yy) = Some rw →
        0 <= xx < Z.min (rw - sxv) w0v →
        ∃ c col st,
          Buffer.cell b (s0 + sxv + xx) = (Some c, Some col, Some st)
          ∧ Screen_shows (writeBuffer b sx sy sw sh s)
              (x s + xx) (y s + yy) st c col.
Proof.
  intros Hbwf Hbd Hi Hwf Hx Hy Hw Hh Ht.
  destruct (wf_width b Hbwf) as [m Hm].
  destruct (rowLength_wf b Hbwf) as [r Hr].
  pose proof (wf_h b Hbwf) as [Hh1 _].
  assert (Buffer.w b = Some (Z.max m r)) as Hbw
    by (unfold Buffer.w; by rewrite Hm, Hr).
  eexists _, _, _, _. split.
  { unfold Screen_window. rewrite Hbw.
    cbn [clamp_num Math_max Math_min num_sub]. reflexivity. }
  set (syv := clamp (toInt32 sy) 0 (Buffer.h b - 1)).
  set (sxv := Z.max 0 _). set (w0v := Z.min (Z.max 0 _) _).
  set (h0v := Z.min _ _).
  assert (0 <= syv <= Buffer.h b - 1) by (apply clamp_range; lia).
  assert (0 <= clamp (toInt32 sh) 0 (Buffer.h b - syv) <= Buffer.h b - syv)
    by (apply clamp_range; lia).
  split; [lia|]. split; [lia|]. split; [lia|]. split; [lia|].
  intros yy xx s0 rw Hyy Hs0 Hrw Hxx.
  destruct (copyRows_shows (Z.to_nat h0v) 0 b sxv syv w0v (x s) (y s) s)
    with (yy := yy) (xx := xx) (s0 := s0) (rw := rw)
    as (c & col & st & Hcell & Hshow); try done; try lia.
  exists c, col, st. split; [done|].
  rewrite (writeBuffer_window b sx sy sw sh s (Some sxv) syv (Some w0v) h0v).
  - exact Hshow.
  - unfold Screen_window. rewrite Hbw. reflexivity.
Qed.

(** X11.  [writeBuffer] copies the source window cell by cell.  For a
    buffer built by the constructor and its methods whose write index is
    below 2^32, and a screen as [resize()] sizes it (a byte tilemap of
    [w * h * 4] bytes) with fewer than 2^31 columns and rows, 4 to 256
    tiles per sprite-sheet row and the cursor inside the closed bounds
    [0 <= x <= w], [0 <= y <= h], the clamped source column [sx], source row
    [sy], width [w] and height [h] are numbers, the window lies in the
    buffer's rows, and for every row [yy < h] and every column
    [xx < Math.min(width of row sy + yy - sx, w)] the buffer cell
    [starts[sy + yy] + sx + xx] is a written cell and the tilemap cell
    ([x + xx], [y + yy]) shows its character in its style and color. *)
Theorem writeBuffer_shows_window
    (columns : Z) (ops : list Buffer.op) (sx sy sw sh : Z) (s : t) :
  let b := Buffer.run ops (Buffer.new columns) in
  Buffer.i b < 2 ^ 32 →
  Screen_wf s → 0 <= x s <= w s → 0 <= y s <= h s →
  w s < 2 ^ 31 → h s < 2 ^ 31 → 4 <= tileColumns s <= 256 →
  ∃ sxv syv w0v h0v,
    Screen_window b sx sy sw sh s = (Some sxv, syv, Some w0v, h0v)
    ∧ 0 <= sxv ∧ 0 <= syv ∧ 0 <= h0v ∧ syv + h0v <= Buffer.h b
    ∧ ∀ yy xx s0 rw,
        0 <= yy < h0v →
        TypedArray.get (Buffer.starts b) (syv + yy) = Some s0 →
        Buffer_rowWidth b (syv + yy) = Some rw →
        0 <= xx < Z.min (rw - sxv) w0v →
        ∃ c col st,
          Buffer.cell b (s0 + sxv + xx) = (Some c, Some col, Some st)
          ∧ Screen_shows (writeBuffer b sx sy sw sh s)
              (x s + xx) (y s + yy) st c col.
Proof.
  intros b. apply writeBuffer_shows;
    [apply wf_reachable | apply bounded_reachable].
Qed.

Lemma writeBuffer_shows_window_witness :
  let b := Buffer.run [Buffer.WriteString [65; 66; 10; 67]]
             Buffer.new_default in
  let s := moveTo 1 1 (sized 4 4 256) in
  ∃ sxv syv w0v h0v,
    Screen_window b 0 0 1024 1024 s = (Some sxv, syv, Some w0v, h0v)
    ∧ 0 <= sxv ∧ 0 <= syv ∧ 0 <= h0v ∧ syv + h0v <= Buffer.h b
    ∧ ∀ yy xx s0 rw,
        0 <= yy < h0v →
        TypedArray.get (Buffer.starts b) (syv + yy) = Some s0 →
        Buffer_rowWidth b (syv + yy) = Some rw →
        0 <= xx < Z.min (rw - sxv) w0v →
        ∃ c col st,
          Buffer.cell b (s0 + sxv + xx) = (Some c, Some col, Some st)
          ∧ Screen_shows (writeBuffer b 0 0 1024 1024 s)
              (x s + xx) (y s + yy) st c col.
Proof.
  intros b s.
  apply (writeBuffer_shows_window (1024 * 1024)
           [Buffer.WriteString [65; 66; 10; 67]] 0 0 1024 1024 s);
    [| split | ..]; by_evaluation.
Defined.

End screen_writeBuffer.


(** ** Selections *)

Section selections.
Import Selection.

Lemma prefix_new : Selection_prefix new 0.
Proof.
  split; [done | lia | lia |].
  intros j Hj. unfold new. apply lookup_replicate_2. lia.
Qed.

Lemma length_selection_store buffer i v :
  length (store buffer i v) = length buffer.
Proof. apply length_insert. Qed.

(** Under the invariant, [select] fills the first free pair, if any. *)
Lemma selectLoop_prefix buffer n x y l fuel k :
  Selection_prefix buffer n → (k <= n)%nat → (513 <= fuel + k)%nat →
  selectLoop fuel (2 * k) x y l buffer
  = if decide (n < 512)%nat
    then store (store buffer (2 * n) (pack x y)) (S (2 * n)) l
    else buffer.
Proof.
  intros [Hlen Hn Htaken Hfree]. revert k.
  induction fuel as [|fuel IH]; intros k Hk Hfuel; [lia|].
  cbn [selectLoop].
  destruct (decide (k < n)%nat) as [Hlt|Hge].
  - destruct (Htaken k Hlt) as (v & -> & Hv).
    replace (S (S (2 * k))) with (2 * S k)%nat by lia.
    destruct v; [done | apply IH; lia..].
  - assert (k = n) as -> by lia.
    destruct (decide (n < 512)%nat) as [Hfull|Hfull].
    + by rewrite Hfree by lia.
    + rewrite (lookup_ge_None_2 buffer (2 * n)) by lia. done.
Qed.

Lemma select_prefix buffer n x y l :
  Selection_prefix buffer n →
  select x y l buffer
  = if decide (n < 512)%nat
    then store (store buffer (2 * n) (pack x y)) (S (2 * n)) l
    else buffer.
Proof.
  intros Hp. unfold select.
  apply (selectLoop_prefix buffer n x y l (length buffer) 0 Hp); [lia|].
  rewrite (prefix_length buffer n Hp). lia.
Qed.

(** The two stores of [select], read back. *)
Lemma select_stores buffer n v l i :
  length buffer = 1024%nat → (n < 512)%nat →
  store (store buffer (2 * n) v) (S (2 * n)) l !! i
  = if decide (i = 2 * n)%nat then Some (toInt32 v)
    else if decide (i = S (2 * n)) then Some (toInt32 l)
    else buffer !! i.
Proof.
  intros Hlen Hn. unfold store.
  destruct (decide (i = 2 * n)%nat) as [->|H0].
  - rewrite list_lookup_insert_ne by lia.
    apply list_lookup_insert_eq. lia.
  - destruct (decide (i = S (2 * n))) as [->|H1].
    + apply list_lookup_insert_eq. rewrite length_insert. lia.
    + by rewrite !list_lookup_insert_ne by lia.
Qed.

Lemma prefix_select buffer n x y l :
  Selection_prefix buffer n →
  Selection_prefix (select x y l buffer)
    (if decide (n < 512)%nat
     then (if decide (toInt32 (pack x y) = 0) then n else S n)
     else n).
Proof.
  intros Hp. rewrite (select_prefix buffer n x y l Hp).
  pose proof Hp as [Hlen Hn Htaken Hfree].
  destruct (decide (n < 512)%nat) as [Hfull|Hfull]; [|done].
  split.
  - by rewrite !length_selection_store.
  - destruct (decide (toInt32 (pack x y) = 0)); lia.
  - intros j Hj. rewrite select_stores by done.
    destruct (decide (toInt32 (pack x y) = 0)) as [E|E].
    + rewrite decide_False, decide_False by lia. apply Htaken. lia.
    + destruct (decide (j = n)) as [->|Hne].
      * rewrite decide_True by done. eauto.
      * rewrite decide_False, decide_False by lia. apply Htaken. lia.
  - intros j Hj. rewrite select_stores by done.
    destruct (decide (toInt32 (pack x y) = 0)) as [E|E].
    + destruct (decide (j = n)) as [->|Hne].
      * rewrite decide_True by done. by rewrite E.
      * rewrite decide_False, decide_False by lia. apply Hfree. lia.
    + rewrite decide_False, decide_False by lia. apply Hfree. lia.
Qed.

(** [clearAllSelections] frees the pairs in use and touches nothing
    else. *)
Lemma clearLoop_lookup fuel k n buffer :
  length buffer = 1024%nat → (k <= n <= 512)%nat → (513 <= fuel + k)%nat →
  (∀ j, (k <= j < n)%nat → ∃ v, buffer !! (2 * j)%nat = Some v ∧ v ≠ 0) →
  (∀ j, (n <= j < 512)%nat → buffer !! (2 * j)%nat = Some 0) →
  length (clearLoop fuel (2 * k) buffer) = 1024%nat
  ∧ (∀ j, (k <= j < n)%nat →
       clearLoop fuel (2 * k) buffer !! (2 * j)%nat = Some 0)
  ∧ (∀ i, (∀ j, (k <= j < n)%nat → i ≠ (2 * j)%nat) →
       clearLoop fuel (2 * k) buffer !! i = buffer !! i).
Proof.
  revert k buffer.
  induction fuel as [|fuel IH]; intros k buffer Hlen Hk Hfuel Htaken Hfree;
    [lia|].
  cbn [clearLoop].
  destruct (decide (k < n)%nat) as [Hlt|Hge].
  - destruct (Htaken k) as (v & Ev & Hv); [lia|]. rewrite Ev.
    replace (S (S (2 * k))) with (2 * S k)%nat by lia.
    destruct (IH (S k) (store buffer (2 * k) 0)) as (Hl & Hz & Hsame).
    + by rewrite length_selection_store.
    + lia.
    + lia.
    + intros j Hj. unfold store. rewrite list_lookup_insert_ne by lia.
      apply Htaken. lia.
    + intros j Hj. unfold store. rewrite list_lookup_insert_ne by lia.
      by apply Hfree.
    + assert (length (clearLoop fuel (2 * S k) (store buffer (2 * k) 0))
              = 1024%nat
              ∧ (∀ j, (k <= j < n)%nat →
                   clearLoop fuel (2 * S k) (store buffer (2 * k) 0)
                     !! (2 * j)%nat = Some 0)
              ∧ (∀ i, (∀ j, (k <= j < n)%nat → i ≠ (2 * j)%nat) →
                   clearLoop fuel (2 * S k) (store buffer (2 * k) 0) !! i
                   = buffer !! i)) as Hres; [|by destruct v].
      split; [done|]. split.
      * intros j Hj. destruct (decide (j = k)) as [->|Hne]; [|apply Hz; lia].
        rewrite Hsame by (intros j Hj'; lia).
        unfold store. apply list_lookup_insert_eq. lia.
      * intros i Hi. rewrite Hsame by (intros j Hj; apply Hi; lia).
        unfold store. apply list_lookup_insert_ne.
        intros E. by apply (Hi k); [lia|].
  - assert (k = n) as -> by lia.
    assert (length buffer = 1024%nat
            ∧ (∀ j, (n <= j < n)%nat → buffer !! (2 * j)%nat = Some 0)
            ∧ (∀ i : nat, (∀ j, (n <= j < n)%nat → i ≠ (2 * j)%nat) →
                 buffer !! i = buffer !! i)) as Hres
      by (split; [done|]; split; [intros; lia | done]).
    destruct (decide (n < 512)%nat) as [Hfull|Hfull].
    + by rewrite Hfree by lia.
    + by rewrite (lookup_ge_None_2 buffer (2 * n)) by lia.
Qed.

Lemma clearAllSelections_lookup buffer n :
  Selection_prefix buffer n →
  length (clearAllSelections buffer) = 1024%nat
  ∧ (∀ j, (j < 512)%nat → clearAllSelections buffer !! (2 * j)%nat = Some 0)
  ∧ (∀ j, clearAllSelections buffer !! S (2 * j) = buffer !! S (2 * j)).
Proof.
  intros [Hlen Hn Htaken Hfree]. unfold clearAllSelections.
  destruct (clearLoop_lookup (length buffer) 0 n buffer)
    as (Hl & Hz & Hsame); try done; try lia.
  { intros j Hj. apply Htaken. lia. }
  split; [done|]. split.
  - intros j Hj. destruct (decide (j < n)%nat); [apply Hz; lia|].
    rewrite Hsame by (intros j' Hj'; lia). apply Hfree. lia.
  - intros j. apply Hsame. intros j' Hj'. lia.
Qed.

Lemma prefix_clearAllSelections buffer n :
  Selection_prefix buffer n →
  Selection_prefix (clearAllSelections buffer) 0.
Proof.
  intros Hp. destruct (clearAllSelections_lookup buffer n Hp) as (Hl & Hz & _).
  split; [done | lia | lia |]. intros j Hj. apply Hz. lia.
Qed.

Lemma prefix_fold ops buffer n :
  Selection_prefix buffer n →
  ∃ n', Selection_prefix (fold_left step ops buffer) n'.
Proof.
  revert buffer n. induction ops as [|o ops IH]; intros buffer n Hp; [eauto|].
  cbn [fold_left]. destruct o as [x y l|]; cbn [step].
  - eapply IH, prefix_select, Hp.
  - eapply IH, prefix_clearAllSelections, Hp.
Qed.

Lemma prefix_reachable ops : ∃ n, Selection_prefix (run ops) n.
Proof. apply (prefix_fold ops new 0), prefix_new. Qed.

(** What [renderSelectionBuffer] fills: one rectangle per pair in use. *)
Lemma renderLoop_prefix buffer n tileW tileH fuel k :
  Selection_prefix buffer n → (k <= n)%nat → (513 <= fuel + k)%nat →
  renderLoop fuel (2 * k) tileW tileH buffer
  = map (λ j, rectOf tileW tileH (default 0 (buffer !! (2 * j)%nat))
                (buffer !! S (2 * j)))
        (seq k (n - k)).
Proof.
  intros [Hlen Hn Htaken Hfree]. revert k.
  induction fuel as [|fuel IH]; intros k Hk Hfuel; [lia|].
  cbn [renderLoop].
  destruct (decide (k < n)%nat) as [Hlt|Hge].
  - destruct (Htaken k Hlt) as (v & Ev & Hv).
    replace (n - k)%nat with (S (n - S k)) by lia. cbn [seq map].
    rewrite Ev. cbn [default].
    replace (S (S (2 * k))) with (2 * S k)%nat by lia.
    rewrite <- IH by lia. by destruct v.
  - assert (k = n) as -> by lia. rewrite Nat.sub_diag. cbn [seq map].
    destruct (decide (n < 512)%nat) as [Hfull|Hfull].
    + by rewrite Hfree by lia.
    + by rewrite (lookup_ge_None_2 buffer (2 * n)) by lia.
Qed.

Lemma render_prefix buffer n tileW tileH :
  Selection_prefix buffer n →
  renderSelectionBuffer tileW tileH buffer
  = map (λ j, rectOf tileW tileH (default 0 (buffer !! (2 * j)%nat))
                (buffer !! S (2 * j)))
        (seq 0 n).
Proof.
  intros Hp. unfold renderSelectionBuffer.
  pose proof (renderLoop_prefix buffer n tileW tileH (length buffer) 0 Hp)
    as E.
  rewrite Nat.sub_0_r in E. apply E; [lia|].
  rewrite (prefix_length buffer n Hp). lia.
Qed.

(** The packed position of a cell of the first 32767 columns and 65535
    rows, and what [renderSelectionBuffer] reads back from it. *)
Lemma pack_value x y :
  0 <= x < 32767 → 0 <= y < 65535 →
  toInt32 (pack x y) = (x + 1) * 65536 + (y + 1).
Proof.
  intros Hx Hy. unfold pack.
  rewrite (toInt32_small (x + 1)), (toInt32_small (y + 1)) by lia.
  assert (Z.shiftl (x + 1) 16 = (x + 1) * 65536) as E
    by (by rewrite Z.shiftl_mul_pow2 by lia).
  rewrite (toInt32_small (Z.shiftl (x + 1) 16)) by (rewrite E; lia).
  rewrite lor_shiftl_low by lia. change (2 ^ 16) with 65536.
  apply toInt32_small. lia.
Qed.

Lemma rectOf_pack tileW tileH x y l :
  0 <= x < 32767 → 0 <= y < 65535 →
  rectOf tileW tileH ((x + 1) * 65536 + (y + 1)) l
  = {| rectX := x * tileW; rectY := ((y + 1) mod 256 - 1) * tileH;
       rectW := option_map (λ l, l * tileW) l; rectH := tileH |}.
Proof.
  intros Hx Hy. unfold rectOf. f_equal.
  - rewrite Z.shiftr_div_pow2 by lia. change (2 ^ 16) with 65536.
    rewrite Z.div_add_l by lia. rewrite Z.div_small by lia. f_equal. lia.
  - change 255 with (Z.ones 8). rewrite Z.land_ones by lia.
    change (2 ^ 8) with 256.
    replace ((x + 1) * 65536 + (y + 1))
      with ((y + 1) + ((x + 1) * 256) * 256) by lia.
    by rewrite Z.mod_add by lia.
Qed.

(** X12.  A selection made while the last pair of the selection buffer
    is free is the next rectangle [renderSelectionBuffer] fills, after
    those of the earlier selections: for a column [x] in 0..32766 and a
    row [y] in 0..65534 the rectangle starts at [x * tileW], is
    [(l | 0) * tileW] wide and [tileH] high.  Its top is
    [((y + 1) mod 256 - 1) * tileH]: the row is read back through the
    mask [0xFF], so it is [y * tileH] for the rows below 255 only. *)
Theorem select_is_rendered
    (ops : list op) (x y l tileW tileH : Z) :
  let buffer := run ops in
  buffer !! 1022%nat = Some 0 →
  0 <= x < 32767 → 0 <= y < 65535 →
  renderSelectionBuffer tileW tileH (select x y l buffer)
  = renderSelectionBuffer tileW tileH buffer
    ++ [{| rectX := x * tileW; rectY := ((y + 1) mod 256 - 1) * tileH;
           rectW := Some (toInt32 l * tileW); rectH := tileH |}].
Proof.
  intros buffer Hfree Hx Hy.
  destruct (prefix_reachable ops) as [n Hp]. fold buffer in Hp.
  assert (n < 512)%nat as Hn.
  { destruct (decide (n < 512)%nat) as [|Hge]; [done|].
    destruct (prefix_taken buffer n Hp 511%nat) as (v & Ev & Hv);
      [pose proof (prefix_count buffer n Hp); lia|].
    change (2 * 511)%nat with 1022%nat in Ev. congruence. }
  pose proof (prefix_select buffer n x y l Hp) as Hp'.
  rewrite decide_True in Hp' by done.
  rewrite decide_False in Hp' by (rewrite pack_value by done; lia).
  rewrite (render_prefix _ _ tileW tileH Hp').
  rewrite (render_prefix _ _ tileW tileH Hp).
  rewrite (select_prefix buffer n x y l Hp), decide_True by done.
  pose proof (prefix_length buffer n Hp) as Hlen.
  rewrite seq_S, map_app. cbn [map]. f_equal.
  - apply map_ext_in. intros j Hj. apply in_seq in Hj.
    rewrite !select_stores by done.
    by rewrite !decide_False by lia.
  - rewrite !select_stores by done.
    rewrite decide_True by done. rewrite decide_False by lia.
    rewrite decide_True by done. cbn [default]. unfold id.
    rewrite pack_value by done. by rewrite rectOf_pack.
Qed.

Lemma select_is_rendered_witness :
  renderSelectionBuffer 8 16 (select 3 300 5 (run [Select 0 0 2]))
  = renderSelectionBuffer 8 16 (run [Select 0 0 2])
    ++ [{| rectX := 3 * 8; rectY := ((300 + 1) mod 256 - 1) * 16;
           rectW := Some (toInt32 5 * 8); rectH := 16 |}].
Proof.
  apply (select_is_rendered [Select 0 0 2] 3 300 5 8 16); by_evaluation.
Defined.

(** X13.  The selection buffer holds 512 selections; once its last pair
    is taken, [select] changes nothing. *)
Theorem select_when_full (ops : list op) (x y l : Z) :
  let buffer := run ops in
  buffer !! 1022%nat ≠ Some 0 →
  select x y l buffer = buffer.
Proof.
  intros buffer Hlast.
  destruct (prefix_reachable ops) as [n Hp]. fold buffer in Hp.
  rewrite (select_prefix buffer n x y l Hp).
  destruct (decide (n < 512)%nat) as [Hn|Hn]; [|done].
  exfalso. apply Hlast.
  apply (prefix_free buffer n Hp 511%nat). lia.
Qed.

Lemma select_when_full_witness :
  select 7 7 7 (run (replicate 512 (Select 1 2 3)))
  = run (replicate 512 (Select 1 2 3)).
Proof.
  apply (select_when_full (replicate 512 (Select 1 2 3)) 7 7 7).
  vm_compute. discriminate.
Defined.

(** X14.  [clearAllSelections()] frees every pair: in every state
    reached through [select] and [clearAllSelections] it sets each packed
    position to 0 and leaves the lengths in place, after it
    [renderSelectionBuffer] fills nothing, and the next [select] uses the
    first pair. *)
Theorem clearAllSelections_frees_all
    (ops : list op) (x y l tileW tileH : Z) (j : nat) :
  let buffer := run ops in
  let cleared := clearAllSelections buffer in
  (j < 512)%nat →
  cleared !! (2 * j)%nat = Some 0
  ∧ cleared !! S (2 * j) = buffer !! S (2 * j)
  ∧ renderSelectionBuffer tileW tileH cleared = []
  ∧ select x y l cleared = store (store cleared 0 (pack x y)) 1 l.
Proof.
  intros buffer cleared Hj.
  destruct (prefix_reachable ops) as [n Hp]. fold buffer in Hp.
  destruct (clearAllSelections_lookup buffer n Hp) as (Hl & Hz & Hsame).
  pose proof (prefix_clearAllSelections buffer n Hp) as Hp0.
  fold cleared in Hl, Hz, Hsame, Hp0.
  split; [by apply Hz|]. split; [apply Hsame|]. split.
  - by rewrite (render_prefix cleared 0 tileW tileH Hp0).
  - by rewrite (select_prefix cleared 0 x y l Hp0).
Qed.

Lemma clearAllSelections_frees_all_witness :
  let buffer := run [Select 0 0 2; Select 4 1 3] in
  let cleared := clearAllSelections buffer in
  buffer !! 2%nat = Some 327682
  ∧ cleared !! (2 * 1)%nat = Some 0
  ∧ cleared !! S (2 * 1) = buffer !! S (2 * 1)
  ∧ renderSelectionBuffer 8 16 cleared = []
  ∧ select 1 1 1 cleared = store (store cleared 0 (pack 1 1)) 1 1.
Proof.
  intros buffer cleared. split; [vm_compute; reflexivity|].
  apply (clearAllSelections_frees_all [Select 0 0 2; Select 4 1 3]
           1 1 1 8 16 1). lia.
Defined.

End selections.


(** ** Formatting numbers *)

Section formatting.

Lemma decimal_app fuel n acc : decimal fuel n acc = decimal fuel n [] ++ acc.
Proof.
  revert n acc. induction fuel as [|fuel IH]; intros n acc; [done|].
  cbn [decimal]. destruct (n <? 10); [done|].
  rewrite (IH (n / 10) (_ :: acc)), (IH (n / 10) [_]).
  by rewrite <- app_assoc.
Qed.

(** More fuel than there are binary digits changes nothing. *)
Lemma decimal_fuel fuel fuel' n acc :
  0 <= n < 2 ^ Z.of_nat (S fuel) → (fuel <= fuel')%nat →
  decimal (S fuel') n acc = decimal (S fuel) n acc.
Proof.
  revert fuel' n acc.
  induction fuel as [|fuel IH]; intros fuel' n acc Hn Hf.
  - cbn [decimal]. change (2 ^ Z.of_nat 1) with 2 in Hn.
    by destruct (Z.ltb_spec n 10); [|lia].
  - destruct fuel' as [|fuel'']; [lia|].
    rewrite (Nat2Z.inj_succ (S fuel)), Z.pow_succ_r in Hn by lia.
    change (decimal (S (S fuel'')) n acc)
      with (if n <? 10 then digit (n mod 10) :: acc
            else decimal (S fuel'') (n / 10) (digit (n mod 10) :: acc)).
    change (decimal (S (S fuel)) n acc)
      with (if n <? 10 then digit (n mod 10) :: acc
            else decimal (S fuel) (n / 10) (digit (n mod 10) :: acc)).
    destruct (n <? 10); [done|]. apply IH; [|lia].
    Z.div_mod_to_equations. lia.
Qed.

Lemma toString_fuel fuel n :
  0 <= n < 2 ^ Z.of_nat fuel → Number_toString n = decimal (S fuel) n [].
Proof.
  intros Hn. unfold Number_toString.
  destruct (Z.ltb_spec n 0) as [|_]; [lia|].
  assert (0 < 2 ^ Z.of_nat fuel) by (apply Z.pow_pos_nonneg; lia).
  destruct (Z.eq_dec n 0) as [->|Hnz]; [done|].
  destruct (Z.log2_spec n ltac:(lia)) as [Hlo Hhi].
  pose proof (Z.log2_nonneg n).
  destruct (Nat.le_ge_cases (Z.to_nat (Z.log2 n)) fuel) as [Hle|Hge].
  - symmetry. apply decimal_fuel; [|done].
    rewrite Nat2Z.inj_succ, Z2Nat.id by done. lia.
  - apply decimal_fuel; [|done].
    rewrite Nat2Z.inj_succ, Z.pow_succ_r by lia. lia.
Qed.

(** The last three digits of a number of at least four. *)
Lemma toString_thousands n :
  1000 <= n →
  Number_toString n
  = Number_toString (n / 1000)
    ++ [digit (n / 100 mod 10); digit (n / 10 mod 10); digit (n mod 10)].
Proof.
  intros Hn.
  destruct (Z.log2_spec n ltac:(lia)) as [Hlo Hhi].
  pose proof (Z.log2_nonneg n) as Hl0.
  assert (9 <= Z.log2 n) as Hl9.
  { destruct (Z.lt_ge_cases (Z.log2 n) 9) as [Hlt|]; [|done].
    assert (2 ^ Z.succ (Z.log2 n) <= 2 ^ 9)
      by (apply Z.pow_le_mono_r; lia).
    change (2 ^ 9) with 512 in *. lia. }
  set (f := Z.to_nat (Z.log2 n - 2)).
  assert (Z.of_nat f = Z.log2 n - 2) as Ef by (unfold f; lia).
  assert (2 ^ Z.succ (Z.log2 n) = 8 * 2 ^ Z.of_nat f) as Epow.
  { rewrite Ef. replace (Z.succ (Z.log2 n)) with (3 + (Z.log2 n - 2)) by lia.
    by rewrite Z.pow_add_r by lia. }
  rewrite (toString_fuel (S (S (S f))) n)
    by (rewrite !Nat2Z.inj_succ, !Z.pow_succ_r by lia; lia).
  rewrite (toString_fuel f (n / 1000)).
  2:{ assert (0 < 2 ^ Z.of_nat f) by (apply Z.pow_pos_nonneg; lia).
      Z.div_mod_to_equations. lia. }
  change (decimal (S (S (S (S f)))) n [])
    with (if n <? 10 then [digit (n mod 10)]
          else if n / 10 <? 10 then [digit (n / 10 mod 10); digit (n mod 10)]
          else if n / 10 / 10 <? 10
               then [digit (n / 10 / 10 mod 10); digit (n / 10 mod 10);
                     digit (n mod 10)]
               else decimal (S f) (n / 10 / 10 / 10)
                      [digit (n / 10 / 10 mod 10); digit (n / 10 mod 10);
                       digit (n mod 10)]).
  assert (n / 10 / 10 = n / 100 ∧ n / 10 / 10 / 10 = n / 1000) as [E2 E3]
    by (Z.div_mod_to_equations; lia).
  rewrite E3, E2.
  destruct (Z.ltb_spec n 10); [lia|].
  destruct (Z.ltb_spec (n / 10) 10); [Z.div_mod_to_equations; lia|].
  destruct (Z.ltb_spec (n / 100) 10); [Z.div_mod_to_equations; lia|].
  apply decimal_app.
Qed.

Lemma isDigit_digit n : isDigit (digit (n mod 10)) = true.
Proof.
  unfold isDigit, digit. pose proof (Z.mod_pos_bound n 10 ltac:(lia)).
  apply andb_true_iff. split; apply Z.leb_le; lia.
Qed.

Lemma decimal_digits fuel n acc :
  Forall (λ c, isDigit c = true) acc →
  Forall (λ c, isDigit c = true) (decimal fuel n acc).
Proof.
  revert n acc. induction fuel as [|fuel IH]; intros n acc Hacc; [done|].
  cbn [decimal].
  destruct (n <? 10); [|apply IH]; constructor; auto using isDigit_digit.
Qed.

Lemma toString_digits n :
  0 <= n → Forall (λ c, isDigit c = true) (Number_toString n).
Proof.
  intros Hn. unfold Number_toString.
  destruct (Z.ltb_spec n 0); [lia|]. by apply decimal_digits.
Qed.

Lemma toString_nonempty n : Number_toString n ≠ [].
Proof.
  unfold Number_toString. destruct (n <? 0); [done|].
  cbn [decimal]. destruct (n <? 10); [done|].
  rewrite decimal_app. by intros [_ ?]%app_eq_nil.
Qed.

(** A number below 1000 has at most three digits. *)
Lemma toString_short n :
  0 <= n < 1000 → (length (Number_toString n) <= 3)%nat.
Proof.
  intros Hn. rewrite (toString_fuel 10 n) by (change (2 ^ _) with 1024; lia).
  cbn [decimal].
  destruct (Z.ltb_spec n 10); [cbn; lia|].
  destruct (Z.ltb_spec (n / 10) 10); [cbn; lia|].
  destruct (Z.ltb_spec (n / 10 / 10) 10); [cbn; lia|].
  Z.div_mod_to_equations. lia.
Qed.

Lemma digitGroups_short s : (length s < 3)%nat → digitGroups s = false.
Proof. destruct s as [|? [|? [|? ?]]]; cbn; [done.. | lia]. Qed.

(** Three more digits behind a run of digits do not change whether the
    run splits into groups of three. *)
Lemma digitGroups_app n a b1 b2 b3 :
  (length a <= n)%nat → a ≠ [] →
  Forall (λ c, isDigit c = true) a →
  isDigit b1 = true → isDigit b2 = true → isDigit b3 = true →
  digitGroups (a ++ [b1; b2; b3]) = digitGroups a.
Proof.
  revert a. induction n as [|n IH]; intros a Hlen Hne Ha H1 H2 H3.
  - destruct a; [done | cbn in Hlen; lia].
  - destruct a as [|d1 [|d2 [|d3 a']]]; [done | | |].
    + cbn. by rewrite H3, !andb_false_r.
    + cbn. by rewrite H2, !andb_false_r.
    + inversion Ha as [|? ? E1 Ha1]; subst.
      inversion Ha1 as [|? ? E2 Ha2]; subst.
      inversion Ha2 as [|? ? E3 Ha3]; subst.
      change ((d1 :: d2 :: d3 :: a') ++ [b1; b2; b3])
        with (d1 :: d2 :: d3 :: (a' ++ [b1; b2; b3])).
      cbn [digitGroups]. rewrite E1, E2, E3. cbn [andb].
      destruct a' as [|c a''].
      * cbn. by rewrite H1, H2, H3.
      * rewrite (IH (c :: a'')); [|cbn in *; lia | done | done..].
        inversion Ha3 as [|? ? Ec _]; subst. cbn [head from_option app].
        by rewrite Ec.
Qed.

Lemma insertCommas_short prev s :
  (length s < 3)%nat → insertCommas prev s = s.
Proof.
  revert prev. induction s as [|c s IH]; intros prev Hlen.
  - cbn [insertCommas digitGroups]. by rewrite andb_false_r.
  - cbn [insertCommas]. rewrite digitGroups_short, andb_false_r by done.
    rewrite IH; [done | cbn in Hlen; lia].
Qed.

Lemma isWord_digit c : isDigit c = true → isWord c = true.
Proof. intros H. unfold isWord. by rewrite H. Qed.

(** No comma goes in front of a number. *)
Lemma insertCommas_number s :
  Forall (λ c, isDigit c = true) s → (length s <= 3)%nat →
  insertCommas None s = s.
Proof.
  intros Hs Hlen.
  destruct s as [|c s];
    [by cbn [insertCommas digitGroups]; rewrite andb_false_r|].
  cbn [insertCommas head]. inversion Hs as [|? ? Ec _]; subst.
  unfold notWordBoundary. cbn [from_option]. rewrite (isWord_digit c Ec).
  cbn [Bool.eqb andb].
  rewrite insertCommas_short; [done | cbn in Hlen; lia].
Qed.

(** A comma goes in front of the last three digits. *)
Lemma insertCommas_app prev a b1 b2 b3 :
  a ≠ [] → Forall (λ c, isDigit c = true) a →
  isDigit b1 = true → isDigit b2 = true → isDigit b3 = true →
  insertCommas prev (a ++ [b1; b2; b3])
  = insertCommas prev a ++ [44; b1; b2; b3].
Proof.
  revert prev. induction a as [|c a IH]; intros prev Hne Ha H1 H2 H3; [done|].
  inversion Ha as [|? ? Ec Ha']; subst.
  change ((c :: a) ++ [b1; b2; b3]) with (c :: (a ++ [b1; b2; b3])).
  cbn [insertCommas head].
  change (c :: (a ++ [b1; b2; b3])) with ((c :: a) ++ [b1; b2; b3]).
  rewrite (digitGroups_app (length (c :: a)) (c :: a)) by done.
  assert (insertCommas (Some c) (a ++ [b1; b2; b3])
          = insertCommas (Some c) a ++ [44; b1; b2; b3]) as E.
  { destruct a as [|c' a']; [|by apply IH].
    cbn. unfold notWordBoundary. cbn [from_option].
    rewrite (isWord_digit c Ec), (isWord_digit b1 H1), H1, H2, H3.
    cbn. by rewrite !andb_false_r. }
  rewrite E. by destruct (notWordBoundary prev (Some c) && digitGroups (c :: a)).
Qed.

(** X15.  [numberWithCommas] groups the digits of a natural number in
    threes from the right: a number below 1000 is printed as it is, and a
    larger one as the number of its thousands, a comma and its last
    three digits. *)
Theorem numberWithCommas_groups (n : Z) :
  0 <= n < 2 ^ 53 →
  (n < 1000 → numberWithCommas n = Number_toString n)
  ∧ (1000 <= n →
     numberWithCommas n
     = numberWithCommas (n / 1000)
       ++ [44; digit (n / 100 mod 10); digit (n / 10 mod 10);
           digit (n mod 10)]).
Proof.
  intros Hn. unfold numberWithCommas. split; intros Hk.
  - apply insertCommas_number;
      [apply toString_digits | apply toString_short]; lia.
  - rewrite toString_thousands by done.
    apply insertCommas_app; auto using isDigit_digit, toString_nonempty.
    apply toString_digits. Z.div_mod_to_equations. lia.
Qed.

Lemma numberWithCommas_groups_witness :
  (1234567 < 1000 → numberWithCommas 1234567 = Number_toString 1234567)
  ∧ (1000 <= 1234567 →
     numberWithCommas 1234567
     = numberWithCommas (1234567 / 1000)
       ++ [44; digit (1234567 / 100 mod 10); digit (1234567 / 10 mod 10);
           digit (1234567 mod 10)]).
Proof. apply (numberWithCommas_groups 1234567). by_evaluation. Defined.

End formatting.


(** ** The view: what [render] leaves on the screen *)

Section view_render.
Import Screen.

Lemma Screen_clear_wf s : Screen_wf s → Screen_wf (Screen_clear s).
Proof.
  intros [Hb Hl Hs].
  destruct (clearView_shape
              (Z.to_nat (TypedArray.length (screenBuffer s) / 4)) 0
              (screenBuffer s)) as [El Eb].
  split; cbn [Screen_clear screenBuffer w h];
    [by rewrite Eb | by rewrite El | done].
Qed.

Lemma moveTo_wf x0 y0 s : Screen_wf s → Screen_wf (moveTo x0 y0 s).
Proof. by intros [Hb Hl Hs]. Qed.

Lemma setColor_wf c s : Screen_wf s → Screen_wf (Screen_setColor c s).
Proof. by intros [Hb Hl Hs]. Qed.

Lemma writeBuffer_static b sx sy sw sh s :
  Screen_static s (writeBuffer b sx sy sw sh s).
Proof.
  unfold writeBuffer. cbv zeta.
  match goal with
  | |- Screen_static _ (invalidate ?r) =>
      assert (Screen_static s r) as (E1 & E2 & E3 & E4 & E5 & E6 & E7 & Hwf)
        by apply copyRows_static
  end.
  do 7 (split; [done|]). intros H. by destruct (Hwf H).
Qed.

Lemma digit_byte c : isDigit c = true → 0 <= c < 256.
Proof. unfold isDigit. intros [? ?]%andb_true_iff. lia. Qed.

Lemma decimal_bytes fuel n acc :
  Forall (λ c, 0 <= c < 256) acc →
  Forall (λ c, 0 <= c < 256) (decimal fuel n acc).
Proof.
  revert n acc. induction fuel as [|fuel IH]; intros n acc Hacc; [done|].
  cbn [decimal].
  destruct (n <? 10); [|apply IH]; constructor;
    auto using digit_byte, isDigit_digit.
Qed.

Lemma toString_bytes n : Forall (λ c, 0 <= c < 256) (Number_toString n).
Proof.
  unfold Number_toString.
  destruct (n <? 0); [constructor; [lia|]|]; by apply decimal_bytes.
Qed.

Lemma insertCommas_bytes prev s :
  Forall (λ c, 0 <= c < 256) s →
  Forall (λ c, 0 <= c < 256) (insertCommas prev s).
Proof.
  intros Hs. revert prev. induction Hs as [|c s Hc Hs IH]; intros prev.
  - cbn [insertCommas]. destruct (_ && _); repeat constructor; lia.
  - cbn [insertCommas]. destruct (_ && _); repeat constructor; auto; lia.
Qed.

Lemma forallb_bytes s :
  Forall (λ c, 0 <= c < 256) s →
  forallb (λ c, (0 <=? c) && (c <? 256)) s = true.
Proof.
  induction 1 as [|c s Hc Hs IH]; [done|]. cbn [forallb]. rewrite IH.
  by destruct (Z.leb_spec 0 c), (Z.ltb_spec c 256); try lia.
Qed.

Lemma statusLine_bytes b :
  forallb (λ c, (0 <=? c) && (c <? 256)) (View_statusLine b) = true.
Proof.
  apply forallb_bytes. unfold View_statusLine, byteFormatter, numberWithCommas.
  repeat first
    [ apply Forall_app; split
    | apply insertCommas_bytes | apply toString_bytes
    | apply Forall_cons; split; [lia|] | apply Forall_nil; exact I ].
Qed.

(** [render] draws the window, the status line and nothing else. *)
Lemma render_spec (b : Buffer.t) (s : t) (vx vy : option Q) (ver : Z) :
  Buffer_wf b → Buffer_bounded b → Buffer.i b < 2 ^ 32 →
  Screen_wf s → 2 <= h s < 2 ^ 31 → w s < 2 ^ 31 →
  4 <= tileColumns s <= 256 →
  let s' := View.screen (View_render (View.make s b ver vx vy)) in
  ∃ sxv syv w0v h0v,
    Screen_window b (toInt32Q vx) (toInt32Q vy) 1024 (h s - 2) (moveTo 0 0 s)
    = (Some sxv, syv, Some w0v, h0v)
    ∧ 0 <= sxv ∧ 0 <= syv ∧ 0 <= h0v <= h s - 2 ∧ syv + h0v <= Buffer.h b
    ∧ w0v <= w s
    ∧ (∀ yy xx s0 rw,
         0 <= yy < h0v →
         TypedArray.get (Buffer.starts b) (syv + yy) = Some s0 →
         Buffer_rowWidth b (syv + yy) = Some rw →
         0 <= xx < Z.min (rw - sxv) w0v →
         ∃ c col st,
           Buffer.cell b (s0 + sxv + xx) = (Some c, Some col, Some st)
           ∧ Screen_shows s' xx yy st c col)
    ∧ (∀ k c,
         0 <= k < w s → View_statusLine b !! Z.to_nat k = Some c →
         Screen_shows s' k (h s - 1) (FontStyle_code (style s)) c 0xFFE0)
    ∧ (∀ k,
         0 <= k < w s * h s * 4 →
         ¬ Screen_byteInRect s k 0 0 w0v h0v →
         ¬ Screen_byteInRect s k 0 (h s - 1) (w s) 1 →
         TypedArray.get (screenBuffer s') k = Some 0).
Proof.
  intros Hbwf Hbd Hi Hwf Hh Hw Ht s'.
  pose proof (screen_size s Hwf) as [Hw0 _].
  set (s2 := moveTo 0 0 (Screen_clear s)).
  assert (Screen_wf s2) as Hwf2 by apply moveTo_wf, Screen_clear_wf, Hwf.
  assert (x s2 = 0) as Ex2
    by (cbn [s2 moveTo x Screen_clear w]; change (toInt32 0) with 0;
        unfold clamp; lia).
  assert (y s2 = 0) as Ey2
    by (cbn [s2 moveTo y Screen_clear h]; change (toInt32 0) with 0;
        unfold clamp; lia).
  assert (w s2 = w s) as Ew2 by done.
  assert (h s2 = h s) as Eh2 by done.
  destruct (writeBuffer_shows b (toInt32Q vx) (toInt32Q vy) 1024 (h s2 - 2) s2)
    as (sxv & syv & w0v & h0v & Ewin & Hsx & Hsy & Hh0 & Hfit & Hshow);
    try done; try lia.
  destruct (writeBuffer_frame b (toInt32Q vx) (toInt32Q vy) 1024 (h s2 - 2)
              s2 (Some sxv) syv (Some w0v) h0v)
    as (Hfw & Hfh & Hframe3 & Ew3 & Eh3 & Ex3 & Ey3 & _); try done; try lia.
  pose proof (writeBuffer_static b (toInt32Q vx) (toInt32Q vy) 1024
                (h s2 - 2) s2) as (_ & _ & _ & _ & _ & Es3 & Et3 & Hwf3).
  set (s3 := writeBuffer b (toInt32Q vx) (toInt32Q vy) 1024 (h s2 - 2) s2)
    in *.
  change (default 0 (Some w0v)) with w0v in *.
  set (s5 := moveTo 0 (h s3 - 1) (Screen_setColor (makeColor 256 256 0) s3)).
  assert (Screen_wf s5) as Hwf5 by apply moveTo_wf, setColor_wf, Hwf3, Hwf2.
  assert (x s5 = 0) as Ex5
    by (cbn [s5 moveTo x Screen_setColor w]; change (toInt32 0) with 0;
        unfold clamp; lia).
  assert (y s5 = h s - 1) as Ey5.
  { cbn [s5 moveTo y Screen_setColor h]. rewrite Eh3, Eh2.
    rewrite toInt32_small by lia. unfold clamp. lia. }
  assert (w s5 = w s) as Ew5 by (by cbn [s5 moveTo w Screen_setColor]).
  assert (h s5 = h s) as Eh5 by (by cbn [s5 moveTo h Screen_setColor]).
  assert (tileColumns s5 = tileColumns s) as Et5 by exact Et3.
  assert (style s5 = style s) as Es5 by exact Es3.
  assert (color s5 = 0xFFE0) as Ec5 by (vm_compute; reflexivity).
  assert (screenBuffer s5 = screenBuffer s3) as Eb5 by done.
  destruct (writeString_row s5 (View_statusLine b))
    as (_ & _ & Hstat & Hframe6);
    rewrite ?Ex5, ?Ey5, ?Ew5, ?Eh5, ?Et5, ?Ec5; try done; try lia.
  { apply statusLine_bytes. }
  destruct (writeString_static (View_statusLine b) s5)
    as (Ew6 & _ & Et6 & _).
  change (View.screen (View_render (View.make s b ver vx vy)))
    with (writeString (View_statusLine b) s5) in s'.
  fold s' in Hstat, Hframe6, Ew6, Et6.
  rewrite Ex5, Ey5, Es5, Ec5 in Hstat.
  assert (Screen_cellIndex s5 = Screen_cellIndex s) as Ei5
    by (unfold Screen_cellIndex; by rewrite Ew5).
  rewrite Ex5, Ey5, Ei5, Ew5 in Hframe6.
  assert (∀ k, k < Screen_cellIndex s 0 (h s - 1) →
            TypedArray.get (screenBuffer s') k
            = TypedArray.get (screenBuffer s3) k) as Habove.
  { intros k Hk. rewrite Hframe6 by (left; exact Hk). by rewrite Eb5. }
  assert (h0v <= h s - 2) as Hh2.
  { pose proof Ewin as [= _ _ _ E]. rewrite <- E.
    rewrite (toInt32_small (h s - 2)) by lia. unfold clamp. lia. }
  exists sxv, syv, w0v, h0v.
  split; [exact Ewin|]. split; [done|]. split; [done|].
  split; [lia|]. split; [done|].
  split; [rewrite Ex2, Ew2 in Hfw; lia|]. split; [|split].
  - intros yy xx s0 rw Hyy Hs0 Hrw Hxx.
    destruct (Hshow yy xx s0 rw) as (c & col & st & Hcell & Hsh); try done.
    exists c, col, st. split; [done|].
    rewrite Ex2, Ey2, !Z.add_0_l in Hsh.
    apply (shows_preserved s3); [done | by rewrite Ew6, Ew5 | |].
    + by rewrite Et6, Et5, Et3.
    + intros t Ht4. apply Habove.
      unfold Screen_cellIndex. rewrite Ew3, Ew2.
      rewrite Ex2, Ew2 in Hfw. rewrite Ey2, Eh2 in Hfh.
      assert (w s * (yy + 1) <= w s * (h s - 1))
        by (apply Z.mul_le_mono_nonneg_l; lia).
      lia.
  - intros k c Hk Hc.
    assert (Z.to_nat k < length (View_statusLine b))%nat
      by (by apply lookup_lt_is_Some_1; eexists).
    specialize (Hstat k c). rewrite Z.add_0_l in Hstat.
    apply Hstat; [lia | done].
  - intros k Hk Hout Hlast.
    assert (k < Screen_cellIndex s 0 (h s - 1)) as Hlt.
    { destruct (Z.lt_ge_cases k (Screen_cellIndex s 0 (h s - 1)))
        as [|Hge]; [done|].
      exfalso. apply Hlast.
      apply byteInRect_row with (cy := h s - 1); [|lia].
      unfold Screen_cellIndex in *. lia. }
    rewrite Habove by done. rewrite Hframe3.
    + destruct (Screen_clear_blank s k Hwf Hk) as (E & _). exact E.
    + rewrite Ex2, Ey2. intros (cx & cy & t & Hcx & Hcy & Ht4 & E).
      apply Hout. exists cx, cy, t. repeat split; first [lia | exact E].
Qed.

End view_render.


Section view_render_claims.
Import Screen.

(** X16.  [View.render] lays the screen out in three parts.  For a buffer
    built by the constructor and its methods whose write index is below
    2^32 and a screen as [resize()] sizes it (a byte tilemap of
    [w * h * 4] bytes) with at least two and fewer than 2^31 rows, fewer
    than 2^31 columns and 4 to 256 tiles per sprite-sheet row, whatever
    the view's offsets: the top [h - 2] rows show
    the window of the buffer that starts at the view's offsets (as
    [writeBuffer] clamps them), cell by cell in the cells' styles and
    colors; the last row shows the status line
    ["Buffer: ...KB Lines: ..."] from column 0 on, cut at the right edge,
    in the screen's style and in yellow ([makeColor(256, 256, 0)], which
    is [0xFFE0]); every byte outside the window's rectangle and the last
    row is 0, so the row above the status line is blank. *)
Theorem render_layout
    (columns : Z) (ops : list Buffer.op) (s : t) (vx vy : option Q)
    (ver : Z) :
  let b := Buffer.run ops (Buffer.new columns) in
  let s' := View.screen (View_render (View.make s b ver vx vy)) in
  Buffer.i b < 2 ^ 32 →
  Screen_wf s → 2 <= h s < 2 ^ 31 → w s < 2 ^ 31 →
  4 <= tileColumns s <= 256 →
  ∃ sxv syv w0v h0v,
    Screen_window b (toInt32Q vx) (toInt32Q vy) 1024 (h s - 2) (moveTo 0 0 s)
    = (Some sxv, syv, Some w0v, h0v)
    ∧ 0 <= sxv ∧ 0 <= syv ∧ 0 <= h0v <= h s - 2 ∧ syv + h0v <= Buffer.h b
    ∧ w0v <= w s
    ∧ (∀ yy xx s0 rw,
         0 <= yy < h0v →
         TypedArray.get (Buffer.starts b) (syv + yy) = Some s0 →
         Buffer_rowWidth b (syv + yy) = Some rw →
         0 <= xx < Z.min (rw - sxv) w0v →
         ∃ c col st,
           Buffer.cell b (s0 + sxv + xx) = (Some c, Some col, Some st)
           ∧ Screen_shows s' xx yy st c col)
    ∧ (∀ k c,
         0 <= k < w s → View_statusLine b !! Z.to_nat k = Some c →
         Screen_shows s' k (h s - 1) (FontStyle_code (style s)) c 0xFFE0)
    ∧ (∀ k,
         0 <= k < w s * h s * 4 →
         ¬ Screen_byteInRect s k 0 0 w0v h0v →
         ¬ Screen_byteInRect s k 0 (h s - 1) (w s) 1 →
         TypedArray.get (screenBuffer s') k = Some 0).
Proof.
  intros b s' Hi.
  apply render_spec; [apply wf_reachable | apply bounded_reachable | done].
Qed.

Lemma render_layout_witness :
  let b := Buffer.run [Buffer.WriteString [65; 66; 10; 67]]
             Buffer.new_default in
  let s := sized 4 4 256 in
  let s' := View.screen
              (View_render (View.make s b 0 (Some 0%Q) (Some 0%Q))) in
  ∃ sxv syv w0v h0v,
    Screen_window b (toInt32Q (Some 0%Q)) (toInt32Q (Some 0%Q)) 1024
      (h s - 2) (moveTo 0 0 s)
    = (Some sxv, syv, Some w0v, h0v)
    ∧ 0 <= sxv ∧ 0 <= syv ∧ 0 <= h0v <= h s - 2 ∧ syv + h0v <= Buffer.h b
    ∧ w0v <= w s
    ∧ (∀ yy xx s0 rw,
         0 <= yy < h0v →
         TypedArray.get (Buffer.starts b) (syv + yy) = Some s0 →
         Buffer_rowWidth b (syv + yy) = Some rw →
         0 <= xx < Z.min (rw - sxv) w0v →
         ∃ c col st,
           Buffer.cell b (s0 + sxv + xx) = (Some c, Some col, Some st)
           ∧ Screen_shows s' xx yy st c col)
    ∧ (∀ k c,
         0 <= k < w s → View_statusLine b !! Z.to_nat k = Some c →
         Screen_shows s' k (h s - 1) (FontStyle_code (style s)) c 0xFFE0)
    ∧ (∀ k,
         0 <= k < w s * h s * 4 →
         ¬ Screen_byteInRect s k 0 0 w0v h0v →
         ¬ Screen_byteInRect s k 0 (h s - 1) (w s) 1 →
         TypedArray.get (screenBuffer s') k = Some 0).
Proof.
  intros b s.
  apply (render_layout (1024 * 1024) [Buffer.WriteString [65; 66; 10; 67]]
           s (Some 0%Q) (Some 0%Q) 0);
    [| split | ..]; by_evaluation.
Defined.

Lemma toInt32Q_Z z : toInt32Q (Some (inject_Z z)) = toInt32 z.
Proof.
  unfold toInt32Q. rewrite Qfloor_Z, Qceiling_Z.
  by destruct (Qle_bool 0 (inject_Z z)).
Qed.

(** [w] bounds the width of every row. *)
Lemma w_bounds_rows columns ops :
  let b := Buffer.run ops (Buffer.new columns) in
  Buffer.i b < 2 ^ 32 →
  ∃ bw, Buffer.w b = Some bw ∧ 0 <= bw
      ∧ ∀ k rw, 0 <= k < Buffer.h b → Buffer_rowWidth b k = Some rw →
          rw <= bw.
Proof.
  intros b Hi.
  destruct (widths_reachable columns ops Hi)
    as [Hrows _ (r & m & Hr & Hm & Hrc & Hmc)].
  fold b in Hrows, Hr, Hm, Hrc, Hmc.
  exists (Z.max m r). unfold Buffer.w. rewrite Hm, Hr.
  split; [done|]. split; [lia|]. intros k rw Hk Hrw.
  destruct (Z.eq_dec k (Buffer.h b - 1)) as [->|Hne].
  - rewrite rowWidth_last, Hr in Hrw. injection Hrw as <-. lia.
  - destruct (Hrows k) as (wk & m' & Hwk & Hm' & Hle); [lia|].
    rewrite Hwk in Hrw. injection Hrw as <-.
    rewrite Hm in Hm'. injection Hm' as <-. lia.
Qed.

(** X17.  For a buffer built by the constructor and its methods whose
    write index is below 2^32 and a screen as [resize()] sizes it (a byte
    tilemap of [w * h * 4] bytes) with at least two and fewer than 2^31
    rows, fewer than 2^31 columns and 4 to 256 tiles per sprite-sheet
    row: [View.scrollToBottom] on a buffer with at least as many rows as
    the screen (and fewer than 2^31) sets the offsets to column 0 and row
    [buffer.h - screen.h], and [render] then fills the top [screen.h - 2]
    rows of the screen: screen row [yy] shows buffer row
    [buffer.h - screen.h + yy], up to 1024 columns and the screen's
    width.  The row above the status line stays blank, so the rows shown
    end with buffer row [buffer.h - 3]. *)
Theorem scrollToBottom_rows
    (columns : Z) (ops : list Buffer.op) (s : t) (vx vy : option Q)
    (ver : Z) :
  let b := Buffer.run ops (Buffer.new columns) in
  let v' := View_scrollToBottom (View.make s b ver vx vy) in
  let s' := View.screen v' in
  Buffer.i b < 2 ^ 32 →
  Screen_wf s → 2 <= h s < 2 ^ 31 → w s < 2 ^ 31 →
  4 <= tileColumns s <= 256 →
  h s <= Buffer.h b < 2 ^ 31 →
  View.x v' = Some (inject_Z 0)
  ∧ View.y v' = Some (inject_Z (Buffer.h b - h s))
  ∧ (∀ yy xx s0 rw,
       0 <= yy < h s - 2 →
       TypedArray.get (Buffer.starts b) (Buffer.h b - h s + yy) = Some s0 →
       Buffer_rowWidth b (Buffer.h b - h s + yy) = Some rw →
       0 <= xx < rw → xx < 1024 → xx < w s →
       ∃ c col st,
         Buffer.cell b (s0 + xx) = (Some c, Some col, Some st)
         ∧ Screen_shows s' xx yy st c col)
  ∧ (∀ k,
       Screen_cellIndex s 0 (h s - 2) <= k < Screen_cellIndex s 0 (h s - 1) →
       TypedArray.get (screenBuffer s') k = Some 0).
Proof.
  intros b v' s' Hi Hwf Hh Hw Ht Hbh.
  pose proof (screen_size s Hwf) as [Hw0 _].
  assert (clamp (Buffer.h b - h s) 0 (Buffer.h b - 1) = Buffer.h b - h s)
    as Eclamp by (unfold clamp; lia).
  split; [done|]. split.
  { unfold v', View_scrollToBottom. cbn [View_render View.y View.screen
      View.buffer]. by rewrite Eclamp. }
  destruct (w_bounds_rows columns ops Hi) as (bw & Hbw & Hbw0 & Hrows).
  fold b in Hbw, Hrows.
  destruct (render_spec b s (Some (inject_Z 0))
              (Some (inject_Z (Buffer.h b - h s))) ver)
    as (sxv & syv & w0v & h0v & Ewin & _ & _ & _ & _ & Hw0v & Hshow
        & _ & Hblank);
    [apply wf_reachable | apply bounded_reachable | done..|].
  assert (s' = View.screen
                 (View_render
                    (View.make s b ver (Some (inject_Z 0))
                       (Some (inject_Z (Buffer.h b - h s)))))) as Es'.
  { unfold s', v', View_scrollToBottom.
    cbn [View.screen View.buffer View.version]. by rewrite Eclamp. }
  rewrite <- Es' in Hshow, Hblank. clear Es'.
  unfold Screen_window in Ewin. rewrite !toInt32Q_Z, Hbw in Ewin.
  cbn [clamp_num Math_max Math_min num_sub moveTo x y w h] in Ewin.
  change (toInt32 0) with 0 in Ewin. change (toInt32 0) with 0 in Ewin.
  change (toInt32 1024) with 1024 in Ewin.
  rewrite !(toInt32_small (Buffer.h b - h s)) in Ewin by lia.
  rewrite (toInt32_small (h s - 2)) in Ewin by lia.
  unfold clamp in Ewin. injection Ewin as Esx Esy Ew Eh.
  assert (sxv = 0) as -> by lia.
  assert (syv = Buffer.h b - h s) as -> by lia.
  assert (h0v = h s - 2) as -> by lia.
  assert (w0v = Z.min (Z.min bw 1024) (w s)) as -> by lia.
  split.
  - intros yy xx s0 rw Hyy Hs0 Hrw Hxx H1024 Hxw.
    assert (rw <= bw) by (apply (Hrows (Buffer.h b - h s + yy)); [lia|done]).
    replace (s0 + xx) with (s0 + 0 + xx) by lia.
    apply (Hshow yy xx s0 rw); try done. lia.
  - intros k Hk. unfold Screen_cellIndex in Hk. apply Hblank.
    + nia.
    + unfold Screen_byteInRect, Screen_cellIndex.
      intros (cx & cy & t & Hcx & Hcy & Ht4 & E).
      assert (w s * (cy + 1) <= w s * (h s - 2))
        by (apply Z.mul_le_mono_nonneg_l; lia).
      lia.
    + unfold Screen_byteInRect, Screen_cellIndex.
      intros (cx & cy & t & Hcx & Hcy & Ht4 & E).
      assert (cy = h s - 1) as -> by lia. lia.
Qed.

Lemma scrollToBottom_rows_witness :
  let b := Buffer.run [Buffer.WriteString [65; 10; 66; 10; 67; 10; 68]]
             Buffer.new_default in
  let s := sized 4 3 256 in
  let v' := View_scrollToBottom (View.make s b 0 (Some 5%Q) (Some 7%Q)) in
  let s' := View.screen v' in
  View.x v' = Some (inject_Z 0)
  ∧ View.y v' = Some (inject_Z (Buffer.h b - h s))
  ∧ (∀ yy xx s0 rw,
       0 <= yy < h s - 2 →
       TypedArray.get (Buffer.starts b) (Buffer.h b - h s + yy) = Some s0 →
       Buffer_rowWidth b (Buffer.h b - h s + yy) = Some rw →
       0 <= xx < rw → xx < 1024 → xx < w s →
       ∃ c col st,
         Buffer.cell b (s0 + xx) = (Some c, Some col, Some st)
         ∧ Screen_shows s' xx yy st c col)
  ∧ (∀ k,
       Screen_cellIndex s 0 (h s - 2) <= k < Screen_cellIndex s 0 (h s - 1) →
       TypedArray.get (screenBuffer s') k = Some 0).
Proof.
  intros b s.
  apply (scrollToBottom_rows (1024 * 1024)
           [Buffer.WriteString [65; 10; 66; 10; 67; 10; 68]]
           s (Some 5%Q) (Some 7%Q) 0);
    [| split | ..]; by_evaluation.
Defined.

End view_render_claims.


(** ** The console *)

Section console.
Import Con.

Lemma value_induction (P : value → Prop) :
  (∀ text, P (VNumber text)) → (∀ s, P (VString s)) → P VNull →
  (∀ isArray name items, Forall P items → P (VArray isArray name items)) →
  (∀ fields, Forall (λ kv, P kv.2) fields → P (VObject fields)) →
  P VOther → ∀ x, P x.
Proof.
  intros Hn Hs Hnull Ha Ho Hother. fix IH 1.
  intros [text|s| |isArray name items|fields|].
  - apply Hn.
  - apply Hs.
  - apply Hnull.
  - apply Ha. induction items as [|x items IHi]; constructor;
      [apply IH | apply IHi].
  - apply Ho. induction fields as [|[k x] fields IHf]; constructor;
      [apply IH | apply IHf].
  - apply Hother.
Qed.

















End console.


Section console_colors.
Import Con.

Lemma writeString_color s b :
  Buffer.color (Buffer.writeString s b) = Buffer.color b.
Proof. apply writeString_fields. Qed.

Lemma writeString_style s b :
  Buffer.style (Buffer.writeString s b) = Buffer.style b.
Proof. apply writeString_fields. Qed.

Lemma setColor_style c b :
  Buffer.style (Buffer.setColor c b) = Buffer.style b.
Proof. done. Qed.

Lemma setColor_color c b : Buffer.color (Buffer.setColor c b) = c.
Proof. done. Qed.

Lemma setStyle_style st b : Buffer.style (Buffer.setStyle st b) = st.
Proof. done. Qed.

Lemma writeGutter_fields prefix color g b :
  Buffer.color (writeGutter prefix color g b) = color
  ∧ Buffer.style (writeGutter prefix color g b) = Buffer.style b.
Proof.
  unfold writeGutter. cbv zeta.
  induction (Z.to_nat g) as [|n [IHc IHs]]; cbn [Nat.iter nat_rect].
  - by rewrite writeString_color, writeString_style.
  - by rewrite writeString_color, writeString_style.
Qed.

Lemma logLines_style g first t b :
  Buffer.style (logLines g first t b) = Buffer.style b.
Proof.
  revert first b. induction t as [|line t IH]; intros first b; [done|].
  cbn [logLines]. rewrite IH, writeString_style.
  destruct first; [done|].
  by destruct (writeGutter_fields [32] textColor g (Buffer.newLine b))
    as [_ ->].
Qed.

(** The loops keep the style or reset it, and throw only on a [null]. *)
Lemma logItems_settles rec s len i xs b :
  Forall (λ x, ∀ b, Con_settles [x] b (rec x b)) xs →
  match logItems rec s len i xs b with
  | Done b' =>
      Buffer.color b' = Buffer.color b
      ∧ (Buffer.style b' = Buffer.style b ∨ Buffer.style b' = Normal)
  | Thrown b' => existsb hasNull xs = true ∧ Buffer.color b' = textColor
  end.
Proof.
  intros Hxs. revert i b.
  induction Hxs as [|x xs Hx Hxs IH]; intros i b; [by split; [|left]|].
  cbn [logItems]. destruct (i <? s); [|by split; [|left]].
  specialize (Hx b). unfold Con_settles in Hx.
  destruct (rec x b) as [b1|b1]; cbn [andThen].
  - destruct Hx as [Hc Hs].
    set (b2 := if i <? len - 1 then Buffer.writeString [44; 32] b1 else b1).
    assert (Buffer.color b2 = Buffer.color b1
            ∧ Buffer.style b2 = Buffer.style b1) as [Ec Es]
      by (subst b2; destruct (i <? len - 1);
          by rewrite ?writeString_color, ?writeString_style).
    specialize (IH (i + 1) b2).
    destruct (logItems rec s len (i + 1) xs b2) as [b3|b3].
    + destruct IH as [Hc3 Hs3]. rewrite Hc3, Ec, Hc. split; [done|].
      rewrite Es in Hs3. destruct Hs3 as [-> | ->]; auto.
    + destruct IH as [Hn Hc3]. split; [|done].
      cbn [existsb]. rewrite Hn. apply orb_true_r.
  - destruct Hx as [Hn Hc]. split; [|done].
    cbn [existsb] in *. rewrite orb_false_r in Hn. by rewrite Hn.
Qed.

Lemma logFields_settles rec len i fields b :
  Forall (λ kv, ∀ b, Con_settles [kv.2] b (rec kv.2 b)) fields →
  match logFields rec len i fields b with
  | Done b' => Buffer.style b' = Buffer.style b ∨ Buffer.style b' = Normal
  | Thrown b' =>
      existsb (λ kv, hasNull kv.2) fields = true
      ∧ Buffer.color b' = textColor
  end.
Proof.
  intros Hxs. revert i b.
  induction Hxs as [|[key x] fields Hx Hxs IH]; intros i b; [by left|].
  cbn [logFields]. cbv zeta.
  set (b0 := Buffer.writeString [58; 32] _).
  assert (Buffer.style b0 = Normal) as Es0
    by (subst b0; by rewrite writeString_style).
  specialize (Hx b0). unfold Con_settles in Hx. cbn [snd] in Hx.
  destruct (rec x b0) as [b1|b1]; cbn [andThen].
  - destruct Hx as [Hc Hs].
    assert (Buffer.style b1 = Normal) as Es1
      by (destruct Hs as [-> | ->]; done).
    set (b2 := if i <? len - 1 then Buffer.writeString [44; 32] b1 else b1).
    assert (Buffer.style b2 = Normal) as Es2
      by (subst b2; destruct (i <? len - 1);
          by rewrite ?writeString_style).
    specialize (IH (i + 1) b2).
    destruct (logFields rec len (i + 1) fields b2) as [b3|b3].
    + right. destruct IH as [-> | ->]; done.
    + destruct IH as [Hn Hc3]. split; [|done].
      cbn [existsb snd]. rewrite Hn. apply orb_true_r.
  - destruct Hx as [Hn Hc]. split; [|done].
    cbn [existsb snd] in *. rewrite orb_false_r in Hn. by rewrite Hn.
Qed.

Lemma logValue_settles g x :
  ∀ depth b, Con_settles [x] b (logValue g x depth b).
Proof.
  induction x as [text|s| |isArray name items IH|fields IH|]
    using value_induction; intros depth b; unfold Con_settles;
    cbn [logValue]; cbv zeta.
  - split; [apply setColor_color|]. left.
    by rewrite setColor_style, writeString_style, setColor_style.
  - split; [apply setColor_color|]. left. rewrite setColor_style.
    destruct (hasNewLine s);
      by rewrite ?logLines_style, ?writeString_style, setColor_style.
  - destruct (depth <? maxDepth).
    + split; [reflexivity|]. rewrite writeString_color.
      apply setColor_color.
    + split; [apply setColor_color|]. left.
      by rewrite setColor_style, writeString_style, setColor_style.
  - destruct (depth <? maxDepth).
    + remember (Buffer.writeString [91] _) as b0 eqn:Eb0.
      assert (Buffer.style b0 = Buffer.style b) as Es0
        by (rewrite Eb0; by rewrite writeString_style, setColor_style).
      clear Eb0.
      pose proof (logItems_settles (λ x b, logValue g x (depth + 1) b)
                    (Z.min (Z.of_nat (length items)) maxArray)
                    (Z.of_nat (length items)) 0 items b0) as Hloop.
      destruct (logItems _ _ _ _ _ _) as [b1|b1]; cbn [andThen].
      * split; [apply setColor_color|]. destruct Hloop as [_ Hs].
        { eapply Forall_impl; [exact IH|]. intros x Hx b'. apply Hx. }
        rewrite <- Es0.
        destruct ((8 <? Z.of_nat (length items)) && (depth =? 0));
          destruct (8 <? Z.of_nat (length items));
          rewrite ?setColor_style, ?writeString_style, ?setColor_style,
            ?writeString_style, ?writeString_style; exact Hs.
      * destruct Hloop as [Hn Hc]; [|cbn [existsb hasNull]; by rewrite Hn].
        eapply Forall_impl; [exact IH|]. intros x Hx b'. apply Hx.
    + split; [apply setColor_color|]. left.
      by rewrite setColor_style, writeString_style, setColor_style.
  - destruct (depth <? maxDepth).
    + remember (Buffer.writeString [123] _) as b0 eqn:Eb0.
      assert (Buffer.style b0 = Buffer.style b) as Es0
        by (rewrite Eb0; by rewrite writeString_style, setColor_style).
      clear Eb0.
      pose proof (logFields_settles (λ x b, logValue g x (depth + 1) b)
                    (Z.of_nat (length fields)) 0 fields b0) as Hloop.
      destruct (logFields _ _ _ _ _) as [b1|b1]; cbn [andThen].
      * split; [apply setColor_color|].
        rewrite setColor_style, writeString_style.
        rewrite <- Es0. apply Hloop.
        eapply Forall_impl; [exact IH|]. intros kv Hx b'. apply Hx.
      * destruct Hloop as [Hn Hc]; [|cbn [existsb hasNull]; by rewrite Hn].
        eapply Forall_impl; [exact IH|]. intros kv Hx b'. apply Hx.
    + split; [apply setColor_color|]. left.
      by rewrite setColor_style, writeString_style, setColor_style.
  - split; [apply setColor_color|]. by left.
Qed.

Lemma logArguments_returns g args b :
  existsb hasNull args = false →
  ∃ b', logArguments g args b = Done b'
      ∧ Buffer.color b' = Buffer.color b.
Proof.
  revert b. induction args as [|x args IH]; intros b Hn; [by exists b|].
  cbn [existsb] in Hn. apply orb_false_iff in Hn as [Hx Hn].
  cbn [logArguments].
  pose proof (logValue_settles g x 0 b) as Hv. unfold Con_settles in Hv.
  destruct (logValue g x 0 b) as [b1|b1]; cbn [andThen].
  - destruct Hv as [Hc _].
    destruct (IH (match args with
                  | [] => b1
                  | _ :: _ => Buffer.writeString [32] b1
                  end) Hn) as (b' & -> & Hc').
    exists b'. split; [done|]. rewrite Hc', <- Hc.
    destruct args; by rewrite ?writeString_color.
  - destruct Hv as [Hv _]. cbn [existsb] in Hv.
    rewrite orb_false_r in Hv. congruence.
Qed.



(** X19.  [logValue] gives the buffer's active color back: when it
    returns, the color is the one it found, and the style is the one it
    found or [Normal] (printing an object's keys resets it).  It throws
    only for a value that holds a [null], and then the color is left at
    [textColor]. *)
Theorem logValue_restores_color
    (g : Z) (x : value) (depth : Z) (b : Buffer.t) :
  match logValue g x depth b with
  | Done b' =>
      Buffer.color b' = Buffer.color b
      ∧ (Buffer.style b' = Buffer.style b ∨ Buffer.style b' = Normal)
  | Thrown b' => hasNull x = true ∧ Buffer.color b' = textColor
  end.
Proof.
  pose proof (logValue_settles g x depth b) as H. unfold Con_settles in H.
  destruct (logValue g x depth b); [done|].
  cbn [existsb] in H. by rewrite orb_false_r in H.
Qed.

(** X20.  With no [null] among the arguments, [log], [warn] and [error]
    return and leave the buffer's active color at the color of their
    level ([logColor], [warnColor], [errorColor]): the caller's color is
    not restored.  [put], which writes no gutter, leaves the color as it
    was. *)
Theorem log_leaves_level_color (args : list value) (con : t) :
  existsb hasNull args = false →
  (∃ b', log args con = Done b' ∧ Buffer.color b' = logColor)
  ∧ (∃ b', warn args con = Done b' ∧ Buffer.color b' = warnColor)
  ∧ (∃ b', error args con = Done b' ∧ Buffer.color b' = errorColor)
  ∧ (∃ b', put args con = Done b'
         ∧ Buffer.color b' = Buffer.color (buffer con)).
Proof.
  intros Hn.
  assert (∀ prefix color,
            ∃ b', logWith prefix color args con = Done b'
                ∧ Buffer.color b' = color) as Hlevel.
  { intros prefix color. unfold logWith. cbv zeta.
    destruct (logArguments_returns (groupDepth con) args
                (writeGutter prefix color (groupDepth con) (buffer con)) Hn)
      as (b' & -> & Hc).
    exists (Buffer.newLine b'). split; [done|].
    destruct (writeGutter_fields prefix color (groupDepth con) (buffer con))
      as [Hg _].
    by rewrite <- Hg, <- Hc. }
  split; [apply Hlevel|]. split; [apply Hlevel|]. split; [apply Hlevel|].
  by apply logArguments_returns.
Qed.

Lemma log_leaves_level_color_witness :
  let con := Con.run [Group [103]] (Buffer.new 80) in
  let args := [VString [104; 10; 105]; VObject [([107], VNumber [49])]] in
  (∃ b', log args con = Done b' ∧ Buffer.color b' = logColor)
  ∧ (∃ b', warn args con = Done b' ∧ Buffer.color b' = warnColor)
  ∧ (∃ b', error args con = Done b' ∧ Buffer.color b' = errorColor)
  ∧ (∃ b', put args con = Done b'
         ∧ Buffer.color b' = Buffer.color (buffer con)).
Proof.
  intros con args. apply (log_leaves_level_color args con). by_evaluation.
Defined.

End console_colors.


(** ** The older screen: scrolling *)

Section legacy_screen.
Import LegacyScreen.

Ltac compare_cases :=
  repeat match goal with
         | |- context [?a <=? ?b] => destruct (Z.leb_spec a b)
         | |- context [?a <? ?b] => destruct (Z.ltb_spec a b)
         | |- context [?a =? ?b] => destruct (Z.eqb_spec a b)
         end;
  cbn [andb orb]; try done; try lia.

Lemma bytes_store a j x :
  TypedArray_bytes a → TypedArray_bytes (TypedArray.store a j x).
Proof.
  intros [Hb Hv]. split; [by rewrite bits_store|].
  intros k v Hk. destruct (Z.eq_dec k j) as [->|Hne].
  - pose proof (get_Some_in_range _ _ _ Hk) as Hr.
    rewrite length_store in Hr. rewrite get_store_eq, Hb in Hk by done.
    injection Hk as <-. apply Z.mod_pos_bound. lia.
  - rewrite get_store_ne in Hk by done. eauto.
Qed.

Lemma bytes_alloc n : TypedArray_bytes (Uint8Array n).
Proof.
  split; [done|]. intros k v Hk. unfold Uint8Array in Hk.
  pose proof (get_Some_in_range _ _ _ Hk) as Hr.
  rewrite get_alloc in Hk by done. injection Hk as <-. lia.
Qed.

Lemma inView_spec a i L :
  TypedArray.length a = 4 * L → inView a i = true ↔ 0 <= i < L.
Proof.
  intros Hl. unfold inView. rewrite Hl.
  replace (4 * L / 4) with L by (rewrite Z.mul_comm, Z.div_mul; lia).
  rewrite andb_true_iff. lia.
Qed.

Lemma viewByte_range a i k : TypedArray_bytes a → 0 <= viewByte a i k < 256.
Proof.
  intros [_ Hv]. unfold viewByte. destruct (inView a i); [|lia].
  destruct (TypedArray.get a (4 * i + k)) as [v|] eqn:E; [|cbn; lia].
  cbn. eauto.
Qed.

Lemma viewByte_get a i k v L :
  TypedArray.length a = 4 * L → 0 <= i < L →
  TypedArray.get a (4 * i + k) = Some v → viewByte a i k = v.
Proof.
  intros Hl Hi Hg. unfold viewByte.
  by rewrite (proj2 (inView_spec a i L Hl) Hi), Hg.
Qed.

Lemma viewByte_outside a i k L :
  TypedArray.length a = 4 * L → ¬ (0 <= i < L) → viewByte a i k = 0.
Proof.
  intros Hl Hi. unfold viewByte.
  destruct (inView a i) eqn:E; [|done].
  by apply (inView_spec a i L Hl) in E.
Qed.

Lemma viewAssign_shape a dst src :
  TypedArray.length (viewAssign a dst src) = TypedArray.length a
  ∧ (TypedArray_bytes a → TypedArray_bytes (viewAssign a dst src)).
Proof.
  unfold viewAssign. cbv zeta. destruct (inView a dst); [|done].
  rewrite !length_store. split; [done|]. auto using bytes_store.
Qed.

(** [view[dst] = view[src]] moves the four bytes of a cell. *)
Lemma viewAssign_get a dst src L c t :
  TypedArray_bytes a → TypedArray.length a = 4 * L →
  0 <= dst < L → 0 <= t < 4 →
  TypedArray.get (viewAssign a dst src) (4 * c + t)
  = if c =? dst then Some (viewByte a src t)
    else TypedArray.get a (4 * c + t).
Proof.
  intros Hb Hl Hdst Ht. unfold viewAssign. cbv zeta.
  rewrite (proj2 (inView_spec a dst L Hl) Hdst).
  destruct Hb as [Hbits Hv].
  destruct (Z.eqb_spec c dst) as [->|Hne].
  - assert (t = 0 ∨ t = 1 ∨ t = 2 ∨ t = 3) as [-> | [-> | [-> | ->]]] by lia.
    + rewrite !get_store_ne by lia. rewrite Z.add_0_r.
      rewrite get_store_eq, Hbits by lia.
      f_equal. apply Z.mod_small, viewByte_range. by split.
    + rewrite !get_store_ne by lia.
      rewrite get_store_eq, bits_store, Hbits by (rewrite !length_store; lia).
      f_equal. apply Z.mod_small, viewByte_range. by split.
    + rewrite !get_store_ne by lia.
      rewrite get_store_eq, !bits_store, Hbits
        by (rewrite !length_store; lia).
      f_equal. apply Z.mod_small, viewByte_range. by split.
    + rewrite get_store_eq, !bits_store, Hbits
        by (rewrite !length_store; lia).
      f_equal. apply Z.mod_small, viewByte_range. by split.
  - by rewrite !get_store_ne by lia.
Qed.

Lemma viewZero_shape a dst :
  TypedArray.length (viewZero a dst) = TypedArray.length a
  ∧ (TypedArray_bytes a → TypedArray_bytes (viewZero a dst)).
Proof.
  unfold viewZero, viewStoreZero. destruct (inView a dst); [|done].
  rewrite !length_store. split; [done|]. auto using bytes_store.
Qed.

Lemma viewZero_get a dst L c t :
  TypedArray.length a = 4 * L → 0 <= dst < L → 0 <= t < 4 →
  TypedArray.get (viewZero a dst) (4 * c + t)
  = if c =? dst then Some 0 else TypedArray.get a (4 * c + t).
Proof.
  intros Hl Hdst Ht. unfold viewZero.
  rewrite (proj2 (inView_spec a dst L Hl) Hdst), viewStoreZero_get.
  destruct (Z.eqb_spec c dst) as [->|Hne].
  - rewrite (proj2 (in_range_spec a (4 * dst + t))) by lia. compare_cases.
  - compare_cases.
Qed.

Lemma zeroRow_shape k x y w0 a :
  TypedArray.length (zeroRow k x y w0 a) = TypedArray.length a
  ∧ (TypedArray_bytes a → TypedArray_bytes (zeroRow k x y w0 a)).
Proof.
  revert x a. induction k as [|k IH]; intros x a; [done|].
  cbn [zeroRow]. destruct (IH (x + 1) (viewZero a (y * w0 + x))) as [-> Hb].
  destruct (viewZero_shape a (y * w0 + x)) as [-> Hb']. auto.
Qed.

Lemma shiftRow_shape k x y n w0 a :
  TypedArray.length (shiftRow k x y n w0 a) = TypedArray.length a
  ∧ (TypedArray_bytes a → TypedArray_bytes (shiftRow k x y n w0 a)).
Proof.
  revert x a. induction k as [|k IH]; intros x a; [done|].
  cbn [shiftRow].
  destruct (IH (x + 1) (viewAssign a (y * w0 + x) ((y + n) * w0 + x)))
    as [-> Hb].
  destruct (viewAssign_shape a (y * w0 + x) ((y + n) * w0 + x)) as [-> Hb'].
  auto.
Qed.

Lemma scrollRows_shape k y n w0 h0 a :
  TypedArray.length (scrollRows k y n w0 h0 a) = TypedArray.length a
  ∧ (TypedArray_bytes a → TypedArray_bytes (scrollRows k y n w0 h0 a)).
Proof.
  revert y a. induction k as [|k IH]; intros y a; [done|].
  cbn [scrollRows].
  destruct (IH (y + 1)
              (if h0 - n <=? y then zeroRow (Z.to_nat w0) 0 y w0 a
               else shiftRow (Z.to_nat w0) 0 y n w0 a)) as [-> Hb].
  destruct (h0 - n <=? y).
  - destruct (zeroRow_shape (Z.to_nat w0) 0 y w0 a) as [-> Hb']. auto.
  - destruct (shiftRow_shape (Z.to_nat w0) 0 y n w0 a) as [-> Hb']. auto.
Qed.

(** The cells a row loop writes, and what it leaves alone. *)
Lemma zeroRow_get k x y w0 a L c t :
  TypedArray.length a = 4 * L →
  0 <= y * w0 + x → y * w0 + x + Z.of_nat k <= L → 0 <= t < 4 →
  TypedArray.get (zeroRow k x y w0 a) (4 * c + t)
  = if (y * w0 + x <=? c) && (c <? y * w0 + x + Z.of_nat k) then Some 0
    else TypedArray.get a (4 * c + t).
Proof.
  revert x a. induction k as [|k IH]; intros x a Hl Hlo Hhi Ht.
  - cbn [zeroRow]. compare_cases.
  - cbn [zeroRow]. destruct (viewZero_shape a (y * w0 + x)) as [El _].
    rewrite (IH (x + 1)) by (rewrite ?El; lia).
    rewrite (viewZero_get a (y * w0 + x) L) by lia.
    compare_cases.
Qed.

Lemma shiftRow_get k x y n w0 a L c t :
  TypedArray_bytes a → TypedArray.length a = 4 * L →
  0 <= y * w0 + x → y * w0 + x + Z.of_nat k <= L → 0 <= t < 4 →
  0 <= n * w0 ∨ n * w0 <= - Z.of_nat k →
  TypedArray.get (shiftRow k x y n w0 a) (4 * c + t)
  = if (y * w0 + x <=? c) && (c <? y * w0 + x + Z.of_nat k)
    then Some (viewByte a (c + n * w0) t)
    else TypedArray.get a (4 * c + t).
Proof.
  revert x a. induction k as [|k IH]; intros x a Hb Hl Hlo Hhi Ht Hd.
  - cbn [shiftRow]. compare_cases.
  - cbn [shiftRow].
    destruct (viewAssign_shape a (y * w0 + x) ((y + n) * w0 + x))
      as [El Hb'].
    rewrite (IH (x + 1)) by (rewrite ?El; auto; lia).
    rewrite (viewAssign_get a (y * w0 + x) ((y + n) * w0 + x) L)
      by (done || lia).
    replace ((y + n) * w0 + x) with (y * w0 + x + n * w0) by lia.
    compare_cases.
    + f_equal. unfold viewByte.
      destruct (viewAssign_shape a (y * w0 + x) (y * w0 + x + n * w0))
        as [El' _].
      replace ((y + n) * w0 + x) with (y * w0 + x + n * w0) by lia.
      unfold inView. rewrite El'.
      destruct ((0 <=? c + n * w0)
                && (c + n * w0 <? TypedArray.length a / 4)) eqn:E; [|done].
      apply andb_true_iff in E as [E1 E2].
      assert (0 <= c + n * w0 < L).
      { rewrite Hl in E2.
        replace (4 * L / 4) with L in E2
          by (rewrite Z.mul_comm, Z.div_mul; lia). lia. }
      rewrite (viewAssign_get a (y * w0 + x) (y * w0 + x + n * w0) L)
        by (done || lia).
      by destruct (Z.eqb_spec (c + n * w0) (y * w0 + x)); [lia|].
    + by subst c.
Qed.

End legacy_screen.


Section legacy_scroll.
Import LegacyScreen.

Ltac compare_cases :=
  repeat match goal with
         | |- context [?a <=? ?b] => destruct (Z.leb_spec a b)
         | |- context [?a <? ?b] => destruct (Z.ltb_spec a b)
         | |- context [?a =? ?b] => destruct (Z.eqb_spec a b)
         end;
  cbn [andb orb]; try done; try lia.

(** Cell ([cx], [cy]) lies in the stretch of row [y0]. *)
Lemma cell_row cx cy y0 w0 :
  0 <= cx < w0 →
  (y0 * w0 + 0 <= cy * w0 + cx ∧ cy * w0 + cx < y0 * w0 + 0 + w0) ↔ cy = y0.
Proof.
  intros Hcx. split; [|intros ->; lia]. intros [H1 H2].
  destruct (Z.lt_trichotomy cy y0) as [Hlt | [Heq | Hgt]]; [|done|].
  - assert (cy * w0 + w0 <= y0 * w0) by nia. lia.
  - assert (y0 * w0 + w0 <= cy * w0) by nia. lia.
Qed.

(** One iteration of the row loop of [scroll(n)]. *)
Lemma scrollRow_get y0 n w0 h0 a cx cy t :
  TypedArray_bytes a → TypedArray.length a = 4 * (w0 * h0) →
  0 <= y0 < h0 → 0 <= cx < w0 → 0 <= cy < h0 → 0 <= t < 4 →
  TypedArray.get
    (if h0 - n <=? y0 then zeroRow (Z.to_nat w0) 0 y0 w0 a
     else shiftRow (Z.to_nat w0) 0 y0 n w0 a)
    (4 * (cy * w0 + cx) + t)
  = if cy =? y0
    then (if h0 - n <=? y0 then Some 0
          else Some (viewByte a ((y0 + n) * w0 + cx) t))
    else TypedArray.get a (4 * (cy * w0 + cx) + t).
Proof.
  intros Hb Hl Hy Hcx Hcy Ht.
  assert (y0 * w0 + 0 + Z.of_nat (Z.to_nat w0) <= w0 * h0) by nia.
  assert (0 <= y0 * w0 + 0) by nia.
  pose proof (cell_row cx cy y0 w0 Hcx) as Hrow.
  destruct (Z.leb_spec (h0 - n) y0) as [Hz|Hs].
  - rewrite (zeroRow_get _ 0 y0 w0 a (w0 * h0)) by done.
    rewrite Z2Nat.id by lia.
    destruct (Z.leb_spec (y0 * w0 + 0) (cy * w0 + cx)),
      (Z.ltb_spec (cy * w0 + cx) (y0 * w0 + 0 + w0)),
      (Z.eqb_spec cy y0); cbn [andb]; try done; try lia; tauto.
  - assert (0 <= n * w0 ∨ n * w0 <= - Z.of_nat (Z.to_nat w0)) as Hd
      by (destruct (Z.le_gt_cases 0 n); [left | right]; nia).
    rewrite (shiftRow_get _ 0 y0 n w0 a (w0 * h0)) by done.
    rewrite Z2Nat.id by lia.
    destruct (Z.leb_spec (y0 * w0 + 0) (cy * w0 + cx)),
      (Z.ltb_spec (cy * w0 + cx) (y0 * w0 + 0 + w0)),
      (Z.eqb_spec cy y0); cbn [andb]; try done; try lia; try tauto.
    subst cy. do 2 f_equal. lia.
Qed.

(** [scroll(n)] with [n >= 0]: the rows already passed show the rows
    [n] below them, or nothing. *)
Lemma scrollRows_up k y0 n w0 h0 a cx cy t :
  TypedArray_bytes a → TypedArray.length a = 4 * (w0 * h0) →
  0 <= n → 0 <= y0 → y0 + Z.of_nat k <= h0 →
  0 <= cx < w0 → 0 <= cy < h0 → 0 <= t < 4 →
  TypedArray.get (scrollRows k y0 n w0 h0 a) (4 * (cy * w0 + cx) + t)
  = if (y0 <=? cy) && (cy <? y0 + Z.of_nat k)
    then (if cy + n <? h0
          then TypedArray.get a (4 * ((cy + n) * w0 + cx) + t)
          else Some 0)
    else TypedArray.get a (4 * (cy * w0 + cx) + t).
Proof.
  revert y0 a.
  induction k as [|k IH]; intros y0 a Hb Hl Hn Hy0 Hk Hcx Hcy Ht.
  - cbn [scrollRows]. compare_cases.
  - cbn [scrollRows].
    set (a' := if h0 - n <=? y0 then zeroRow (Z.to_nat w0) 0 y0 w0 a
               else shiftRow (Z.to_nat w0) 0 y0 n w0 a).
    assert (TypedArray.length a' = TypedArray.length a
            ∧ TypedArray_bytes a') as [El Hb'].
    { subst a'. destruct (h0 - n <=? y0).
      - destruct (zeroRow_shape (Z.to_nat w0) 0 y0 w0 a); auto.
      - destruct (shiftRow_shape (Z.to_nat w0) 0 y0 n w0 a); auto. }
    rewrite IH by (done || lia).
    assert (∀ cy', 0 <= cy' < h0 →
              TypedArray.get a' (4 * (cy' * w0 + cx) + t)
              = if cy' =? y0
                then (if h0 - n <=? y0 then Some 0
                      else Some (viewByte a ((y0 + n) * w0 + cx) t))
                else TypedArray.get a (4 * (cy' * w0 + cx) + t)) as Hrow
      by (intros cy' Hcy'; subst a'; apply scrollRow_get; done || lia).
    destruct (Z.lt_trichotomy cy y0) as [Hlt | [Heq | Hgt]].
    + destruct (Z.leb_spec (y0 + 1) cy); [lia|].
      destruct (Z.leb_spec y0 cy); [lia|]. cbn [andb].
      rewrite (Hrow cy) by lia. compare_cases.
    + subst cy. destruct (Z.leb_spec (y0 + 1) y0); [lia|]. cbn [andb].
      rewrite (Hrow y0) by lia. rewrite Z.eqb_refl. compare_cases.
      assert (0 <= (y0 + n) * w0 + cx < w0 * h0) by nia.
      destruct (get_in_range a (4 * ((y0 + n) * w0 + cx) + t)) as [v Ev];
        [lia|].
      rewrite Ev. f_equal. by apply (viewByte_get a _ t v (w0 * h0)).
    + destruct (Z.ltb_spec (cy + n) h0).
      * rewrite (Hrow (cy + n)), (Hrow cy) by lia. compare_cases.
      * rewrite (Hrow cy) by lia. compare_cases.
Qed.

(** [scroll(n)] with [n < 0]: every row is read from a row above it that
    is already blank, or from outside the view. *)
Lemma scrollRows_down k y0 n w0 h0 a cx cy t :
  TypedArray_bytes a → TypedArray.length a = 4 * (w0 * h0) →
  n < 0 → 0 <= y0 → y0 + Z.of_nat k <= h0 →
  (∀ cx' cy' t', 0 <= cx' < w0 → 0 <= cy' < y0 → 0 <= t' < 4 →
     TypedArray.get a (4 * (cy' * w0 + cx') + t') = Some 0) →
  0 <= cx < w0 → 0 <= cy < h0 → 0 <= t < 4 →
  TypedArray.get (scrollRows k y0 n w0 h0 a) (4 * (cy * w0 + cx) + t)
  = if (y0 <=? cy) && (cy <? y0 + Z.of_nat k) then Some 0
    else TypedArray.get a (4 * (cy * w0 + cx) + t).
Proof.
  revert y0 a.
  induction k as [|k IH]; intros y0 a Hb Hl Hn Hy0 Hk Hzero Hcx Hcy Ht.
  - cbn [scrollRows]. compare_cases.
  - cbn [scrollRows].
    set (a' := if h0 - n <=? y0 then zeroRow (Z.to_nat w0) 0 y0 w0 a
               else shiftRow (Z.to_nat w0) 0 y0 n w0 a).
    assert (TypedArray.length a' = TypedArray.length a
            ∧ TypedArray_bytes a') as [El Hb'].
    { subst a'. destruct (h0 - n <=? y0).
      - destruct (zeroRow_shape (Z.to_nat w0) 0 y0 w0 a); auto.
      - destruct (shiftRow_shape (Z.to_nat w0) 0 y0 n w0 a); auto. }
    assert (∀ cx' cy' t', 0 <= cx' < w0 → 0 <= cy' < h0 → 0 <= t' < 4 →
              TypedArray.get a' (4 * (cy' * w0 + cx') + t')
              = if cy' =? y0 then Some 0
                else TypedArray.get a (4 * (cy' * w0 + cx') + t')) as Hrow.
    { intros cx' cy' t' Hcx' Hcy' Ht'. subst a'.
      rewrite scrollRow_get by (done || lia).
      destruct (Z.eqb_spec cy' y0) as [->|]; [|done].
      destruct (Z.leb_spec (h0 - n) y0); [done|]. f_equal.
      destruct (Z.lt_ge_cases (y0 + n) 0) as [Hneg|Hpos].
      - apply (viewByte_outside a _ t' (w0 * h0)); [done|]. nia.
      - apply (viewByte_get a _ t' 0 (w0 * h0)); [done | nia |].
        apply Hzero; lia. }
    rewrite IH; try done; try lia.
    + rewrite Hrow by done.
      destruct (Z.leb_spec (y0 + 1) cy),
        (Z.ltb_spec cy (y0 + 1 + Z.of_nat k)),
        (Z.leb_spec y0 cy), (Z.ltb_spec cy (y0 + Z.of_nat (S k))),
        (Z.eqb_spec cy y0); cbn [andb]; try done; lia.
    + intros cx' cy' t' Hcx' Hcy' Ht'. rewrite Hrow by (done || lia).
      destruct (Z.eqb_spec cy' y0); [done|]. apply Hzero; lia.
Qed.

Lemma legacyScreen_wf_sized columns rows tiles :
  0 <= columns → 0 <= rows → LegacyScreen_wf (sized columns rows tiles).
Proof.
  intros Hc Hr. split; cbn [sized screenBuffer w h];
    [apply bytes_alloc | cbn; lia | done].
Qed.

Lemma legacyScreen_wf_setBuffer a s :
  LegacyScreen_wf s → TypedArray_bytes a →
  TypedArray.length a = TypedArray.length (screenBuffer s) →
  LegacyScreen_wf (setBuffer a s).
Proof.
  intros [Hb Hl Hs] Ha El. split; cbn [setBuffer screenBuffer w h];
    [done | by rewrite El | done].
Qed.

Lemma legacyScreen_wf_setCursor x y s :
  LegacyScreen_wf s → LegacyScreen_wf (setCursor x y s).
Proof. by intros [Hb Hl Hs]. Qed.

Lemma legacyScreen_wf_scroll n s : LegacyScreen_wf s → LegacyScreen_wf (scroll n s).
Proof.
  intros Hwf. pose proof Hwf as [Hb Hl Hs].
  destruct (scrollRows_shape (Z.to_nat (h s)) 0 n (w s) (h s) (screenBuffer s))
    as [El Hb'].
  apply legacyScreen_wf_setBuffer; auto.
Qed.

Lemma clearView_bytes n i a :
  TypedArray_bytes a → TypedArray_bytes (clearView n i a).
Proof.
  revert i a. induction n as [|n IH]; intros i a Ha; [done|].
  cbn [clearView]. apply IH. unfold viewStoreZero. auto using bytes_store.
Qed.

Lemma legacyScreen_wf_clear s : LegacyScreen_wf s → LegacyScreen_wf (clear s).
Proof.
  intros Hwf. pose proof Hwf as [Hb Hl Hs]. unfold clear.
  apply legacyScreen_wf_setBuffer; [done | by apply clearView_bytes |].
  apply clearView_shape.
Qed.

Lemma legacyScreen_wf_next s : LegacyScreen_wf s → LegacyScreen_wf (next s).
Proof.
  intros Hwf. unfold next. cbv zeta.
  set (s1 := setCursor (cursor_x s + 1) (cursor_y s) s).
  assert (LegacyScreen_wf s1) as H1 by (by apply legacyScreen_wf_setCursor).
  set (s2 := if (w s1 <? cursor_x s1) && wrap s1
             then setCursor 0 (cursor_y s1 + 1) s1 else s1).
  assert (LegacyScreen_wf s2) as H2
    by (subst s2; destruct (_ && _); auto using legacyScreen_wf_setCursor).
  destruct (h s2 <? cursor_y s2);
    auto using legacyScreen_wf_scroll, legacyScreen_wf_setCursor.
Qed.

Lemma legacyScreen_wf_nextLine s : LegacyScreen_wf s → LegacyScreen_wf (nextLine s).
Proof.
  intros Hwf. unfold nextLine. cbv zeta.
  destruct (_ <=? _); auto using legacyScreen_wf_scroll, legacyScreen_wf_setCursor.
Qed.

Lemma legacyScreen_wf_invalidate s :
  LegacyScreen_wf s → LegacyScreen_wf (invalidate s).
Proof. by intros [Hb Hl Hs]. Qed.

Lemma legacyScreen_wf_writeCharCode c s :
  LegacyScreen_wf s → LegacyScreen_wf (writeCharCode c s).
Proof.
  intros Hwf. unfold writeCharCode. cbv zeta.
  pose proof (legacyScreen_wf_invalidate s Hwf) as Hi.
  destruct (c =? CharacterCode_NewLine); [by apply legacyScreen_wf_nextLine|].
  destruct (_ || _); [done|].
  apply legacyScreen_wf_next, legacyScreen_wf_setBuffer; [done | |].
  - destruct Hi as [Hb _ _]. unfold Screen.storeCell, TypedArray.store_num.
    auto using bytes_store.
  - apply length_storeCell.
Qed.

Lemma legacyScreen_wf_writeText str s :
  LegacyScreen_wf s → LegacyScreen_wf (writeText str s).
Proof.
  revert s. induction str as [|c str IH]; intros s Hwf; [done|].
  cbn [writeText]. auto using legacyScreen_wf_writeCharCode.
Qed.

Lemma legacyScreen_wf_setColor r g b s :
  LegacyScreen_wf s → LegacyScreen_wf (setColor r g b s).
Proof. by intros [Hb Hl Hs]. Qed.

Lemma legacyScreen_wf_run ops s :
  LegacyScreen_wf s → LegacyScreen_wf (run ops s).
Proof.
  revert s. induction ops as [|o ops IH]; intros s Hwf; [done|].
  cbn [run fold_left]. apply IH.
  destruct o; cbn [step];
    auto using legacyScreen_wf_setCursor, legacyScreen_wf_next,
      legacyScreen_wf_nextLine, legacyScreen_wf_clear, legacyScreen_wf_scroll,
      legacyScreen_wf_writeCharCode, legacyScreen_wf_writeText,
      legacyScreen_wf_setColor.
  by destruct Hwf.
Qed.

(** What [scroll(n)] does to a well-formed screen. *)
Lemma scroll_get n s cx cy t :
  LegacyScreen_wf s → 0 <= cx < w s → 0 <= cy < h s → 0 <= t < 4 →
  TypedArray.get (screenBuffer (scroll n s)) (4 * (cy * w s + cx) + t)
  = if (0 <=? n) && (cy + n <? h s)
    then TypedArray.get (screenBuffer s) (4 * ((cy + n) * w s + cx) + t)
    else Some 0.
Proof.
  intros [Hb Hl Hs] Hcx Hcy Ht. unfold scroll. cbn [setBuffer screenBuffer].
  destruct (Z.leb_spec 0 n) as [Hn|Hn]; cbn [andb].
  - rewrite scrollRows_up by (done || lia).
    rewrite Z2Nat.id by lia. compare_cases.
  - rewrite scrollRows_down; try done; try lia.
    rewrite Z2Nat.id by lia. compare_cases.
Qed.

(** X21.  The older screen scrolls in place.  On a screen made by
    [resize()] and changed through the cursor and writing methods,
    [scroll(n)] with [n >= 0] moves every row up by [n]: cell ([cx], [cy])
    gets the four bytes of cell ([cx], [cy + n]) and the last [n] rows
    become blank.  A negative [n] does not scroll back: each row is then
    read from a row that was just overwritten (or from outside the
    view), and the whole tilemap becomes blank. *)
Theorem legacy_scroll_shifts
    (columns rows tiles : Z) (ops : list op) (n cx cy t : Z) :
  let s := run ops (sized columns rows tiles) in
  0 <= columns → 0 <= rows →
  0 <= cx < w s → 0 <= cy < h s → 0 <= t < 4 →
  TypedArray.get (screenBuffer (scroll n s)) (4 * (cy * w s + cx) + t)
  = if (0 <=? n) && (cy + n <? h s)
    then TypedArray.get (screenBuffer s) (4 * ((cy + n) * w s + cx) + t)
    else Some 0.
Proof.
  intros s Hc Hr. apply scroll_get.
  by apply legacyScreen_wf_run, legacyScreen_wf_sized.
Qed.

Lemma legacy_scroll_shifts_witness :
  let s := run [WriteText [65; 66]; Move 0 1; WriteText [67]] (sized 2 3 16) in
  TypedArray.get (screenBuffer s) (4 * ((0 + 1) * w s + 0) + 0) = Some 3
  ∧ TypedArray.get (screenBuffer (scroll 1 s)) (4 * (0 * w s + 0) + 0)
    = (if (0 <=? 1) && (0 + 1 <? h s)
       then TypedArray.get (screenBuffer s) (4 * ((0 + 1) * w s + 0) + 0)
       else Some 0).
Proof.
  intros s. split; [vm_compute; reflexivity|].
  apply (legacy_scroll_shifts 2 3 16
           [WriteText [65; 66]; Move 0 1; WriteText [67]] 1 0 0 0);
    by_evaluation.
Defined.

(** X22.  A line break on the last row of the older screen scrolls: when
    the cursor is on row [h - 1], [writeCharCode(10)] leaves it on that
    row at column 0, every row shows what the row below it showed, and
    the last row is blank; the screen is marked dirty. *)
Theorem legacy_newline_scrolls
    (columns rows tiles : Z) (ops : list op) (cx cy t : Z) :
  let s := run ops (sized columns rows tiles) in
  let s' := writeCharCode CharacterCode_NewLine s in
  0 <= columns → 0 <= rows → cursor_y s = h s - 1 →
  0 <= cx < w s → 0 <= cy < h s → 0 <= t < 4 →
  cursor_x s' = 0 ∧ cursor_y s' = h s - 1 ∧ dirty s' = true
  ∧ TypedArray.get (screenBuffer s') (4 * (cy * w s + cx) + t)
    = if cy + 1 <? h s
      then TypedArray.get (screenBuffer s) (4 * ((cy + 1) * w s + cx) + t)
      else Some 0.
Proof.
  intros s s' Hc Hr Hy Hcx Hcy Ht.
  assert (LegacyScreen_wf s) as Hwf
    by (by apply legacyScreen_wf_run, legacyScreen_wf_sized).
  unfold s', writeCharCode. cbv zeta. rewrite Z.eqb_refl.
  unfold nextLine. cbv zeta.
  cbn [invalidate setCursor cursor_x cursor_y h w].
  rewrite Hy.
  destruct (Z.leb_spec (h s) (h s - 1 + 1)) as [_|]; [|lia].
  do 3 (split; [cbn; lia|]).
  apply (scroll_get 1
           (setCursor 0 (h s - 1 + 1 - 1)
              (setCursor 0 (h s - 1 + 1) (invalidate s))) cx cy t);
    [|done..].
  by apply legacyScreen_wf_setCursor, legacyScreen_wf_setCursor,
    legacyScreen_wf_invalidate.
Qed.

Lemma legacy_newline_scrolls_witness :
  let s := run [WriteText [65; 10; 66; 10; 67]] (sized 2 3 16) in
  let s' := writeCharCode CharacterCode_NewLine s in
  cursor_x s' = 0 ∧ cursor_y s' = h s - 1 ∧ dirty s' = true
  ∧ TypedArray.get (screenBuffer s') (4 * (1 * w s + 0) + 0)
    = if 1 + 1 <? h s
      then TypedArray.get (screenBuffer s) (4 * ((1 + 1) * w s + 0) + 0)
      else Some 0.
Proof.
  intros s.
  apply (legacy_newline_scrolls 2 3 16 [WriteText [65; 10; 66; 10; 67]]
           0 1 0); by_evaluation.
Defined.

End legacy_scroll.


Section console_keys.
Import Con.

Lemma split_nonempty s : split s ≠ [].
Proof.
  destruct s as [|c s]; [done|]. cbn [split].
  destruct (c =? CharacterCode_NewLine); [done|]. by destruct (split s).
Qed.

Lemma join_cons sep seg t :
  t ≠ [] → join sep (seg :: t) = seg ++ sep ++ join sep t.
Proof. by destruct t. Qed.

Lemma join_split s :
  join [95] (split s)
  = map (λ c, if c =? CharacterCode_NewLine then 95 else c) s.
Proof.
  induction s as [|c s IH]; [done|]. cbn [split map].
  destruct (c =? CharacterCode_NewLine).
  - rewrite join_cons by apply split_nonempty. by rewrite IH.
  - rewrite <- IH. pose proof (split_nonempty s) as Hne.
    destruct (split s) as [|seg t]; [done|].
    destruct t as [|seg' t]; [done|].
    by rewrite !join_cons by done.
Qed.

(** X23.  [removeNewLineCharacter] replaces each newline code by an
    underscore and leaves every other code unit where it is, so the key
    of an object never breaks the row it is printed on. *)
Theorem removeNewLineCharacter_replaces (s : list Z) :
  removeNewLineCharacter s
  = map (λ c, if c =? CharacterCode_NewLine then 95 else c) s
  ∧ Forall (λ c, c ≠ CharacterCode_NewLine) (removeNewLineCharacter s).
Proof.
  assert (removeNewLineCharacter s
          = map (λ c, if c =? CharacterCode_NewLine then 95 else c) s) as E.
  { unfold removeNewLineCharacter.
    destruct (hasNewLine s) eqn:Hn; [apply join_split|].
    unfold hasNewLine in Hn. induction s as [|c s IH]; [done|].
    cbn [existsb] in Hn. apply orb_false_iff in Hn as [Hc Hn].
    cbn [map]. rewrite Hc. f_equal. by apply IH. }
  split; [done|]. rewrite E. clear E.
  induction s as [|c s IH]; cbn [map]; constructor; [|done].
  by destruct (Z.eqb_spec c CharacterCode_NewLine).
Qed.

End console_keys.


(** ** The older screen: text along a row *)

Section legacy_text.
Import LegacyScreen.

Ltac compare_cases :=
  repeat match goal with
         | |- context [?a <=? ?b] => destruct (Z.leb_spec a b)
         | |- context [?a <? ?b] => destruct (Z.ltb_spec a b)
         | |- context [?a =? ?b] => destruct (Z.eqb_spec a b)
         end;
  cbn [andb orb]; try done; try lia.

(** [setColor] packs like [makeColor]. *)
Lemma legacy_setColor_color r g b s :
  color (setColor r g b s)
  = makeColor (clamp r 0 255) (clamp g 0 255) (clamp b 0 255).
Proof.
  cbn [setColor color]. unfold makeColor.
  pose proof (clamp_range r 0 255 ltac:(lia)).
  pose proof (clamp_range g 0 255 ltac:(lia)).
  pose proof (clamp_range b 0 255 ltac:(lia)).
  rewrite !(toInt32_small (clamp _ 0 255)) by lia.
  assert (∀ v, 0 <= v <= 255 → clamp v 0 255 = v) as Hid
    by (intros v Hv; unfold clamp; lia).
  by rewrite (Hid (clamp r 0 255)), (Hid (clamp g 0 255)),
    (Hid (clamp b 0 255)) by lia.
Qed.

Lemma scroll_fields n s :
  color (scroll n s) = color s ∧ tileColumns (scroll n s) = tileColumns s.
Proof. done. Qed.

Lemma next_fields s :
  color (next s) = color s ∧ tileColumns (next s) = tileColumns s.
Proof.
  unfold next. cbv zeta.
  destruct (_ && _); destruct (_ <? _); done.
Qed.

Lemma nextLine_fields s :
  color (nextLine s) = color s ∧ tileColumns (nextLine s) = tileColumns s.
Proof. unfold nextLine. cbv zeta. by destruct (_ <=? _). Qed.

Lemma legacy_writeCharCode_fields c s :
  color (writeCharCode c s) = color s
  ∧ tileColumns (writeCharCode c s) = tileColumns s.
Proof.
  unfold writeCharCode. cbv zeta.
  destruct (c =? CharacterCode_NewLine);
    [by destruct (nextLine_fields (invalidate s)) as [-> ->]|].
  destruct (_ || _); [done|].
  match goal with |- context [next ?a] => by destruct (next_fields a) as [-> ->] end.
Qed.

Lemma writeText_fields str s :
  color (writeText str s) = color s
  ∧ tileColumns (writeText str s) = tileColumns s.
Proof.
  revert s. induction str as [|c str IH]; intros s; [done|].
  cbn [writeText]. destruct (IH (writeCharCode c s)) as [-> ->].
  apply legacy_writeCharCode_fields.
Qed.

(** The color of a screen is a 16-bit number and its sprite sheet keeps
    its width. *)
Lemma run_fields ops s :
  0 <= color s < 65536 →
  0 <= color (run ops s) < 65536
  ∧ tileColumns (run ops s) = tileColumns s.
Proof.
  revert s. induction ops as [|o ops IH]; intros s Hc; [done|].
  cbn [run fold_left].
  assert (0 <= color (step s o) < 65536
          ∧ tileColumns (step s o) = tileColumns s) as [Hc' Et].
  { destruct o; cbn [step]; try done.
    - by destruct (next_fields s) as [-> ->].
    - by destruct (nextLine_fields s) as [-> ->].
    - split; [|done]. rewrite legacy_setColor_color.
      pose proof (clamp_range r 0 255 ltac:(lia)).
      pose proof (clamp_range g 0 255 ltac:(lia)).
      pose proof (clamp_range b 0 255 ltac:(lia)).
      rewrite makeColor_pack by lia.
      Z.div_mod_to_equations. lia.
    - by destruct (legacy_writeCharCode_fields c s) as [-> ->].
    - by destruct (writeText_fields str s) as [-> ->]. }
  destruct (IH (step s o) Hc') as [Hc'' Et'].
  split; [done|]. by rewrite <- Et.
Qed.

(** One character at a column from 0 to [w], on a row of the grid. *)
Lemma writeCharCode_cell c s :
  c ≠ CharacterCode_NewLine →
  0 <= cursor_x s <= w s → 0 <= cursor_y s < h s →
  let s' := writeCharCode c s in
  screenBuffer s'
  = Screen.storeCell (screenBuffer s) ((w s * cursor_y s + cursor_x s) * 4)
      (Some c) (tileColumns s) (Some (color s))
  ∧ (cursor_x s', cursor_y s')
    = (if (cursor_x s =? w s) && wrap s then (0, cursor_y s + 1)
       else (cursor_x s + 1, cursor_y s))
  ∧ w s' = w s ∧ h s' = h s ∧ wrap s' = wrap s ∧ dirty s' = true.
Proof.
  intros Hc Hx Hy s'. subst s'. unfold writeCharCode. cbv zeta.
  change (w (invalidate s)) with (w s).
  change (h (invalidate s)) with (h s).
  change (cursor_x (invalidate s)) with (cursor_x s).
  change (cursor_y (invalidate s)) with (cursor_y s).
  destruct (Z.eqb_spec c CharacterCode_NewLine) as [|_]; [done|].
  assert ((w s <? cursor_x s) || (cursor_x s <? 0) || (h s <? cursor_y s)
          || (cursor_y s <? 0) = false) as -> by compare_cases.
  remember (Screen.storeCell (screenBuffer (invalidate s))
              ((w s * cursor_y s + cursor_x s) * 4) (Some c)
              (tileColumns (invalidate s)) (Some (color (invalidate s))))
    as a eqn:Ea.
  unfold next. cbv zeta.
  change (w (setCursor _ _ (setBuffer a (invalidate s)))) with (w s).
  change (wrap (setCursor _ _ (setBuffer a (invalidate s)))) with (wrap s).
  change (cursor_x (setCursor ?x _ (setBuffer a (invalidate s)))) with x.
  change (cursor_y (setCursor _ ?y (setBuffer a (invalidate s)))) with y.
  change (cursor_x (setBuffer a (invalidate s))) with (cursor_x s).
  change (cursor_y (setBuffer a (invalidate s))) with (cursor_y s).
  destruct (Z.eqb_spec (cursor_x s) (w s)) as [Ex|Ex];
    destruct (wrap s) eqn:Ewrap; cbn [andb]; rewrite ?andb_false_r.
  - assert ((w s <? cursor_x s + 1) = true) as -> by lia. cbn [andb].
    change (h (setCursor _ _ (setCursor _ _ (setBuffer a (invalidate s)))))
      with (h s).
    change (cursor_y (setCursor _ ?y _)) with y.
    assert ((h s <? cursor_y s + 1) = false) as -> by lia. done.
  - change (h (setCursor _ _ (setBuffer a (invalidate s)))) with (h s).
    change (cursor_y (setCursor _ ?y _)) with y.
    assert ((h s <? cursor_y s) = false) as -> by lia. done.
  - assert ((w s <? cursor_x s + 1) = false) as -> by lia. cbn [andb].
    change (h (setCursor _ _ (setBuffer a (invalidate s)))) with (h s).
    change (cursor_y (setCursor _ ?y _)) with y.
    assert ((h s <? cursor_y s) = false) as -> by lia. done.
  - change (h (setCursor _ _ (setBuffer a (invalidate s)))) with (h s).
    change (cursor_y (setCursor _ ?y _)) with y.
    assert ((h s <? cursor_y s) = false) as -> by lia. done.
Qed.

(** The bytes of a cell of the older screen. *)
Lemma legacy_cell_bytes a i c tiles col :
  TypedArray.bits a = 8 → 0 <= i → i + 4 <= TypedArray.length a →
  1 <= tiles <= 256 → 0 <= c < 256 → 0 <= col < 65536 →
  map (λ t, TypedArray.get
              (Screen.storeCell a i (Some c) tiles (Some col)) (i + t))
      [0; 1; 2; 3]
  = [Some (c mod tiles); Some (c / tiles);
     Some (col mod 256); Some (col / 256)].
Proof.
  intros Hb Hi Hl Ht Hc Hcol. rewrite storeCell_get by done.
  cbn [default option_map]. change (2 ^ 8) with 256.
  destruct (tile_of_index tiles c) as (Hx & Hy & _); [lia | lia |].
  rewrite (Z.mod_small (rem_int32 _ _)) by lia.
  rewrite (Z.mod_small (quot_int32 _ _)) by lia.
  unfold rem_int32, quot_int32.
  assert ((tiles =? 0) = false) as -> by lia.
  rewrite Z.rem_mod_nonneg, Z.quot_div_nonneg by lia.
  assert (0 <= c / tiles <= c)
    by (split; [apply Z.div_pos; lia | apply Z.div_le_upper_bound; nia]).
  pose proof (Z.mod_pos_bound c tiles ltac:(lia)).
  rewrite !toInt32_small by lia. unfold id.
  rewrite Z.shiftr_div_pow2 by lia. change (2 ^ 8) with 256.
  rewrite (Z.mod_small (col / 256))
    by (split; [apply Z.div_pos | apply Z.div_lt_upper_bound]; lia).
  done.
Qed.

(** What [writeText] stores along a row and what it leaves alone. *)
Lemma writeText_row (s : t) (str : list Z) :
  LegacyScreen_wf s → 1 <= tileColumns s <= 256 → 0 <= color s < 65536 →
  0 <= cursor_x s → cursor_x s + Z.of_nat (List.length str) <= w s →
  0 <= cursor_y s < h s →
  forallb (λ c, (0 <=? c) && (c <? 256)
                && negb (c =? CharacterCode_NewLine)) str = true →
  let s' := writeText str s in
  let i := 4 * (cursor_y s * w s + cursor_x s) in
  cursor_x s' = cursor_x s + Z.of_nat (List.length str)
  ∧ cursor_y s' = cursor_y s
  ∧ (∀ (k : nat) c, str !! k = Some c →
       map (λ t, TypedArray.get (screenBuffer s')
                   (i + 4 * Z.of_nat k + t)) [0; 1; 2; 3]
       = [Some (c mod tileColumns s); Some (c / tileColumns s);
          Some (color s mod 256); Some (color s / 256)])
  ∧ (∀ j, j < i ∨ i + 4 * Z.of_nat (List.length str) <= j →
       TypedArray.get (screenBuffer s') j = TypedArray.get (screenBuffer s) j).
Proof.
  revert s. induction str as [|c str IH];
    intros s Hwf Ht Hcol Hx Hlen Hy Hstr s' i.
  - subst s'. cbn [writeText List.length]. split; [lia|]. split; [done|].
    split; [intros k c Hk; done | done].
  - cbn [forallb] in Hstr. apply andb_true_iff in Hstr as [Hc Hstr].
    apply andb_true_iff in Hc as [Hc Hnl].
    apply negb_true_iff, Z.eqb_neq in Hnl.
    cbn [List.length] in Hlen.
    destruct (writeCharCode_cell c s) as (Eb & Ecur & Ew & Eh & Ewrap & _);
      [done | lia | lia |].
    assert ((cursor_x s =? w s) = false) as Ene by lia.
    rewrite Ene in Ecur. cbn [andb] in Ecur. injection Ecur as Ex Ey.
    destruct (legacy_writeCharCode_fields c s) as [Ec Et].
    pose proof (legacyScreen_wf_writeCharCode c s Hwf) as Hwf'.
    specialize (IH (writeCharCode c s) Hwf').
    rewrite Ex, Ey, Ew, Eh, Et, Ec in IH.
    destruct IH as (Ex' & Ey' & Hcells & Hframe); try done; try lia.
    change (writeText str (writeCharCode c s)) with s' in *.
    pose proof Hwf as [[Hbits _] Hl [Hw Hh]].
    assert (0 <= i ∧ i + 4 <= TypedArray.length (screenBuffer s)) as [Hi0 Hi1].
    { subst i. rewrite Hl. split; [nia|].
      assert (cursor_y s * w s + cursor_x s + 1 <= w s * h s); [|lia].
      assert ((cursor_y s + 1) * w s <= h s * w s)
        by (apply Z.mul_le_mono_nonneg_r; lia).
      lia. }
    assert ((w s * cursor_y s + cursor_x s) * 4 = i) as Ei by (subst i; lia).
    rewrite Ei in Eb.
    cbn [List.length]. split; [lia|]. split; [done|]. split.
    + intros k d Hk. destruct k as [|k].
      * cbn in Hk. injection Hk as <-.
        rewrite <- (legacy_cell_bytes (screenBuffer s) i c (tileColumns s)
                      (color s)) by (done || lia).
        rewrite <- Eb. cbn [map]. rewrite !Hframe by lia.
        repeat f_equal; lia.
      * cbn in Hk.
        replace (i + 4 * Z.of_nat (S k))
          with (4 * (cursor_y s * w s + (cursor_x s + 1)) + 4 * Z.of_nat k)
          by (unfold i; lia).
        by apply Hcells.
    + intros j Hj. rewrite Hframe by lia. rewrite Eb.
      apply storeCell_frame. lia.
Qed.

(** X24.  The older screen writes text along the cursor's row.  On a
    screen made by [resize()] with 1 to 256 tiles per sprite-sheet row and
    changed through its methods, [writeText] of single-byte codes without
    a newline that fit between the cursor and column [w] stores, for the
    character at position [k], the tile column [c % tileColumns], the tile
    row [c / tileColumns] and the two bytes of the current color in the
    cell [k] columns right of the cursor; the cursor ends behind the last
    character on the same row and no other byte of the tilemap changes. *)
Theorem legacy_writeText_row
    (columns rows tiles : Z) (ops : list op) (str : list Z) :
  let s := run ops (sized columns rows tiles) in
  let s' := writeText str s in
  let i := 4 * (cursor_y s * w s + cursor_x s) in
  0 <= columns → 0 <= rows → 1 <= tiles <= 256 →
  0 <= cursor_x s → cursor_x s + Z.of_nat (List.length str) <= w s →
  0 <= cursor_y s < h s →
  forallb (λ c, (0 <=? c) && (c <? 256)
                && negb (c =? CharacterCode_NewLine)) str = true →
  cursor_x s' = cursor_x s + Z.of_nat (List.length str)
  ∧ cursor_y s' = cursor_y s
  ∧ (∀ (k : nat) c, str !! k = Some c →
       map (λ t, TypedArray.get (screenBuffer s')
                   (i + 4 * Z.of_nat k + t)) [0; 1; 2; 3]
       = [Some (c mod tiles); Some (c / tiles);
          Some (color s mod 256); Some (color s / 256)])
  ∧ (∀ j, j < i ∨ i + 4 * Z.of_nat (List.length str) <= j →
       TypedArray.get (screenBuffer s') j = TypedArray.get (screenBuffer s) j).
Proof.
  intros s s' i Hc Hr Ht Hx Hlen Hy Hstr.
  destruct (run_fields ops (sized columns rows tiles)) as [Hcol Et];
    [cbn; lia|].
  change (tileColumns (sized columns rows tiles)) with tiles in Et.
  fold s in Hcol, Et. rewrite <- Et.
  apply writeText_row; try done; [|by rewrite Et].
  by apply legacyScreen_wf_run, legacyScreen_wf_sized.
Qed.

Lemma legacy_writeText_row_witness :
  let s := run [SetColor 255 128 0; Move 1 1] (sized 4 3 16) in
  let s' := writeText [72; 105] s in
  let i := 4 * (cursor_y s * w s + cursor_x s) in
  cursor_x s' = cursor_x s + Z.of_nat (List.length [72; 105])
  ∧ cursor_y s' = cursor_y s
  ∧ (∀ (k : nat) c, [72; 105] !! k = Some c →
       map (λ t, TypedArray.get (screenBuffer s')
                   (i + 4 * Z.of_nat k + t)) [0; 1; 2; 3]
       = [Some (c mod 16); Some (c / 16);
          Some (color s mod 256); Some (color s / 256)])
  ∧ (∀ j, j < i ∨ i + 4 * Z.of_nat (List.length [72; 105]) <= j →
       TypedArray.get (screenBuffer s') j = TypedArray.get (screenBuffer s) j).
Proof.
  apply (legacy_writeText_row 4 3 16 [SetColor 255 128 0; Move 1 1]
           [72; 105]); by_evaluation.
Defined.

(** The bytes after two stores into the same cell. *)
Lemma storeCell_twice a i c d tiles col k :
  TypedArray.get
    (Screen.storeCell (Screen.storeCell a i c tiles col) i d tiles col) k
  = TypedArray.get (Screen.storeCell a i d tiles col) k.
Proof.
  destruct (decide (0 <= k < TypedArray.length a)) as [Hk|Hk].
  - unfold Screen.storeCell, TypedArray.store_num.
    destruct (Z.eq_dec k (i + 3)) as [->|H3].
    { rewrite !get_store_eq by (rewrite ?length_store; lia).
      by rewrite !bits_store. }
    rewrite (get_store_ne _ (i + 3)) by done.
    rewrite (get_store_ne _ (i + 3) k) by done.
    destruct (Z.eq_dec k (i + 2)) as [->|H2].
    { rewrite !get_store_eq by (rewrite ?length_store; lia).
      by rewrite !bits_store. }
    rewrite (get_store_ne _ (i + 2)) by done.
    rewrite (get_store_ne _ (i + 2) k) by done.
    destruct (Z.eq_dec k (i + 1)) as [->|H1].
    { rewrite !get_store_eq by (rewrite ?length_store; lia).
      by rewrite !bits_store. }
    rewrite (get_store_ne _ (i + 1)) by done.
    rewrite (get_store_ne _ (i + 1) k) by done.
    destruct (Z.eq_dec k i) as [->|H0].
    { rewrite !get_store_eq by (rewrite ?length_store; lia).
      by rewrite !bits_store. }
    rewrite (get_store_ne _ i) by done.
    rewrite (get_store_ne _ i k) by done.
    by rewrite !get_store_ne by done.
  - rewrite !get_out_of_range; [done | |];
      by rewrite !length_storeCell.
Qed.

(** X25.  With [wrap] on, the older screen loses the character written
    at column [w].  [writeCharCode] accepts the cursor at column [w] (the
    test is [cursor.x > w]) and stores the character at index
    [w * y + w], the first cell of the next row; [next()] then wraps the
    cursor to that very cell, so the following character overwrites it:
    after both writes the tilemap is the one the second character alone
    gives when written at the start of the next row. *)
Theorem legacy_wrap_overwrites
    (columns rows tiles : Z) (ops : list op) (c d k : Z) :
  let s := run ops (sized columns rows tiles) in
  let s' := writeText [c; d] s in
  0 <= columns → 0 <= rows → wrap s = true →
  0 < w s → cursor_x s = w s → 0 <= cursor_y s → cursor_y s + 1 < h s →
  c ≠ CharacterCode_NewLine → d ≠ CharacterCode_NewLine →
  cursor_x s' = 1 ∧ cursor_y s' = cursor_y s + 1
  ∧ TypedArray.get (screenBuffer s') k
    = TypedArray.get
        (screenBuffer (writeText [d] (move 0 (cursor_y s + 1) s))) k.
Proof.
  intros s s' Hc Hr Hwrap Hw Hx Hy0 Hy1 Hcn Hdn.
  destruct (writeCharCode_cell c s) as (Eb & Ecur & Ew & Eh & Ewrap & _);
    [done | lia | lia |].
  rewrite Hx, Z.eqb_refl, Hwrap in Ecur. cbn [andb] in Ecur.
  injection Ecur as Ex Ey.
  destruct (legacy_writeCharCode_fields c s) as [Ec Et].
  destruct (writeCharCode_cell d (writeCharCode c s))
    as (Eb2 & Ecur2 & _); [done | lia | lia |].
  rewrite Ex, Ey, Ew, Ec, Et, Eb in Eb2. rewrite Ex, Ey, Ew in Ecur2.
  assert ((0 =? w s) = false) as E0 by lia.
  rewrite E0 in Ecur2. cbn [andb] in Ecur2. injection Ecur2 as Ex2 Ey2.
  destruct (writeCharCode_cell d (move 0 (cursor_y s + 1) s))
    as (Eb3 & _); [done | cbn; lia | cbn; lia |].
  cbn [move setCursor w h cursor_x cursor_y tileColumns color screenBuffer]
    in Eb3.
  change (writeText [c; d] s) with (writeCharCode d (writeCharCode c s)) in s'.
  change (writeText [d] (move 0 (cursor_y s + 1) s))
    with (writeCharCode d (move 0 (cursor_y s + 1) s)).
  subst s'. split; [done|]. split; [lia|].
  rewrite Eb2, Eb3, Hx.
  replace ((w s * (cursor_y s + 1) + 0) * 4)
    with ((w s * cursor_y s + w s) * 4) by lia.
  apply storeCell_twice.
Qed.

Lemma legacy_wrap_overwrites_witness :
  let s := run [SetWrap true; Move 2 0] (sized 2 3 16) in
  let s' := writeText [65; 66] s in
  cursor_x s' = 1 ∧ cursor_y s' = cursor_y s + 1
  ∧ TypedArray.get (screenBuffer s') 8
    = TypedArray.get
        (screenBuffer (writeText [66] (move 0 (cursor_y s + 1) s))) 8.
Proof.
  apply (legacy_wrap_overwrites 2 3 16 [SetWrap true; Move 2 0] 65 66 8);
    by_evaluation.
Defined.

End legacy_text.
